(** * groot: project-root resolution and path utilities

    A shallow embedding of the Go package [groot] (files [utils.go] and
    [groot.go]) together with the parts of the Go standard library it
    calls ([strings], [path/filepath] on a Unix host, the process
    environment) and of the env-file loader it delegates to.

    Go strings are byte strings: they are modelled by [string], whose
    characters are the 256 values of [ascii].  Results of type [error] are
    options ([None] for [nil]); a call that changes the process environment
    takes the state and returns the new one. *)

From Stdlib Require Import Strings.String Strings.Ascii Lists.List.
From Stdlib Require Import Arith.PeanoNat ZArith.ZArith Bool.Bool Lia.
From Stdlib Require Import Sorting.Permutation.
From stdpp Require Import gmap strings.

Import ListNotations.

(** ** Package [strings] *)

Module GoStrings.

(** The six ASCII white-space bytes (tab, line feed, vertical tab, form
    feed, carriage return, space): the table [asciiSpace] of the package. *)
Definition asciiSpace (c : ascii) : bool :=
  match c with
  | "009"%char | "010"%char | "011"%char
  | "012"%char | "013"%char | " "%char => true
  | _ => false
  end.

(** [unicode.IsSpace] outside ASCII, on the UTF-8 encoding of the rune.
    Two bytes: U+0085 and U+00A0. *)
Definition isSpace2 (a b : ascii) : bool :=
  Ascii.eqb a "194" && (Ascii.eqb b "133" || Ascii.eqb b "160").

(** Three bytes: U+1680, U+2000 to U+200A, U+2028, U+2029, U+202F, U+205F
    and U+3000. *)
Definition isSpace3 (a b c : ascii) : bool :=
  Ascii.eqb a "225" && Ascii.eqb b "154" && Ascii.eqb c "128"
  || Ascii.eqb a "226" && Ascii.eqb b "128"
     && ((128 <=? nat_of_ascii c) && (nat_of_ascii c <=? 138)
         || Ascii.eqb c "168" || Ascii.eqb c "169" || Ascii.eqb c "175")
  || Ascii.eqb a "226" && Ascii.eqb b "129" && Ascii.eqb c "159"
  || Ascii.eqb a "227" && Ascii.eqb b "128" && Ascii.eqb c "128".

(** The two tests on the bytes as a scan meets them: first byte first when
    it goes forward, last byte first when it goes backward. *)
Definition rune2 (back : bool) (x y : ascii) : bool :=
  if back then isSpace2 y x else isSpace2 x y.

Definition rune3 (back : bool) (x y z : ascii) : bool :=
  if back then isSpace3 z y x else isSpace3 x y z.

(** [strings.TrimLeftFunc(s, unicode.IsSpace)] on the bytes of [s], and
    [strings.TrimRightFunc(s, unicode.IsSpace)] on the bytes of [s] last one
    first: white-space runes are dropped until the scan meets a byte that
    starts none.  (Bytes that are not valid UTF-8 decode to the replacement
    rune, one byte wide, which is not white space; no white-space rune has
    another encoding.) *)
Fixpoint trimRunes (back : bool) (l : list ascii) : list ascii :=
  match l with
  | [] => []
  | x :: l1 =>
      if asciiSpace x then trimRunes back l1
      else
        match l1 with
        | y :: l2 =>
            if rune2 back x y then trimRunes back l2
            else
              match l2 with
              | z :: l3 => if rune3 back x y z then trimRunes back l3 else l
              | [] => l
              end
        | [] => l
        end
  end.

Definition TrimLeftSpace (s : string) : string :=
  string_of_list_ascii (trimRunes false (list_ascii_of_string s)).

Definition TrimRightSpace (s : string) : string :=
  string_of_list_ascii
    (rev (trimRunes true (rev (list_ascii_of_string s)))).

(** [strings.TrimSpace]: the leading white space is cut first, then the
    trailing one, ASCII and Unicode white space alike. *)
Definition TrimSpace (s : string) : string :=
  TrimRightSpace (TrimLeftSpace s).

(** [strings.IndexByte]: index of the first [c] in [s], or [-1]. *)
Fixpoint IndexByte (s : string) (c : ascii) : Z :=
  match s with
  | EmptyString => (-1)%Z
  | String b rest =>
      if Ascii.eqb b c then 0%Z
      else let i := IndexByte rest c in
           if (i =? -1)%Z then (-1)%Z else (i + 1)%Z
  end.

(** [len(s) >= len(prefix) && s[:len(prefix)] == prefix] *)
Fixpoint HasPrefix (s pre : string) {struct pre} : bool :=
  match pre with
  | EmptyString => true
  | String p pre' =>
      match s with
      | EmptyString => false
      | String c rest => Ascii.eqb c p && HasPrefix rest pre'
      end
  end.

(** [len(s) >= len(suffix) && s[len(s)-len(suffix):] == suffix] *)
Definition HasSuffix (s suffix : string) : bool :=
  (String.length suffix <=? String.length s) &&
  String.eqb
    (substring (String.length s - String.length suffix)
               (String.length suffix) s)
    suffix.

Fixpoint Contains (s substr : string) : bool :=
  HasPrefix s substr ||
  match s with
  | EmptyString => false
  | String _ rest => Contains rest substr
  end.

(** [strings.Join(elems, sep)] *)
Definition Join (elems : list string) (sep : string) : string :=
  String.concat sep elems.

(** Left-to-right scan of [strings.ReplaceAll] for a non-empty [old]:
    at a position where [old] matches, [new] is emitted and the matched
    bytes are skipped ([skip] counts the ones still to drop), so matches
    never overlap. *)
Fixpoint replaceScan (old new : string) (skip : nat) (s : string) : string :=
  match s with
  | EmptyString => EmptyString
  | String c rest =>
      match skip with
      | S k => replaceScan old new k rest
      | O =>
          if HasPrefix s old
          then new +:+ replaceScan old new (String.length old - 1) rest
          else String c (replaceScan old new 0 rest)
      end
  end.

(** [strings.ReplaceAll(s, old, new)], for a non-empty [old] (the only
    use in the package has the two-byte [old]). *)
Definition ReplaceAll (s old new : string) : string :=
  replaceScan old new 0 s.

(** [strings.ToUpper] on a one-byte string: ASCII lower-case letters are
    shifted, other ASCII bytes are kept, and a lone byte above 127 is not
    valid UTF-8 and comes back as the replacement character. *)
Definition ToUpperByte (c : ascii) : string :=
  let n := nat_of_ascii c in
  if (97 <=? n) && (n <=? 122) then String (ascii_of_nat (n - 32)) EmptyString
  else if n <? 128 then String c EmptyString
  else String "239"%char (String "191"%char (String "189"%char EmptyString)).

End GoStrings.

(** ** Package [path/filepath], Unix flavour

    The separator is the slash and there are no volume names. *)

Module Filepath.

Definition Separator : ascii := "/"%char.

Definition IsPathSeparator (c : ascii) : bool := Ascii.eqb c Separator.

(** The pieces of [path] between separators; never the empty list. *)
Fixpoint pathElems (path : string) : list string :=
  match path with
  | EmptyString => [EmptyString]
  | String c rest =>
      if IsPathSeparator c then EmptyString :: pathElems rest
      else match pathElems rest with
           | e :: es => String c e :: es
           | [] => [String c EmptyString]
           end
  end.

Definition isRooted (path : string) : bool :=
  match path with
  | String c _ => IsPathSeparator c
  | EmptyString => false
  end.

(** [r == n || os.IsPathSeparator(path[r])], for the rest of the path
    from [r] on. *)
Definition elemEnds (path : string) : bool :=
  match path with
  | EmptyString => true
  | String c _ => IsPathSeparator c
  end.

(** The output buffer of [Clean] is a list of bytes, the last one written
    first; [out.w] is its length.

    [out.w--; for out.w > dotdot && !os.IsPathSeparator(out.index(out.w))
    { out.w-- }]: bytes are dropped until the dropped one is a separator or
    the buffer is down to [dotdot]. *)
Fixpoint backtrack (dotdot : nat) (out : list ascii) : list ascii :=
  match out with
  | [] => []
  | c :: below =>
      if (dotdot <? length below) && negb (IsPathSeparator c)
      then backtrack dotdot below
      else below
  end.

(** [for ; r < n && !os.IsPathSeparator(path[r]); r++ {
    out.append(path[r]) }] *)
Fixpoint copyElem (path : string) (out : list ascii) : string * list ascii :=
  match path with
  | EmptyString => (path, out)
  | String c rest =>
      if IsPathSeparator c then (path, out) else copyElem rest (c :: out)
  end.

(** The loop [for r < n] of [Clean] on the rest of the path from [r] on.
    Every turn consumes at least one byte, so the length of the rest bounds
    the number of turns. *)
Fixpoint cleanLoop (fuel : nat) (rooted : bool) (path : string)
  (out : list ascii) (dotdot : nat) : list ascii :=
  match fuel, path with
  | _, EmptyString => out
  | O, _ => out
  | S fuel', String c rest =>
      if IsPathSeparator c then
        (* empty path element *)
        cleanLoop fuel' rooted rest out dotdot
      else if Ascii.eqb c "." && elemEnds rest then
        (* . element *)
        cleanLoop fuel' rooted rest out dotdot
      else if Ascii.eqb c "."
              && match rest with
                 | String d rest2 => Ascii.eqb d "." && elemEnds rest2
                 | EmptyString => false
                 end
      then
        (* .. element: remove to last separator *)
        let rest2 := match rest with
                     | String _ rest2 => rest2
                     | EmptyString => rest
                     end in
        if dotdot <? length out then
          (* can backtrack *)
          cleanLoop fuel' rooted rest2 (backtrack dotdot out) dotdot
        else if negb rooted then
          (* cannot backtrack, but not rooted, so append .. element. *)
          let out := if 0 <? length out then Separator :: out else out in
          let out := "."%char :: "."%char :: out in
          cleanLoop fuel' rooted rest2 out (length out)
        else cleanLoop fuel' rooted rest2 out dotdot
      else
        (* real path element.  add slash if needed *)
        let out :=
          if rooted && negb (length out =? 1)
             || negb rooted && negb (length out =? 0)
          then Separator :: out else out in
        (* copy element *)
        let '(rest', out) := copyElem path out in
        cleanLoop fuel' rooted rest' out dotdot
  end.

(** [filepath.Clean] *)
Definition Clean (path : string) : string :=
  if String.eqb path "" then "."
  else
    let rooted := isRooted path in
    let out :=
      match path with
      | String c rest =>
          if rooted
          then cleanLoop (String.length rest) rooted rest [Separator] 1
          else cleanLoop (String.length path) rooted path [] 0
      | EmptyString => []
      end in
    (* Turn empty string into "." *)
    match out with
    | [] => "."
    | _ => string_of_list_ascii (rev out)
    end.

(** *** [Clean], element by element

    The loop of [Clean] handles one path element per turn (the separators
    between them are the empty elements).  [cleanElem] is that turn on the
    list of the elements written so far, last one first; [dotdot] counts
    the elements that a [..] must not remove (the leading [..] elements of
    a relative path).  [Clean_unfold] relates the two. *)
Definition cleanElem (rooted : bool) (acc : list string * nat) (e : string)
  : list string * nat :=
  let '(out, dotdot) := acc in
  if String.eqb e "" then acc
  else if String.eqb e "." then acc
  else if String.eqb e ".." then
    if dotdot <? length out then (tl out, dotdot)
    else if negb rooted then (e :: out, S (length out))
    else acc
  else (e :: out, dotdot).

(** The elements that [Clean] keeps, last one first. *)
Definition cleanOut (path : string) : list string :=
  fst (fold_left (cleanElem (isRooted path)) (pathElems path) ([], 0)).

(** [path[:i+1]] for [i] the index of the last separator of [path]; the
    empty string when [path] has none. *)
Fixpoint dirPrefix (path : string) : string :=
  match path with
  | EmptyString => EmptyString
  | String c rest =>
      match dirPrefix rest with
      | EmptyString =>
          if IsPathSeparator c then String c EmptyString else EmptyString
      | kept => String c kept
      end
  end.

Definition Dir (path : string) : string := Clean (dirPrefix path).

Fixpoint stripTrailingSeps (path : string) : string :=
  match path with
  | EmptyString => EmptyString
  | String c rest =>
      match stripTrailingSeps rest with
      | EmptyString =>
          if IsPathSeparator c then EmptyString else String c EmptyString
      | kept => String c kept
      end
  end.

Definition Base (path : string) : string :=
  if String.eqb path "" then "."
  else
    let name := List.last (pathElems (stripTrailingSeps path)) "" in
    if String.eqb name "" then "/" else name.

(** [filepath.Join]: leading empty elements are ignored, the others are
    joined with the separator and the result is cleaned. *)
Fixpoint Join (elem : list string) : string :=
  match elem with
  | [] => ""
  | e :: rest =>
      if String.eqb e "" then Join rest
      else Clean (GoStrings.Join elem "/")
  end.

Definition IsAbs (path : string) : bool := GoStrings.HasPrefix path "/".

(** [s[i:j]] *)
Definition slice (s : string) (i j : nat) : string := substring i (j - i) s.

Definition sepAt (s : string) (i : nat) : bool :=
  match String.get i s with
  | Some c => IsPathSeparator c
  | None => false
  end.

(** [for i < len(s) && s[i] != Separator { i++ }] *)
Fixpoint skipElem (fuel : nat) (s : string) (i : nat) : nat :=
  match fuel with
  | O => i
  | S fuel' =>
      if (i <? String.length s) && negb (sepAt s i)
      then skipElem fuel' s (S i) else i
  end.

(** The loop of [Rel] that positions [base[b0:bi]] and [targ[t0:ti]] at
    the first differing elements. *)
Fixpoint relScan (fuel : nat) (base targ : string) (b0 bi t0 ti : nat)
  : nat * nat * nat * nat :=
  match fuel with
  | O => (b0, bi, t0, ti)
  | S fuel' =>
      let bl := String.length base in
      let tl := String.length targ in
      if (bi <? bl) && (ti <? tl) then
        let bi := skipElem bl base bi in
        let ti := skipElem tl targ ti in
        if negb (String.eqb (slice targ t0 ti) (slice base b0 bi))
        then (b0, bi, t0, ti)
        else
          let bi := if bi <? bl then S bi else bi in
          let ti := if ti <? tl then S ti else ti in
          relScan fuel' base targ bi bi ti ti
      else (b0, bi, t0, ti)
  end.

Fixpoint countSeps (s : string) : nat :=
  match s with
  | EmptyString => 0
  | String c rest => (if IsPathSeparator c then 1 else 0) + countSeps rest
  end.

Fixpoint upDirs (n : nat) : string :=
  match n with
  | O => ""
  | S n' => "/.." +:+ upDirs n'
  end.

(** [filepath.Rel]; [None] stands for its error ("can't make targpath
    relative to basepath"). *)
Definition Rel (basepath targpath : string) : option string :=
  let base := Clean basepath in
  let targ := Clean targpath in
  if String.eqb targ base then Some "."
  else
    let base := if String.eqb base "." then "" else base in
    if negb (Bool.eqb (sepAt base 0) (sepAt targ 0)) then None
    else
      let bl := String.length base in
      let tl := String.length targ in
      let '(b0, bi, t0, ti) := relScan (S (bl + tl)) base targ 0 0 0 0 in
      if String.eqb (slice base b0 bi) ".." then None
      else if negb (b0 =? bl) then
        let seps := countSeps (slice base b0 bl) in
        Some (".." +:+ upDirs seps +:+
              (if negb (t0 =? tl) then "/" +:+ slice targ t0 tl else ""))
      else Some (slice targ t0 tl).

End Filepath.

(** ** Errors

    The three sentinel errors of the package, the errors it builds with
    [ers.New], and the errors that come back from the operating system, the
    [filepath] package and the env-file loader ([ErrExternal], with the
    failed operation and its argument). *)

Inductive error : Type :=
| ErrNoEnvDefined
| ErrMissingEnvs
| ErrBadEnvsDefined
| ErrNew (msg : string)
| ErrExternal (op arg : string).

Inductive result (A : Type) : Type :=
| Ok (a : A)
| Err (e : error).

Arguments Ok {A} a.
Arguments Err {A} e.

(** Package [ers]: [Wrap] adds call-site context and keeps the identity of
    the error it wraps ([errors.Is] sees through it); [Wrap(nil)] is
    [nil]. *)
Module ers.
Definition New (msg : string) : error := ErrNew msg.
Definition Wrap (err : error) : error := err.
End ers.

(** ** The host: operating system, file system and Go runtime

    Everything the package reads from outside is a field of the host.  The
    package only reads the file system, so the host does not change during
    a call. *)

Record FileInfo : Type := { IsDir : bool }.

Record Host : Type := {
  (** [os.Executable()]; [None] when it fails *)
  Executable : option string;
  (** the file that [runtime.Caller] reports for the outermost frame that
      [GetMainFile] inspects *)
  CallerFile : string;
  (** [os.TempDir()] *)
  TempDir : string;
  (** [os.Stat(name)]; [None] when it fails *)
  Stat : string -> option FileInfo;
  (** [filepath.Glob(pattern)]; [None] for a malformed pattern *)
  Glob : string -> option (list string);
  (** the key/value pairs the env-file loader parses from a file; [None]
      when the file cannot be read or parsed *)
  ReadEnvFile : string -> option (gmap string string);
  (** the order in which a [range] loop visits the keys of a Go map: any
      enumeration of the keys, each one once *)
  mapRange : gset string -> list string;
  mapRange_perm : forall keys, Permutation (mapRange keys) (elements keys)
}.

(** ** Process state

    The package variable [grootEnv], the process environment, and a trace of
    the calls made to the env-file loader (the file lists, oldest first). *)

Record State : Type := {
  grootEnv : string;
  environ : gmap string string;
  loads : list (list string)
}.

Module os.

Definition PathSeparator : ascii := "/"%char.

(** The names and values that the environment can hold: [syscall.Setenv]
    fails with [EINVAL] for an empty key, a key with [=] or a NUL byte, and
    a value with a NUL byte. *)
Definition keyAccepted (key : string) : bool :=
  negb (String.eqb key "")
  && (GoStrings.IndexByte key "=" =? -1)%Z
  && (GoStrings.IndexByte key "000" =? -1)%Z.

Definition valueAccepted (value : string) : bool :=
  (GoStrings.IndexByte value "000" =? -1)%Z.

Definition envAccepts (key value : string) : bool :=
  keyAccepted key && valueAccepted value.

(** [os.Getenv]: the empty string when the key is absent; no variable has
    a name that the environment cannot hold. *)
Definition Getenv (key : string) (st : State) : string :=
  if keyAccepted key then default "" (environ st !! key) else "".

(** [os.Setenv]: the state after the call.  When the system refuses the
    key or the value nothing is stored; the call then returns an error,
    which no caller in the package (nor the env-file loader) looks at. *)
Definition Setenv (key value : string) (st : State) : State :=
  if envAccepts key value then
    {| grootEnv := grootEnv st;
       environ := <[key := value]> (environ st);
       loads := loads st |}
  else st.

Definition Unsetenv (key : string) (st : State) : State :=
  {| grootEnv := grootEnv st;
     environ := delete key (environ st);
     loads := loads st |}.

End os.

(** ** Package [godotenv]

    [Load] reads the files in order and sets, with [os.Setenv], the
    variables that the environment does not have yet (what [os.Setenv]
    refuses is not set, and the loader goes on); it stops at the first
    file that cannot be read.  Called without a file it reads [.env]. *)

Module godotenv.

Fixpoint loadFiles (h : Host) (filenames : list string) (st : State)
  : option error * State :=
  match filenames with
  | [] => (None, st)
  | filename :: rest =>
      match ReadEnvFile h filename with
      | None => (Some (ErrExternal "godotenv.Load" filename), st)
      | Some envMap =>
          loadFiles h rest
            {| grootEnv := grootEnv st;
               environ :=
                 environ st
                 ∪ filter (fun kv => os.envAccepts kv.1 kv.2 = true) envMap;
               loads := loads st |}
      end
  end.

Definition Load (h : Host) (filenames : list string) (st : State)
  : option error * State :=
  let filenames := match filenames with [] => [".env"] | _ => filenames end in
  loadFiles h filenames
    {| grootEnv := grootEnv st;
       environ := environ st;
       loads := loads st ++ [filenames] |}.

End godotenv.

(** ** Package [groot], file [utils.go] *)

Fixpoint mapBytes (f : ascii -> ascii) (s : string) : string :=
  match s with
  | EmptyString => EmptyString
  | String c rest => String (f c) (mapBytes f rest)
  end.

(** function copied from filepath.ToSlash() *)
Definition replaceStringByte (s : string) (old new : ascii) : string :=
  if (GoStrings.IndexByte s old =? -1)%Z then s
  else mapBytes (fun b => if Ascii.eqb b old then new else b) s.

(** ensureCleanPath trims spaces, normalizes separators and removes
    duplicate separators *)
Definition ensureCleanPath (path : string) : string :=
  let path :=
    replaceStringByte (GoStrings.TrimSpace path) os.PathSeparator "/"%char in
  let path :=
    replaceStringByte (GoStrings.TrimSpace path) "/"%char os.PathSeparator in
  GoStrings.ReplaceAll path
    (String os.PathSeparator (String os.PathSeparator EmptyString))
    (String os.PathSeparator EmptyString).

(** The body of the first loop of [cleanFilenames]: the map
    [uniqueFilenames] after one more filename. *)
Definition addFilename (uniqueFilenames : gset string) (filename : string)
  : gset string :=
  let filename :=
    replaceStringByte (GoStrings.TrimSpace filename) os.PathSeparator "/"%char in
  if String.eqb filename "" || GoStrings.Contains filename "/"
  then uniqueFilenames
  else {[ filename ]} ∪ uniqueFilenames.

(** cleanFilenames removes duplicate filenames and returns a slice of
    unique filenames *)
Definition cleanFilenames (h : Host) (filenames : list string) : list string :=
  let uniqueFilenames := fold_left addFilename filenames ∅ in
  mapRange h uniqueFilenames.

(** findFiles returns a slice of found files in a directory *)
Fixpoint findFilesFrom (h : Host) (dirPath : string) (fileNames : list string)
  (foundFiles : list string) : result (list string) :=
  match fileNames with
  | [] => Ok foundFiles
  | fileName :: rest =>
      match Glob h (Filepath.Join [dirPath; fileName]) with
      | None =>
          Err (ers.Wrap
                 (ErrExternal "filepath.Glob" (Filepath.Join [dirPath; fileName])))
      | Some files => findFilesFrom h dirPath rest (foundFiles ++ files)
      end
  end.

Definition findFiles (h : Host) (dirPath : string) (fileNames : list string)
  : result (list string) :=
  findFilesFrom h dirPath fileNames [].

(** ** Package [groot], file [groot.go] *)

(** SetGrootKey changes the environment variable key used to store the
    root path. *)
Definition SetGrootKey (key : string) (st : State) : option error * State :=
  let key := GoStrings.TrimSpace key in
  if String.eqb key "" then (Some (ers.New "key cannot be empty"), st)
  else (None, {| grootEnv := key; environ := environ st; loads := loads st |}).

(** The loop of [IterateThroughPath].  Every turn replaces [path] by a
    strictly smaller [filepath.Dir path] (see [Dir_measure]), so [fuel]
    bounds the number of turns; with no fuel left the loop is cut. *)
Fixpoint iteratePaths (fuel : nat) (path : string) : list string :=
  if String.eqb path (Filepath.Dir path) then [path]
  else match fuel with
       | O => [path]
       | S fuel' => path :: iteratePaths fuel' (Filepath.Dir path)
       end.

(** IterateThroughPath returns a slice of paths starting from the given
    path up to the filesystem root. *)
Definition IterateThroughPath (path : string) : list string :=
  let path := ensureCleanPath path in
  iteratePaths (S (String.length path)) path.

Definition GetMainFile (h : Host) : result string :=
  let goFile := CallerFile h in
  if negb (GoStrings.HasSuffix goFile ".go")
  then Err (ers.New "main *.go file not found")
  else
    Ok (if 1 <? String.length goFile
        then match goFile with
             | String c rest => GoStrings.ToUpperByte c +:+ rest
             | EmptyString => goFile
             end
        else goFile).

(** GetProjectDir returns either the directory containing the executable
    or the directory containing the file containing main() depending on
    calling context ('go run' or standalone executable). *)
Definition GetProjectDir (h : Host) : result string :=
  match Executable h with
  | None => Err (ers.Wrap (ErrExternal "os.Executable" ""))
  | Some execPath =>
      let execDir := Filepath.Dir execPath in
      match GetMainFile h with
      | Err err => Err (ers.Wrap err)
      | Ok goFile =>
          let goDir := Filepath.Dir goFile in
          let tempDir := TempDir h in
          if GoStrings.Contains execDir tempDir then Ok goDir
          else
            match Stat h execDir with
            | None => Err (ers.Wrap (ErrExternal "os.Stat" execDir))
            | Some fi =>
                if IsDir fi then Ok execDir
                else Err (ers.New "unable to get project dir")
            end
      end
  end.

(** GetRoot returns the current project root directory. *)
Definition GetRoot (st : State) : string := os.Getenv (grootEnv st) st.

(** [f, err := os.Stat(filepath.Join(path, entryFile)); err == nil &&
    !f.IsDir()] *)
Definition hasEntryFile (h : Host) (path entryFile : string) : bool :=
  match Stat h (Filepath.Join [path; entryFile]) with
  | Some f => negb (IsDir f)
  | None => false
  end.

(** The loop of [SetRoot] over the ancestor chain: at each directory the
    env files found there are appended to [foundEnvPaths]; the first
    directory that holds a non-directory [entryFile] is stored as root and
    ends the loop. *)
Fixpoint searchAncestors (h : Host) (entryFile : string)
  (cleanEnvFilenames : list string) (paths : list string)
  (foundEnvPaths : list string) (st : State)
  : result (list string) * State :=
  match paths with
  | [] => (Ok foundEnvPaths, st)
  | path :: rest =>
      match findFiles h path cleanEnvFilenames with
      | Err err => (Err (ers.Wrap err), st)
      | Ok found =>
          let foundEnvPaths := foundEnvPaths ++ found in
          if hasEntryFile h path entryFile
          then (Ok foundEnvPaths, os.Setenv (grootEnv st) path st)
          else searchAncestors h entryFile cleanEnvFilenames rest
                 foundEnvPaths st
      end
  end.

(** [strings.TrimSpace(strings.Join(envFiles, "")) != ""] *)
Definition definedEnvs (envFiles : list string) : bool :=
  negb (String.eqb (GoStrings.TrimSpace (GoStrings.Join envFiles "")) "").

(** First part of [SetRoot], up to the point where the list of env files
    to load is complete: argument checks, search for the root, and the
    entry file itself when it is an env file. *)
Definition SetRoot_search (h : Host) (entryFile : string)
  (envFiles : list string) (st : State) : result (list string) * State :=
  let entryFile := GoStrings.TrimSpace entryFile in
  if String.eqb entryFile "" then (Err (ers.New "entry file not defined"), st)
  else
    let definedEnvsFlag := definedEnvs envFiles in
    let cleanEnvFilenames := cleanFilenames h envFiles in
    if definedEnvsFlag && (length cleanEnvFilenames =? 0)
    then (Err (ers.Wrap ErrBadEnvsDefined), st)
    else
      match GetProjectDir h with
      | Err err => (Err (ers.Wrap err), st)
      | Ok projectDir =>
          match searchAncestors h entryFile cleanEnvFilenames
                  (IterateThroughPath projectDir) [] st with
          | (Err err, st) => (Err err, st)
          | (Ok foundEnvPaths, st) =>
              let root := os.Getenv (grootEnv st) st in
              if String.eqb root "" then (Err (ers.New "no root found"), st)
              else if GoStrings.HasSuffix entryFile ".env"
              then (Ok (foundEnvPaths ++ [Filepath.Join [root; entryFile]]), st)
              else (Ok foundEnvPaths, st)
          end
      end.

(** The set of base names of the found env files ([foundFilenames]). *)
Definition baseNames (foundEnvPaths : list string) : gset string :=
  fold_left (fun foundFilenames path => {[ Filepath.Base path ]} ∪ foundFilenames)
    foundEnvPaths ∅.

(** [true] when some required file is not among the found names. *)
Fixpoint anyMissing (foundFilenames : gset string) (required : list string)
  : bool :=
  match required with
  | [] => false
  | requiredFile :: rest =>
      if bool_decide (requiredFile ∈ foundFilenames)
      then anyMissing foundFilenames rest
      else true
  end.

(** Second part of [SetRoot]: which of the found env files are loaded. *)
Definition SetRoot_load (h : Host) (envFiles : list string)
  (foundEnvPaths : list string) (st : State) : option error * State :=
  let definedEnvsFlag := definedEnvs envFiles in
  let cleanEnvFilenames := cleanFilenames h envFiles in
  if (length envFiles =? 0) || negb definedEnvsFlag then
    if negb (length foundEnvPaths =? 0)
    then
      let '(err, st) := godotenv.Load h foundEnvPaths st in
      (option_map ers.Wrap err, st)
    else (Some (ers.Wrap ErrNoEnvDefined), st)
  else if definedEnvsFlag
          && anyMissing (baseNames foundEnvPaths) cleanEnvFilenames
  then (Some (ers.Wrap ErrMissingEnvs), st)
  else if 0 <? length foundEnvPaths then
    let '(err, st) := godotenv.Load h foundEnvPaths st in
    (option_map ers.Wrap err, st)
  else (None, st).

(** SetRoot establishes the project root directory and loads environment
    files. *)
Definition SetRoot (h : Host) (entryFile : string) (envFiles : list string)
  (st : State) : option error * State :=
  match SetRoot_search h entryFile envFiles st with
  | (Err err, st) => (Some err, st)
  | (Ok foundEnvPaths, st) => SetRoot_load h envFiles foundEnvPaths st
  end.

(** SetRootNoEnv sets the project root without requiring environment
    files. *)
Definition SetRootNoEnv (h : Host) (entryFile : string) (st : State)
  : option error * State :=
  match SetRoot h entryFile [] st with
  | (Some ErrNoEnvDefined, st) => (None, st)
  | (err, st) => (option_map ers.Wrap err, st)
  end.

(** SetRootFromEnv sets the root directory and loads the entry file as an
    env file. *)
Definition SetRootFromEnv (h : Host) (entryFile : string) (st : State)
  : option error * State :=
  SetRoot h entryFile [entryFile] st.

(** FindGitRootFrom locates the nearest parent git repository from
    startPath. *)
Definition FindGitRootFrom (h : Host) (startPath : string) : string :=
  let paths := IterateThroughPath startPath in
  match
    List.find (fun path =>
            match Stat h (Filepath.Join [path; ".git"]) with
            | Some f => IsDir f
            | None => false
            end) paths
  with
  | Some path => path
  | None => ""
  end.

(** SetRootFromGit sets the root to the nearest parent git repository. *)
Definition SetRootFromGit (h : Host) (st : State) : option error * State :=
  match GetProjectDir h with
  | Err err => (Some (ers.Wrap err), st)
  | Ok projectDir =>
      let root := FindGitRootFrom h projectDir in
      if String.eqb root "" then (Some (ers.New "no git root found"), st)
      else (None, os.Setenv (grootEnv st) root st)
  end.

(** SetRootFromPath sets the root directory from the given path. *)
Definition SetRootFromPath (h : Host) (path : string) (st : State)
  : option error * State :=
  let path := GoStrings.TrimSpace path in
  if String.eqb path "" then (Some (ers.New "path cannot be empty"), st)
  else
    let resolved :=
      if negb (Filepath.IsAbs path) then
        match GetProjectDir h with
        | Err err => Err (ers.Wrap err)
        | Ok projectDir => Ok (Filepath.Join [projectDir; path])
        end
      else Ok path in
    match resolved with
    | Err err => (Some err, st)
    | Ok path =>
        match Stat h path with
        | None => (Some (ers.Wrap (ErrExternal "os.Stat" path)), st)
        | Some fi =>
            if negb (IsDir fi)
            then (Some (ers.New "path is not a directory"), st)
            else (None, os.Setenv (grootEnv st) path st)
        end
    end.

(** Outcome of a call that may panic. *)
Inductive outcome (A : Type) : Type :=
| Returns (a : A)
| Panics (msg : string).

Arguments Returns {A} a.
Arguments Panics {A} msg.

(** FromRoot joins the given path elements with the root directory.  The
    operator [||] evaluates [path[0]] only when [root] is not empty; indexing
    an empty slice panics. *)
Definition FromRoot (path : list string) (st : State) : outcome string :=
  let root := GetRoot st in
  if String.eqb root "" then Returns (Filepath.Join path)
  else
    match path with
    | [] => Panics "index out of range [0] with length 0"
    | first :: _ =>
        if Filepath.IsAbs first then Returns (Filepath.Join path)
        else Returns (Filepath.Join [root; Filepath.Join path])
    end.

(** IsRoot checks if the provided path is the project root directory *)
Definition IsRoot (path : string) (st : State) : bool :=
  let root := GetRoot st in
  if String.eqb root "" then false
  else
    let cleanPath := ensureCleanPath path in
    let cleanRoot := ensureCleanPath root in
    String.eqb cleanPath cleanRoot.

(** GetRootParent returns the parent directory of the project root. *)
Definition GetRootParent (st : State) : string :=
  let root := GetRoot st in
  if String.eqb root "" then ""
  else
    let parent := Filepath.Dir root in
    if String.eqb parent root then "" else parent.

(** GetRelativeToRoot returns the relative path from root to the given
    path. *)
Definition GetRelativeToRoot (path : string) (st : State) : result string :=
  let root := GetRoot st in
  if String.eqb root "" then Err (ers.New "root not set")
  else
    let cleanPath := ensureCleanPath path in
    let cleanRoot := ensureCleanPath root in
    match Filepath.Rel cleanRoot cleanPath with
    | None => Err (ers.Wrap (ErrExternal "Rel" cleanPath))
    | Some rel => Ok rel
    end.

(** ClearRoot unsets the GROOT environment variable *)
Definition ClearRoot (st : State) : State := os.Unsetenv (grootEnv st) st.

(** IsInRoot checks if the given path is within the project root
    directory *)
Definition IsInRoot (path : string) (st : State) : bool :=
  let root := GetRoot st in
  if String.eqb root "" then false
  else
    let cleanPath := ensureCleanPath path in
    let cleanRoot := ensureCleanPath root in
    match Filepath.Rel cleanRoot cleanPath with
    | None => false
    | Some rel => negb (GoStrings.HasPrefix rel "..")
    end.

(** MustGetRoot returns the root directory of the project. *)
Definition MustGetRoot (st : State) : outcome string :=
  let root := GetRoot st in
  if String.eqb root "" then Panics "root not set" else Returns root.

(** ** Package [groot], file [groot.go]: reading the root directory *)

(** ListFilesFromRoot returns a slice of file paths matching the given
    pattern relative to root. *)
Definition ListFilesFromRoot (h : Host) (pattern : string) (st : State)
  : result (list string) :=
  let root := GetRoot st in
  if String.eqb root "" then Err (ers.New "root not set")
  else
    match Glob h (Filepath.Join [root; pattern]) with
    | None =>
        Err (ers.Wrap
               (ErrExternal "filepath.Glob" (Filepath.Join [root; pattern])))
    | Some matches => Ok matches
    end.

(** GetRootInfo returns FileInfo for the root directory. *)
Definition GetRootInfo (h : Host) (st : State) : result FileInfo :=
  let root := GetRoot st in
  if String.eqb root "" then Err (ers.New "root not set")
  else
    match Stat h root with
    | None => Err (ers.Wrap (ErrExternal "os.Stat" root))
    | Some fi => Ok fi
    end.

(** ValidateRoot verifies that root is properly set and exists on the
    filesystem *)
Definition ValidateRoot (h : Host) (st : State) : option error :=
  let root := GetRoot st in
  if String.eqb root "" then Some (ers.New "root not set")
  else
    match Stat h root with
    | None => Some (ers.Wrap (ErrExternal "os.Stat" root))
    | Some fi =>
        if negb (IsDir fi) then Some (ers.New "root is not a directory")
        else None
    end.

(** ** Concrete hosts

    A host given by a table of its files and directories ([true] marks a
    directory) and by the variables that its env files define.  [Stat] looks
    the name up; [Glob] is used by the package with patterns that are plain
    names, and such a pattern matches itself exactly when the file exists. *)

Definition lookupEntry {A : Type} (entries : list (string * A)) (name : string)
  : option A :=
  option_map snd (List.find (fun entry => String.eqb (fst entry) name) entries).

Definition tableHost (execPath callerFile tempDir : string)
  (entries : list (string * bool))
  (envs : list (string * list (string * string))) : Host :=
  {| Executable := Some execPath;
     CallerFile := callerFile;
     TempDir := tempDir;
     Stat := fun name =>
       option_map (fun isDir => {| IsDir := isDir |}) (lookupEntry entries name);
     Glob := fun pattern =>
       match lookupEntry entries pattern with
       | Some _ => Some [pattern]
       | None => Some []
       end;
     ReadEnvFile := fun name =>
       match lookupEntry entries name with
       | Some false =>
           Some (list_to_map (default [] (lookupEntry envs name)))
       | _ => None
       end;
     mapRange := elements;
     mapRange_perm := fun keys => Permutation_refl (elements keys) |}.

(** The project of the scenario: an installed binary in [/home/u/proj/src],
    the marker [app.id] in [/home/u/proj], and [dev.env] both in
    [/home/u/proj] and in [/home/u].  The env file of the project tries to
    define the root variable as well. *)
Definition projHost : Host :=
  tableHost "/home/u/proj/src/app" "/home/u/proj/src/main.go" "/tmp"
    [ ("/", true); ("/home", true); ("/home/u", true);
      ("/home/u/proj", true); ("/home/u/proj/src", true);
      ("/home/u/proj/src/app", false);
      ("/home/u/proj/app.id", false);
      ("/home/u/proj/dev.env", false);
      ("/home/u/dev.env", false) ]
    [ ("/home/u/proj/dev.env", [("MODE", "dev"); ("GROOT", "/tmp/elsewhere")]);
      ("/home/u/dev.env", [("MODE", "user")]) ].

(** The same tree without any marker file, and a directory [/srv/old]. *)
Definition bareHost : Host :=
  tableHost "/home/u/proj/src/app" "/home/u/proj/src/main.go" "/tmp"
    [ ("/", true); ("/home", true); ("/home/u", true);
      ("/home/u/proj", true); ("/home/u/proj/src", true);
      ("/home/u/proj/src/app", false);
      ("/home/u/proj/.git", true);
      ("/srv/old", true) ]
    [].

(** The state of a fresh process, and one whose root is already set. *)
Definition freshState : State :=
  {| grootEnv := "GROOT"; environ := ∅; loads := [] |}.

Definition rootedState (root : string) : State :=
  os.Setenv "GROOT" root freshState.

(** ** Notions used to state the properties *)

(** The test of the scan of [trimRunes]: the bytes start with a white-space
    rune (the last one, for the bytes of a string in reverse). *)
Definition startsRune (back : bool) (l : list ascii) : bool :=
  match l with
  | x :: l1 =>
      GoStrings.asciiSpace x
      || match l1 with
         | y :: l2 =>
             GoStrings.rune2 back x y
             || match l2 with
                | z :: _ => GoStrings.rune3 back x y z
                | [] => false
                end
         | [] => false
         end
  | [] => false
  end.

(** A string that starts with no white-space rune, and one that ends with
    none. *)
Definition noLeadingSpace (s : string) : Prop :=
  startsRune false (list_ascii_of_string s) = false.

Definition noTrailingSpace (s : string) : Prop :=
  startsRune true (rev (list_ascii_of_string s)) = false.

(** A path element that names something: not empty and not [.]. *)
Definition properElem (e : string) : bool :=
  negb (String.eqb e "") && negb (String.eqb e ".").

(** The depth of a path: the number of its proper elements.  The paths [/]
    and [.] have depth 0, [/a] and [a] have depth 1. *)
Definition pathDepth (path : string) : nat :=
  length (List.filter properElem (Filepath.pathElems path)).

(** A string without separator. *)
Definition noSep (e : string) : Prop := Filepath.countSeps e = 0.

(** Bytes and separators of a list of elements joined by separators, plus
    one. *)
Fixpoint elemsSize (elems : list string) : nat :=
  match elems with
  | [] => 0
  | e :: rest => S (String.length e) + elemsSize rest
  end.

(** The quantity that [filepath.Dir] decreases until it reaches its fixed
    point. *)
Definition pathMeasure (path : string) : nat :=
  if String.eqb path "." then 0 else S (String.length path).

(** The loop of [IterateThroughPath] as a relation: [ancestorWalk path
    paths] when the loop entered with [path] ends and leaves [paths]. *)
Inductive ancestorWalk : string -> list string -> Prop :=
| walk_stop (path : string) :
    path = Filepath.Dir path -> ancestorWalk path [path]
| walk_up (path : string) (paths : list string) :
    path <> Filepath.Dir path ->
    ancestorWalk (Filepath.Dir path) paths ->
    ancestorWalk path (path :: paths).

(** Consecutive elements of a list are related by [R]. *)
Fixpoint chain (R : string -> string -> Prop) (paths : list string) : Prop :=
  match paths with
  | a :: (b :: _) as rest => R a b /\ chain R rest
  | _ => True
  end.

(** A list of proper elements. *)
Definition allProper (l : list string) : Prop :=
  Forall (fun e => properElem e = true) l.

(** The last element of a path. *)
Definition lastElem (path : string) : string :=
  List.last (Filepath.pathElems path) "".

(** The bare filename that [cleanFilenames] keeps for an input, if any. *)
Definition bareName (filename : string) : option string :=
  let filename :=
    replaceStringByte (GoStrings.TrimSpace filename) os.PathSeparator "/"%char in
  if String.eqb filename "" || GoStrings.Contains filename "/"
  then None else Some filename.

(** An error of the operating system, of [filepath] or of the loader. *)
Definition isExternal (e : error) : Prop :=
  match e with
  | ErrExternal _ _ => True
  | _ => False
  end.

(** The bytes of a string, last one first. *)
Definition revBytes (s : string) : list ascii := rev (list_ascii_of_string s).

(** The output buffer of [Clean] that holds the elements [stack] (last one
    first): the elements are separated by one separator, after the leading
    separator of a rooted path. *)
Fixpoint bufOf (rooted : bool) (stack : list string) : list ascii :=
  match stack with
  | [] => if rooted then [Filepath.Separator] else []
  | e :: below =>
      revBytes e
      ++ match below with [] => [] | _ => [Filepath.Separator] end
      ++ bufOf rooted below
  end.

(** The first element of a path and what follows it. *)
Definition firstElem (path : string) : string :=
  hd "" (Filepath.pathElems path).

Fixpoint afterElem (path : string) : string :=
  match path with
  | EmptyString => EmptyString
  | String c rest =>
      if Filepath.IsPathSeparator c then path else afterElem rest
  end.

(** An element that [Clean] may keep in its buffer. *)
Definition goodElem (e : string) : Prop := e <> "" /\ noSep e.

(** [strings.ReplaceAll(path, "//", "/")], the last step of
    [ensureCleanPath]. *)
Definition squeeze (s : string) : string := GoStrings.ReplaceAll s "//" "/".

(** The calls of the package that change the process state, and a program
    that makes them one after the other (the errors are dropped, as by a
    caller that does not look at them). *)
Inductive call : Type :=
| CallSetGrootKey (key : string)
| CallSetRoot (entryFile : string) (envFiles : list string)
| CallSetRootNoEnv (entryFile : string)
| CallSetRootFromEnv (entryFile : string)
| CallSetRootFromGit
| CallSetRootFromPath (path : string)
| CallClearRoot.

Definition runCall (h : Host) (c : call) (st : State) : option error * State :=
  match c with
  | CallSetGrootKey key => SetGrootKey key st
  | CallSetRoot entryFile envFiles => SetRoot h entryFile envFiles st
  | CallSetRootNoEnv entryFile => SetRootNoEnv h entryFile st
  | CallSetRootFromEnv entryFile => SetRootFromEnv h entryFile st
  | CallSetRootFromGit => SetRootFromGit h st
  | CallSetRootFromPath path => SetRootFromPath h path st
  | CallClearRoot => (None, ClearRoot st)
  end.

Definition runCalls (h : Host) (calls : list call) (st : State) : State :=
  fold_left (fun st c => snd (runCall h c st)) calls st.


(** The calls that store at most the root, as their last step. *)
Definition allOrNothing (c : call) : bool :=
  match c with
  | CallSetGrootKey _ | CallSetRootFromGit | CallSetRootFromPath _ => true
  | _ => false
  end.

(** A key as [SetGrootKey] accepts it: not empty, no white space around. *)
Definition validKey (key : string) : Prop :=
  key <> "" /\ GoStrings.TrimSpace key = key.


(** A path element that names an entry: not empty, without separator, not
    [.] nor [..], and not ending in white space. *)
Definition plainElem (e : string) : Prop :=
  goodElem e /\ e <> "." /\ e <> ".." /\ noTrailingSpace e.

(** The absolute path with the given elements. *)
Definition absPath (elems : list string) : string :=
  "/" +:+ String.concat "/" elems.

(** * Properties *)

(** ** The library model on the examples of the library

    Inputs and values follow the tables that the Go distribution tests
    [Clean], [Dir], [Base], [Join] and [Rel] with. *)

Example Clean_examples :
  map Filepath.Clean
    [ "abc"; "abc/def"; "a/b/c"; "."; ".."; "../.."; "../../abc"; "/abc"; "/";
      ""; "abc/"; "abc/def/"; "a/b/c/"; "./"; "../"; "../../"; "/abc/";
      "abc//def//ghi"; "abc//"; "abc/./def"; "/./abc/def"; "abc/.";
      "abc/def/ghi/../jkl"; "abc/def/../ghi/../jkl"; "abc/def/..";
      "abc/def/../.."; "/abc/def/../.."; "abc/def/../../..";
      "/abc/def/../../.."; "abc/def/../../../ghi/jkl/../../../mno";
      "/../abc"; "a/../b:/../../c"; "abc/./../def"; "abc//./../def";
      "abc/../../././../def" ]
  = [ "abc"; "abc/def"; "a/b/c"; "."; ".."; "../.."; "../../abc"; "/abc"; "/";
      "."; "abc"; "abc/def"; "a/b/c"; "."; ".."; "../.."; "/abc";
      "abc/def/ghi"; "abc"; "abc/def"; "/abc/def"; "abc";
      "abc/def/jkl"; "abc/jkl"; "abc";
      "."; "/"; "..";
      "/"; "../../mno";
      "/abc"; "../c"; "def"; "def";
      "../../def" ].
Proof. vm_compute. reflexivity. Qed.

Example Dir_examples :
  map Filepath.Dir
    [ ""; "."; "/."; "/"; "/foo"; "x/"; "abc"; "abc/def"; "a/b/.x"; "a/b/c.";
      "a/b/c.x" ]
  = [ "."; "."; "/"; "/"; "/"; "x"; "."; "abc"; "a/b"; "a/b"; "a/b" ].
Proof. vm_compute. reflexivity. Qed.

Example Base_examples :
  map Filepath.Base
    [ ""; "."; "/."; "/"; "////"; "x/"; "abc"; "abc/def"; "a/b/.x"; "a/b/c.";
      "a/b/c.x" ]
  = [ "."; "."; "."; "/"; "/"; "x"; "abc"; "def"; ".x"; "c."; "c.x" ].
Proof. vm_compute. reflexivity. Qed.

Example Join_examples :
  map Filepath.Join
    [ []; [""]; ["/"]; ["a"]; ["a"; "b"]; ["a"; ""]; [""; "b"]; ["/"; "a"];
      ["/"; "a/b"]; ["/"; ""]; ["/a"; "b"]; ["a"; "/b"]; ["/a/"; "b"];
      ["//"; "a"] ]
  = [ ""; ""; "/"; "a"; "a/b"; "a"; "b"; "/a";
      "/a/b"; "/"; "/a/b"; "a/b"; "/a/b";
      "/a" ].
Proof. vm_compute. reflexivity. Qed.

Example Rel_examples :
  map (fun '(base, targ) => Filepath.Rel base targ)
    [ ("a/b", "a/b"); ("a/b/.", "a/b"); ("a/b", "a/b/."); ("./a/b", "a/b");
      ("ab/cd", "ab/cde"); ("ab/cd", "ab/c"); ("a/b", "a/b/c/d");
      ("a/b", "a/b/../c"); ("a/b/../c", "a/b"); ("a/b/c", "a/c/d");
      ("a/b", "c/d"); ("a/b/c/d", "a/b"); ("a/b/c/d/", "a/b/");
      ("../../a/b", "../../a/b/c/d"); ("/a/b", "/a/b"); ("/a/b/.", "/a/b");
      ("/ab/cd", "/ab/cde"); ("/ab/cd", "/ab/c"); ("/a/b", "/a/b/c/d");
      ("/a/b", "/a/b/../c"); ("/a/b/../c", "/a/b"); ("/a/b/c", "/a/c/d");
      ("/a/b", "/c/d"); ("/a/b/c/d", "/a/b"); ("/../../a/b", "/../../a/b/c/d");
      (".", "a/b"); (".", ".."); ("..", "."); ("..", "a"); ("a", "/a");
      ("/a", "a") ]
  = [ Some "."; Some "."; Some "."; Some ".";
      Some "../cde"; Some "../c"; Some "c/d";
      Some "../c"; Some "../b"; Some "../../c/d";
      Some "../../c/d"; Some "../.."; Some "../..";
      Some "c/d"; Some "."; Some ".";
      Some "../cde"; Some "../c"; Some "c/d";
      Some "../c"; Some "../b"; Some "../../c/d";
      Some "../../c/d"; Some "../.."; Some "c/d";
      Some "a/b"; Some ".."; None; None; None;
      None ].
Proof. vm_compute. reflexivity. Qed.

(** ** Strings *)

Lemma append_cons (c : ascii) (s t : string) :
  String c s +:+ t = String c (s +:+ t).
Proof. reflexivity. Qed.

Lemma append_empty_l (s : string) : "" +:+ s = s.
Proof. reflexivity. Qed.

Lemma append_assoc (a b c : string) : (a +:+ b) +:+ c = a +:+ (b +:+ c).
Proof.
  induction a as [|x a IH]; [reflexivity |].
  now rewrite !append_cons, IH.
Qed.

Lemma length_append (a b : string) :
  String.length (a +:+ b) = String.length a + String.length b.
Proof.
  induction a as [|x a IH]; [reflexivity |].
  rewrite append_cons. simpl. now rewrite IH.
Qed.

(** *** White space *)

Lemma trimRunes_spec (back : bool) (n : nat) :
  forall l, length l <= n ->
  (exists pre, l = pre ++ GoStrings.trimRunes back l)
  /\ startsRune back (GoStrings.trimRunes back l) = false.
Proof.
  induction n as [|n IH]; intros l Hn.
  - destruct l; [|simpl in Hn; lia]. split; [now exists [] | reflexivity].
  - destruct l as [|x l1]; [split; [now exists [] | reflexivity]|].
    cbn [GoStrings.trimRunes]. simpl in Hn.
    destruct (GoStrings.asciiSpace x) eqn:Hx.
    { destruct (IH l1 ltac:(lia)) as [[pre Hpre] Hdone].
      split; [exists (x :: pre); cbn [app]; congruence | exact Hdone]. }
    destruct l1 as [|y l2].
    { split; [now exists [] | cbn [startsRune]; now rewrite Hx]. }
    simpl in Hn. destruct (GoStrings.rune2 back x y) eqn:Hxy.
    { destruct (IH l2 ltac:(lia)) as [[pre Hpre] Hdone].
      split; [exists (x :: y :: pre); cbn [app]; congruence | exact Hdone]. }
    destruct l2 as [|z l3].
    { split; [now exists [] | cbn [startsRune]; now rewrite Hx, Hxy]. }
    simpl in Hn. destruct (GoStrings.rune3 back x y z) eqn:Hxyz.
    { destruct (IH l3 ltac:(lia)) as [[pre Hpre] Hdone].
      split; [exists (x :: y :: z :: pre); cbn [app]; congruence
             | exact Hdone]. }
    split; [now exists [] | cbn [startsRune]; now rewrite Hx, Hxy, Hxyz].
Qed.

Lemma trimRunes_suffix (back : bool) (l : list ascii) :
  exists pre, l = pre ++ GoStrings.trimRunes back l.
Proof. now apply (trimRunes_spec back (length l)). Qed.

Lemma trimRunes_done (back : bool) (l : list ascii) :
  startsRune back (GoStrings.trimRunes back l) = false.
Proof. now apply (trimRunes_spec back (length l)). Qed.

Lemma trimRunes_fixed_iff (back : bool) (l : list ascii) :
  GoStrings.trimRunes back l = l <-> startsRune back l = false.
Proof.
  split; [intros <-; apply trimRunes_done|].
  destruct l as [|x [|y [|z l3]]]; cbn [startsRune GoStrings.trimRunes];
    try reflexivity.
  - now intros ->%orb_false_elim%proj1.
  - intros [-> [-> _]%orb_false_elim]%orb_false_elim. reflexivity.
  - intros [-> [-> ->]%orb_false_elim]%orb_false_elim. reflexivity.
Qed.

Lemma startsRune_app (back : bool) (p q : list ascii) :
  startsRune back p = true -> startsRune back (p ++ q) = true.
Proof.
  destruct p as [|x [|y [|z p]]]; cbn [startsRune app]; try discriminate.
  - rewrite orb_false_r. now intros ->.
  - rewrite orb_false_r. intros [-> | ->]%orb_true_iff;
      [reflexivity | now rewrite orb_true_l, orb_true_r].
  - trivial.
Qed.

Lemma TrimLeftSpace_bytes (s : string) :
  list_ascii_of_string (GoStrings.TrimLeftSpace s)
  = GoStrings.trimRunes false (list_ascii_of_string s).
Proof. apply list_ascii_of_string_of_list_ascii. Qed.

Lemma TrimRightSpace_bytes (s : string) :
  list_ascii_of_string (GoStrings.TrimRightSpace s)
  = rev (GoStrings.trimRunes true (rev (list_ascii_of_string s))).
Proof. apply list_ascii_of_string_of_list_ascii. Qed.

Lemma TrimLeftSpace_noLeadingSpace (s : string) :
  noLeadingSpace (GoStrings.TrimLeftSpace s).
Proof.
  unfold noLeadingSpace. rewrite TrimLeftSpace_bytes. apply trimRunes_done.
Qed.

Lemma TrimLeftSpace_fixed (s : string) :
  noLeadingSpace s -> GoStrings.TrimLeftSpace s = s.
Proof.
  intros H%trimRunes_fixed_iff. unfold GoStrings.TrimLeftSpace.
  rewrite H. apply string_of_list_ascii_of_string.
Qed.

Lemma TrimRightSpace_noLeadingSpace (s : string) :
  noLeadingSpace s -> noLeadingSpace (GoStrings.TrimRightSpace s).
Proof.
  unfold noLeadingSpace. rewrite TrimRightSpace_bytes. intros Hs.
  destruct (trimRunes_suffix true (rev (list_ascii_of_string s)))
    as [pre Hpre].
  apply (f_equal (@rev ascii)) in Hpre.
  rewrite rev_involutive, rev_app_distr in Hpre.
  destruct (startsRune false
              (rev (GoStrings.trimRunes true (rev (list_ascii_of_string s)))))
    eqn:Hr; [|reflexivity].
  apply (startsRune_app false _ (rev pre)) in Hr. congruence.
Qed.

Lemma TrimRightSpace_fixed_iff (s : string) :
  GoStrings.TrimRightSpace s = s <-> noTrailingSpace s.
Proof.
  unfold noTrailingSpace. rewrite <- trimRunes_fixed_iff. split.
  - intros H. apply (f_equal list_ascii_of_string) in H.
    rewrite TrimRightSpace_bytes in H.
    apply (f_equal (@rev ascii)) in H. now rewrite rev_involutive in H.
  - intros H. unfold GoStrings.TrimRightSpace.
    rewrite H, rev_involutive. apply string_of_list_ascii_of_string.
Qed.

Lemma TrimRightSpace_noTrailingSpace (s : string) :
  noTrailingSpace (GoStrings.TrimRightSpace s).
Proof.
  unfold noTrailingSpace.
  rewrite TrimRightSpace_bytes, rev_involutive. apply trimRunes_done.
Qed.

Lemma TrimRightSpace_idempotent (s : string) :
  GoStrings.TrimRightSpace (GoStrings.TrimRightSpace s)
  = GoStrings.TrimRightSpace s.
Proof. apply TrimRightSpace_fixed_iff, TrimRightSpace_noTrailingSpace. Qed.

Lemma TrimSpace_idempotent (s : string) :
  GoStrings.TrimSpace (GoStrings.TrimSpace s) = GoStrings.TrimSpace s.
Proof.
  unfold GoStrings.TrimSpace.
  rewrite (TrimLeftSpace_fixed (GoStrings.TrimRightSpace _)).
  - apply TrimRightSpace_idempotent.
  - apply TrimRightSpace_noLeadingSpace, TrimLeftSpace_noLeadingSpace.
Qed.


(** The separator is no byte of a white-space rune. *)
Lemma rune2_sep (back : bool) (x : ascii) :
  GoStrings.rune2 back x "/" = false /\ GoStrings.rune2 back "/" x = false.
Proof.
  unfold GoStrings.rune2, GoStrings.isSpace2.
  destruct back; split; try reflexivity; cbn; apply andb_false_r.
Qed.

Lemma rune3_sep (back : bool) (x y : ascii) :
  GoStrings.rune3 back x y "/" = false
  /\ GoStrings.rune3 back x "/" y = false
  /\ GoStrings.rune3 back "/" x y = false.
Proof.
  unfold GoStrings.rune3, GoStrings.isSpace3.
  destruct back; repeat split; try reflexivity; cbn;
    destruct (Ascii.eqb x "225"), (Ascii.eqb x "226"), (Ascii.eqb x "227"),
      (Ascii.eqb y "225"), (Ascii.eqb y "226"), (Ascii.eqb y "227"),
      (Ascii.eqb x "154"), (Ascii.eqb x "128"), (Ascii.eqb x "129"),
      (Ascii.eqb y "154"), (Ascii.eqb y "128"), (Ascii.eqb y "129");
    reflexivity.
Qed.

Lemma startsRune_sep (back : bool) (l : list ascii) :
  startsRune back ("/"%char :: l) = false.
Proof.
  destruct l as [|y [|z l]]; cbn [startsRune]; try reflexivity.
  - now rewrite (proj2 (rune2_sep back y)).
  - rewrite (proj2 (rune2_sep back y)).
    now rewrite (proj2 (proj2 (rune3_sep back y z))).
Qed.

Lemma startsRune_not_sep (back : bool) (x : ascii) (l : list ascii) :
  startsRune back (x :: l) = true -> x <> "/"%char.
Proof. intros H ->. now rewrite startsRune_sep in H. Qed.



(** ** The environment *)

Lemma Setenv_frame (key value : string) (st : State) :
  grootEnv (os.Setenv key value st) = grootEnv st
  /\ loads (os.Setenv key value st) = loads st
  /\ (forall other, other <> key ->
       environ (os.Setenv key value st) !! other = environ st !! other).
Proof.
  unfold os.Setenv. destruct (os.envAccepts key value); cbn; repeat split.
  intros other Hne. now rewrite lookup_insert_ne by congruence.
Qed.

Lemma Setenv_refused (key value : string) (st : State) :
  os.envAccepts key value = false -> os.Setenv key value st = st.
Proof. unfold os.Setenv. now intros ->. Qed.

Lemma Getenv_Setenv (key value : string) (st : State) :
  os.envAccepts key value = true ->
  os.Getenv key (os.Setenv key value st) = value.
Proof.
  intros H. unfold os.Getenv, os.Setenv. rewrite H.
  apply andb_prop in H as [-> _]. cbn. now rewrite lookup_insert_eq.
Qed.

Lemma GetRoot_Setenv (value : string) (st : State) :
  os.envAccepts (grootEnv st) value = true ->
  GetRoot (os.Setenv (grootEnv st) value st) = value.
Proof.
  intros H. unfold GetRoot.
  rewrite (proj1 (Setenv_frame _ _ _)). now apply Getenv_Setenv.
Qed.

(** Whether the system takes the root or not, afterwards the root is the
    new one or the state is the old one. *)
Lemma GetRoot_Setenv_cases (value : string) (st : State) :
  os.envAccepts (grootEnv st) value = true
  /\ GetRoot (os.Setenv (grootEnv st) value st) = value
  \/ os.envAccepts (grootEnv st) value = false
     /\ os.Setenv (grootEnv st) value st = st.
Proof.
  destruct (os.envAccepts (grootEnv st) value) eqn:H.
  - left. split; [reflexivity | now apply GetRoot_Setenv].
  - right. split; [reflexivity | now apply Setenv_refused].
Qed.

Lemma Rel_same (path : string) : Filepath.Rel path path = Some ".".
Proof. unfold Filepath.Rel. now rewrite String.eqb_refl. Qed.

(** ** Path elements *)

Lemma pathElems_nonempty (path : string) : Filepath.pathElems path <> [].
Proof.
  destruct path as [|c rest]; simpl; [discriminate |].
  destruct (Filepath.IsPathSeparator c); [discriminate |].
  destruct (Filepath.pathElems rest); discriminate.
Qed.

Lemma IsPathSeparator_true (c : ascii) :
  Filepath.IsPathSeparator c = true -> c = "/"%char.
Proof. apply Ascii.eqb_eq. Qed.

Lemma pathElems_noSep (e : string) : noSep e -> Filepath.pathElems e = [e].
Proof.
  unfold noSep. induction e as [|c e IH]; simpl; [reflexivity |].
  destruct (Filepath.IsPathSeparator c); [discriminate |].
  intros H. now rewrite (IH H).
Qed.

Lemma pathElems_app_sep (a b : string) :
  Filepath.pathElems (a +:+ "/" +:+ b)
  = Filepath.pathElems a ++ Filepath.pathElems b.
Proof.
  induction a as [|c a IH].
  - reflexivity.
  - rewrite append_cons. simpl.
    destruct (Filepath.IsPathSeparator c).
    + now rewrite IH.
    + rewrite IH.
      destruct (Filepath.pathElems a) as [|e es] eqn:Ha; [| reflexivity].
      now apply pathElems_nonempty in Ha.
Qed.

Lemma pathElems_trailing_sep (q : string) :
  Filepath.pathElems (q +:+ "/") = Filepath.pathElems q ++ [""].
Proof. apply (pathElems_app_sep q ""). Qed.

Lemma elemsSize_app (l l' : list string) :
  elemsSize (l ++ l') = elemsSize l + elemsSize l'.
Proof. induction l as [|e l IH]; simpl; [reflexivity | lia]. Qed.

Lemma elemsSize_rev (l : list string) : elemsSize (rev l) = elemsSize l.
Proof.
  induction l as [|e l IH]; simpl; [reflexivity |].
  rewrite elemsSize_app, IH. simpl. lia.
Qed.

Lemma elemsSize_filter (f : string -> bool) (l : list string) :
  elemsSize (List.filter f l) <= elemsSize l.
Proof.
  induction l as [|e l IH]; simpl; [lia |].
  destruct (f e); simpl; lia.
Qed.

Lemma elemsSize_pathElems (path : string) :
  elemsSize (Filepath.pathElems path) = S (String.length path).
Proof.
  induction path as [|c rest IH]; simpl; [reflexivity |].
  destruct (Filepath.IsPathSeparator c); simpl; [now rewrite IH |].
  destruct (Filepath.pathElems rest) as [|e es] eqn:Hrest.
  - now apply pathElems_nonempty in Hrest.
  - simpl in *. lia.
Qed.

Lemma concat_cons2 (sep e e' : string) (l : list string) :
  String.concat sep (e :: e' :: l) = e +:+ sep +:+ String.concat sep (e' :: l).
Proof. reflexivity. Qed.

Lemma length_concat (l : list string) :
  l <> [] -> S (String.length (String.concat "/" l)) = elemsSize l.
Proof.
  induction l as [|e l IH]; [congruence |]. intros _.
  destruct l as [|e' l].
  - simpl. lia.
  - rewrite concat_cons2, !length_append.
    change (elemsSize (e :: e' :: l))
      with (S (String.length e) + elemsSize (e' :: l)).
    rewrite <- IH by discriminate. simpl. lia.
Qed.

Lemma pathElems_concat (l : list string) :
  l <> [] -> Forall noSep l ->
  Filepath.pathElems (String.concat "/" l) = l.
Proof.
  induction l as [|e l IH]; [congruence |]. intros _ Hall.
  inversion Hall as [|? ? He Hl]; subst.
  destruct l as [|e' l].
  - now apply pathElems_noSep.
  - rewrite concat_cons2, pathElems_app_sep, pathElems_noSep by assumption.
    rewrite IH by (assumption || discriminate). reflexivity.
Qed.

Lemma pathElems_all_noSep (path : string) :
  Forall noSep (Filepath.pathElems path).
Proof.
  induction path as [|c rest IH]; simpl.
  - now repeat constructor.
  - destruct (Filepath.IsPathSeparator c) eqn:Hc.
    + constructor; [reflexivity | exact IH].
    + destruct (Filepath.pathElems rest) as [|e es]; inversion IH; subst.
      * repeat constructor. unfold noSep. simpl. now rewrite Hc.
      * constructor; [| assumption].
        unfold noSep in *. simpl. now rewrite Hc.
Qed.

(** ** [filepath.Clean] *)

Lemma cleanElem_empty (rooted : bool) (acc : list string * nat) :
  Filepath.cleanElem rooted acc "" = acc.
Proof. now destruct acc. Qed.

Lemma Forall_tl {A : Type} (P : A -> Prop) (l : list A) :
  Forall P l -> Forall P (tl l).
Proof. destruct l; simpl; [trivial |]. now inversion 1. Qed.

Lemma elemsSize_tl (l : list string) : elemsSize (tl l) <= elemsSize l.
Proof. destruct l; simpl; lia. Qed.

Lemma length_tl_le {A : Type} (l : list A) : length (tl l) <= length l.
Proof. destruct l; simpl; lia. Qed.

Lemma cleanElem_bounds (rooted : bool) (acc : list string * nat) (e : string) :
  let r := Filepath.cleanElem rooted acc e in
  elemsSize (fst r)
    <= elemsSize (fst acc) + (if properElem e then S (String.length e) else 0)
  /\ length (fst r) <= length (fst acc) + (if properElem e then 1 else 0)
  /\ (allProper (fst acc) -> allProper (fst r))
  /\ (noSep e -> Forall noSep (fst acc) -> Forall noSep (fst r)).
Proof.
  destruct acc as [out dotdot]. unfold Filepath.cleanElem, properElem.
  destruct (String.eqb e "") eqn:He0; simpl; [repeat split; auto; lia |].
  destruct (String.eqb e ".") eqn:He1; simpl; [repeat split; auto; lia |].
  destruct (String.eqb e "..") eqn:He2.
  - destruct (dotdot <? length out); simpl.
    + pose proof (elemsSize_tl out). pose proof (length_tl_le out).
      repeat split; try lia; intros; now apply Forall_tl.
    + destruct rooted; simpl.
      * repeat split; auto; lia.
      * repeat split; try lia.
        -- intros Hout. constructor; [| exact Hout].
           unfold properElem. now rewrite He0, He1.
        -- intros. now constructor.
  - simpl. repeat split; try lia.
    + intros Hout. constructor; [| exact Hout].
      unfold properElem. now rewrite He0, He1.
    + intros. now constructor.
Qed.

Lemma cleanFold_bounds (rooted : bool) (l : list string) :
  forall acc : list string * nat,
  let r := fold_left (Filepath.cleanElem rooted) l acc in
  elemsSize (fst r)
    <= elemsSize (fst acc) + elemsSize (List.filter properElem l)
  /\ length (fst r) <= length (fst acc) + length (List.filter properElem l)
  /\ (allProper (fst acc) -> allProper (fst r))
  /\ (Forall noSep l -> Forall noSep (fst acc) -> Forall noSep (fst r)).
Proof.
  induction l as [|e l IH]; intros acc; simpl.
  - repeat split; auto; lia.
  - destruct (cleanElem_bounds rooted acc e) as (Hs & Hl & Hp & Hn).
    destruct (IH (Filepath.cleanElem rooted acc e)) as (Hs' & Hl' & Hp' & Hn').
    repeat split.
    + destruct (properElem e); simpl in *; lia.
    + destruct (properElem e); simpl in *; lia.
    + auto.
    + intros Hall Hacc. inversion Hall; subst. auto.
Qed.

(** The elements kept by [Clean] are proper and free of separators, and
    there are no more of them, in number and in size, than the path has. *)
Lemma cleanOut_bounds (path : string) :
  let out := Filepath.cleanOut path in
  allProper out /\ Forall noSep out
  /\ length out <= pathDepth path
  /\ elemsSize out <= elemsSize (List.filter properElem (Filepath.pathElems path)).
Proof.
  unfold Filepath.cleanOut, pathDepth.
  destruct (cleanFold_bounds (Filepath.isRooted path) (Filepath.pathElems path)
              ([], 0)) as (Hs & Hl & Hp & Hn).
  simpl in *. repeat split; auto.
  - apply Hp. constructor.
  - apply Hn; [apply pathElems_all_noSep | constructor].
Qed.


(** ** [filepath.Clean]: the byte buffer and the list of elements *)

Lemma rev_nonempty {A : Type} (l : list A) : l <> [] -> rev l <> [].
Proof.
  destruct l as [|x l]; [congruence |]. simpl. intros _ H.
  now apply app_eq_nil in H as [_ H].
Qed.

Lemma revBytes_cons (c : ascii) (s : string) :
  revBytes (String c s) = revBytes s ++ [c].
Proof. reflexivity. Qed.

Lemma list_ascii_of_append (a b : string) :
  list_ascii_of_string (a +:+ b)
  = list_ascii_of_string a ++ list_ascii_of_string b.
Proof.
  induction a as [|c a IH]; [reflexivity |].
  rewrite append_cons. simpl. now rewrite IH.
Qed.

Lemma revBytes_nonempty (e : string) : e <> "" -> revBytes e <> [].
Proof.
  destruct e as [|c e]; [congruence |]. intros _.
  rewrite revBytes_cons. intros H. now apply app_eq_nil in H as [_ H].
Qed.

Lemma revBytes_noSep (e : string) :
  noSep e -> Forall (fun c => Filepath.IsPathSeparator c = false) (revBytes e).
Proof.
  unfold noSep. induction e as [|c e IH]; simpl; [constructor |].
  destruct (Filepath.IsPathSeparator c) eqn:Hc; [discriminate |].
  intros He. rewrite revBytes_cons. apply Forall_app. split; [now apply IH |].
  now repeat constructor.
Qed.

Lemma firstElem_cons (c : ascii) (rest : string) :
  Filepath.IsPathSeparator c = false ->
  firstElem (String c rest) = String c (firstElem rest).
Proof.
  intros Hc. unfold firstElem. simpl. rewrite Hc.
  destruct (Filepath.pathElems rest) eqn:Hrest; [| reflexivity].
  now apply pathElems_nonempty in Hrest.
Qed.

Lemma firstElem_elemEnds (path : string) :
  Filepath.elemEnds path = String.eqb (firstElem path) "".
Proof.
  destruct path as [|c rest]; [reflexivity |]. simpl.
  destruct (Filepath.IsPathSeparator c) eqn:Hc.
  - unfold firstElem. simpl. now rewrite Hc.
  - now rewrite firstElem_cons.
Qed.

Lemma afterElem_elemEnds (path : string) :
  Filepath.elemEnds path = true -> afterElem path = path.
Proof. destruct path as [|c rest]; simpl; [reflexivity |]. now intros ->. Qed.

Lemma pathElems_afterElem (path : string) :
  Filepath.pathElems (afterElem path) = "" :: tl (Filepath.pathElems path).
Proof.
  induction path as [|c rest IH]; [reflexivity |]. simpl.
  destruct (Filepath.IsPathSeparator c) eqn:Hc.
  - simpl. now rewrite Hc.
  - rewrite IH. destruct (Filepath.pathElems rest) eqn:Hrest; [| reflexivity].
    now apply pathElems_nonempty in Hrest.
Qed.

Lemma pathElems_firstElem (path : string) :
  Filepath.pathElems path = firstElem path :: tl (Filepath.pathElems path).
Proof.
  unfold firstElem. destruct (Filepath.pathElems path) eqn:Hp; [| reflexivity].
  now apply pathElems_nonempty in Hp.
Qed.

(** Folding over the elements of a path is handling its first element and
    then folding over what follows. *)
Lemma fold_pathElems (rooted : bool) (path : string) (acc : list string * nat) :
  fold_left (Filepath.cleanElem rooted) (Filepath.pathElems path) acc
  = fold_left (Filepath.cleanElem rooted) (Filepath.pathElems (afterElem path))
      (Filepath.cleanElem rooted acc (firstElem path)).
Proof.
  rewrite pathElems_afterElem, (pathElems_firstElem path) at 1.
  simpl. now rewrite cleanElem_empty.
Qed.

Lemma length_afterElem (path : string) :
  String.length (afterElem path) <= String.length path.
Proof.
  induction path as [|c rest IH]; simpl; [lia |].
  destruct (Filepath.IsPathSeparator c); simpl; lia.
Qed.

Lemma firstElem_noSep (path : string) : noSep (firstElem path).
Proof.
  pose proof (pathElems_all_noSep path) as Hall.
  rewrite (pathElems_firstElem path) in Hall. now inversion Hall.
Qed.

Lemma copyElem_spec (path : string) :
  forall out : list ascii,
  Filepath.copyElem path out = (afterElem path, revBytes (firstElem path) ++ out).
Proof.
  induction path as [|c rest IH]; intros out; [reflexivity |]. simpl.
  destruct (Filepath.IsPathSeparator c) eqn:Hc.
  - unfold firstElem. simpl. now rewrite Hc.
  - rewrite IH, firstElem_cons, revBytes_cons by assumption.
    now rewrite <- app_assoc.
Qed.

Lemma length_bufOf_app (rooted : bool) (upper dots : list string) :
  Forall goodElem upper ->
  length (bufOf rooted dots) <= length (bufOf rooted (upper ++ dots))
  /\ (upper <> [] ->
      length (bufOf rooted dots) < length (bufOf rooted (upper ++ dots))).
Proof.
  induction 1 as [|e upper [He _] _ [IHle _]]; simpl.
  - split; [lia | congruence].
  - rewrite !length_app.
    assert (1 <= length (revBytes e)).
    { pose proof (revBytes_nonempty _ He).
      destruct (revBytes e); [congruence | simpl; lia]. }
    split; [lia | intros _; lia].
Qed.

Lemma bufOf_backtrack_test (rooted : bool) (upper dots : list string) :
  Forall goodElem upper ->
  (length (bufOf rooted dots) <? length (bufOf rooted (upper ++ dots)))
  = (length dots <? length (upper ++ dots)).
Proof.
  intros Hgood. destruct (length_bufOf_app rooted upper dots Hgood) as [Hle Hlt].
  destruct upper as [|e upper].
  - simpl. now rewrite !Nat.ltb_irrefl.
  - specialize (Hlt ltac:(discriminate)).
    apply Nat.ltb_lt in Hlt. rewrite Hlt. symmetry. apply Nat.ltb_lt.
    rewrite length_app. simpl. lia.
Qed.

(** The buffer is longer than its base exactly when it holds an element. *)
Lemma bufOf_slash_test (rooted : bool) (stack : list string) :
  Forall goodElem stack ->
  (rooted && negb (length (bufOf rooted stack) =? 1)
   || negb rooted && negb (length (bufOf rooted stack) =? 0))
  = match stack with [] => false | _ => true end.
Proof.
  intros Hgood.
  destruct (length_bufOf_app rooted stack [] Hgood) as [_ Hlt].
  rewrite app_nil_r in Hlt.
  destruct stack as [|e stack]; [now destruct rooted |].
  specialize (Hlt ltac:(discriminate)).
  destruct rooted.
  - change (length (bufOf true [])) with 1 in Hlt.
    destruct (Nat.eqb_spec (length (bufOf true (e :: stack))) 1);
      [lia | reflexivity].
  - change (length (bufOf false [])) with 0 in Hlt.
    destruct (Nat.eqb_spec (length (bufOf false (e :: stack))) 0);
      [lia | reflexivity].
Qed.

Lemma backtrack_elem (dotdot : nat) (bytes below : list ascii) :
  Forall (fun c => Filepath.IsPathSeparator c = false) bytes ->
  bytes <> [] -> dotdot <= length below ->
  Filepath.backtrack dotdot (bytes ++ below)
  = if dotdot <? length below then Filepath.backtrack dotdot below else below.
Proof.
  induction 1 as [|c bytes Hc _ IH]; [congruence |]. intros _ Hdd.
  simpl. rewrite Hc, andb_true_r.
  destruct bytes as [|d bytes]; [reflexivity |].
  replace (dotdot <? length ((d :: bytes) ++ below)) with true.
  - apply IH; [discriminate | assumption].
  - symmetry. apply Nat.ltb_lt. rewrite length_app. simpl. lia.
Qed.

(** Backtracking removes the last element of the buffer, with the
    separator before it. *)
Lemma backtrack_bufOf (rooted : bool) (e : string) (upper dots : list string) :
  Forall goodElem (e :: upper) ->
  Filepath.backtrack (length (bufOf rooted dots))
    (bufOf rooted ((e :: upper) ++ dots))
  = bufOf rooted (upper ++ dots).
Proof.
  intros Hgood. inversion Hgood as [|? ? [He Hsep] Hupper]; subst.
  destruct (length_bufOf_app rooted upper dots Hupper) as [Hle _].
  change (bufOf rooted ((e :: upper) ++ dots))
    with (revBytes e
          ++ match upper ++ dots with [] => [] | _ => [Filepath.Separator] end
          ++ bufOf rooted (upper ++ dots)).
  rewrite backtrack_elem;
    [| now apply revBytes_noSep | now apply revBytes_nonempty |].
  - destruct (upper ++ dots) as [|x l] eqn:Hrest.
    + apply app_eq_nil in Hrest as [-> ->]. simpl. now rewrite Nat.ltb_irrefl.
    + rewrite <- Hrest in *.
      replace (length (bufOf rooted dots)
               <? length ([Filepath.Separator] ++ bufOf rooted (upper ++ dots)))
        with true by (symmetry; apply Nat.ltb_lt; simpl; lia).
      simpl. now rewrite andb_false_r.
  - rewrite length_app. lia.
Qed.

Lemma elem_is_dot (c : ascii) (rest : string) :
  Filepath.IsPathSeparator c = false ->
  Ascii.eqb c "." && Filepath.elemEnds rest
  = String.eqb (firstElem (String c rest)) ".".
Proof.
  intros Hc. rewrite firstElem_cons, firstElem_elemEnds by assumption.
  simpl. now destruct (Ascii.eqb c ".").
Qed.

Lemma elem_is_dotdot (c : ascii) (rest : string) :
  Filepath.IsPathSeparator c = false ->
  Ascii.eqb c "."
  && match rest with
     | String d rest2 => Ascii.eqb d "." && Filepath.elemEnds rest2
     | EmptyString => false
     end
  = String.eqb (firstElem (String c rest)) "..".
Proof.
  intros Hc. rewrite firstElem_cons by assumption. simpl.
  destruct (Ascii.eqb c "."); [| reflexivity]. simpl.
  destruct rest as [|d rest2]; [reflexivity |].
  destruct (Filepath.IsPathSeparator d) eqn:Hd.
  - apply IsPathSeparator_true in Hd. subst d.
    unfold firstElem. reflexivity.
  - rewrite firstElem_cons, firstElem_elemEnds by assumption.
    simpl. now destruct (Ascii.eqb d ".").
Qed.

Lemma firstElem_nonempty (c : ascii) (rest : string) :
  Filepath.IsPathSeparator c = false -> firstElem (String c rest) <> "".
Proof. intros Hc. now rewrite firstElem_cons. Qed.

(** The loop of [Clean] on the byte buffer computes the fold of
    [cleanElem] over the elements of the path. *)
Lemma cleanLoop_elems (rooted : bool) (fuel : nat) :
  forall (path : string) (upper dots : list string),
  String.length path <= fuel ->
  Forall goodElem (upper ++ dots) ->
  Filepath.cleanLoop fuel rooted path
    (bufOf rooted (upper ++ dots)) (length (bufOf rooted dots))
  = bufOf rooted
      (fst (fold_left (Filepath.cleanElem rooted) (Filepath.pathElems path)
              (upper ++ dots, length dots))).
Proof.
  induction fuel as [|fuel IH]; intros path upper dots Hlen Hgood.
  - destruct path; [| simpl in Hlen; lia]. reflexivity.
  - destruct path as [|c rest]; [reflexivity |].
    simpl in Hlen.
    assert (Hupper : Forall goodElem upper)
      by now apply Forall_app in Hgood as [? _].
    change (Filepath.cleanLoop (S fuel) rooted (String c rest) ?out ?dd)
      with (if Filepath.IsPathSeparator c then
              Filepath.cleanLoop fuel rooted rest out dd
            else if Ascii.eqb c "." && Filepath.elemEnds rest then
              Filepath.cleanLoop fuel rooted rest out dd
            else if Ascii.eqb c "."
                    && match rest with
                       | String d rest2 =>
                           Ascii.eqb d "." && Filepath.elemEnds rest2
                       | EmptyString => false
                       end
            then
              let rest2 := match rest with
                           | String _ rest2 => rest2
                           | EmptyString => rest
                           end in
              if dd <? length out then
                Filepath.cleanLoop fuel rooted rest2
                  (Filepath.backtrack dd out) dd
              else if negb rooted then
                let out' :=
                  if 0 <? length out then Filepath.Separator :: out else out in
                let out' := "."%char :: "."%char :: out' in
                Filepath.cleanLoop fuel rooted rest2 out' (length out')
              else Filepath.cleanLoop fuel rooted rest2 out dd
            else
              let out' :=
                if rooted && negb (length out =? 1)
                   || negb rooted && negb (length out =? 0)
                then Filepath.Separator :: out else out in
              let '(rest', out') := Filepath.copyElem (String c rest) out' in
              Filepath.cleanLoop fuel rooted rest' out' dd).
    destruct (Filepath.IsPathSeparator c) eqn:Hc.
    + (* empty element *)
      simpl Filepath.pathElems. rewrite Hc. simpl fold_left.
      apply IH; [lia | assumption].
    + rewrite fold_pathElems.
      pose proof (elem_is_dot c rest Hc) as Hd1.
      pose proof (elem_is_dotdot c rest Hc) as Hd2.
      rewrite Hd1, Hd2.
      pose proof (firstElem_nonempty c rest Hc) as Hne.
      pose proof (firstElem_noSep (String c rest)) as Hsep.
      pose proof (length_afterElem rest) as Hafter.
      assert (Hrest : afterElem (String c rest) = afterElem rest)
        by (simpl; now rewrite Hc).
      set (e := firstElem (String c rest)) in *.
      unfold Filepath.cleanElem at 2.
      apply String.eqb_neq in Hne. rewrite Hne.
      destruct (String.eqb e ".") eqn:Hdot.
      * (* . element *)
        apply andb_true_iff in Hd1 as [_ Hends].
        rewrite Hrest, (afterElem_elemEnds _ Hends).
        apply IH; [lia | assumption].
      * destruct (String.eqb e "..") eqn:Hdotdot.
        -- (* .. element *)
           clear Hd1.
           assert (He : e = "..") by now apply String.eqb_eq.
           apply andb_true_iff in Hd2 as [_ Hdd].
           destruct rest as [|d rest2]; [discriminate |].
           apply andb_true_iff in Hdd as [Hd Hends].
           apply Ascii.eqb_eq in Hd. subst d.
           assert (Hafter2 : afterElem (String c (String "." rest2)) = rest2).
           { rewrite Hrest. simpl. now apply afterElem_elemEnds. }
           rewrite Hafter2. cbv zeta.
           rewrite (bufOf_backtrack_test rooted upper dots Hupper).
           simpl in Hlen.
           destruct upper as [|u upper].
           ++ simpl app. rewrite Nat.ltb_irrefl.
              destruct rooted; simpl negb; cbv iota.
              ** apply (IH rest2 [] dots); [lia | assumption].
              ** assert (Hpush :
                   "."%char :: "."%char
                     :: (if 0 <? length (bufOf false dots)
                         then Filepath.Separator :: bufOf false dots
                         else bufOf false dots)
                   = bufOf false (".." :: dots)).
                 { pose proof (bufOf_slash_test false dots Hgood) as Htest.
                   simpl in Htest.
                   destruct dots as [|x dots]; [reflexivity |].
                   destruct (Nat.eqb_spec (length (bufOf false (x :: dots))) 0)
                     as [H0 | H0]; [discriminate |].
                   replace (0 <? length (bufOf false (x :: dots))) with true
                     by (symmetry; apply Nat.ltb_lt; lia).
                   reflexivity. }
                 rewrite Hpush, He.
                 apply (IH rest2 [] (".." :: dots)); [lia |].
                 constructor; [| assumption]. split; [discriminate | reflexivity].
           ++ replace (length dots <? length ((u :: upper) ++ dots)) with true
                by (symmetry; apply Nat.ltb_lt; rewrite length_app; simpl; lia).
              rewrite (backtrack_bufOf rooted u upper dots Hupper).
              simpl tl.
              apply (IH rest2 upper dots); [lia |].
              now inversion Hgood.
        -- (* real path element *)
           rewrite (bufOf_slash_test rooted (upper ++ dots) Hgood).
           cbv zeta. rewrite copyElem_spec. fold e.
           assert (Hpush :
             revBytes e
             ++ (if match upper ++ dots with [] => false | _ => true end
                 then Filepath.Separator :: bufOf rooted (upper ++ dots)
                 else bufOf rooted (upper ++ dots))
             = bufOf rooted ((e :: upper) ++ dots)).
           { simpl. now destruct (upper ++ dots). }
           rewrite Hpush, Hrest.
           apply (IH (afterElem rest) (e :: upper) dots); [lia |].
           constructor; [| assumption]. split; [| assumption].
           now apply String.eqb_neq.
Qed.

Lemma concat_snoc (l : list string) (e : string) :
  String.concat "/" (l ++ [e])
  = match l with
    | [] => e
    | _ => String.concat "/" l +:+ "/" +:+ e
    end.
Proof.
  induction l as [|x l IH]; [reflexivity |].
  destruct l as [|y l]; [reflexivity |].
  change ((x :: y :: l) ++ [e]) with (x :: y :: (l ++ [e])).
  rewrite !concat_cons2.
  change (y :: l ++ [e]) with ((y :: l) ++ [e]). rewrite IH.
  now rewrite !append_assoc.
Qed.

(** The bytes of the buffer, in the order written, are the elements joined
    by separators. *)
Lemma rev_bufOf (rooted : bool) (stack : list string) :
  rev (bufOf rooted stack)
  = list_ascii_of_string
      ((if rooted then "/" else "") +:+ String.concat "/" (rev stack)).
Proof.
  induction stack as [|e below IH]; [now destruct rooted |].
  simpl bufOf. rewrite !rev_app_distr, IH. unfold revBytes.
  rewrite rev_involutive. simpl rev. rewrite concat_snoc.
  destruct below as [|x below].
  - change (@rev string []) with (@nil string).
    change (@rev ascii []) with (@nil ascii).
    change (String.concat "/" []) with "".
    now rewrite !list_ascii_of_append, !app_nil_r.
  - destruct (rev (x :: below)) eqn:Hrev.
    + exfalso. revert Hrev. apply rev_nonempty. discriminate.
    + rewrite !list_ascii_of_append. simpl. now rewrite <- !app_assoc.
Qed.

(** [Clean] of a non-empty path, in terms of its elements: the elements
    kept by [cleanElem], joined by separators, after the leading separator
    of a rooted path; [.] when a relative path keeps none. *)
Lemma Clean_unfold (path : string) :
  path <> "" ->
  Filepath.Clean path =
  if Filepath.isRooted path
  then "/" +:+ String.concat "/" (rev (Filepath.cleanOut path))
  else match Filepath.cleanOut path with
       | [] => "."
       | _ => String.concat "/" (rev (Filepath.cleanOut path))
       end.
Proof.
  intros Hne. unfold Filepath.Clean, Filepath.cleanOut.
  apply String.eqb_neq in Hne as Hneb. rewrite Hneb.
  destruct path as [|c rest]; [congruence |].
  destruct (Filepath.isRooted (String c rest)) eqn:Hroot.
  - simpl in Hroot.
    pose proof (cleanLoop_elems true (String.length rest) rest [] []
                  (Nat.le_refl _) (List.Forall_nil _)) as Hloop.
    simpl app in Hloop. change (bufOf true []) with [Filepath.Separator] in Hloop.
    change (length [Filepath.Separator]) with 1 in Hloop.
    change (@length string []) with 0 in Hloop.
    rewrite Hloop. simpl Filepath.pathElems. rewrite Hroot. simpl fold_left.
    set (stack := fst (fold_left (Filepath.cleanElem true)
                         (Filepath.pathElems rest) ([], 0))).
    destruct (bufOf true stack) eqn:Hbuf.
    + assert (Hrev : rev (bufOf true stack) = []) by now rewrite Hbuf.
      rewrite rev_bufOf in Hrev. discriminate.
    + rewrite <- Hbuf, rev_bufOf.
      apply string_of_list_ascii_of_string.
  - pose proof (cleanLoop_elems false (String.length (String c rest))
                  (String c rest) [] [] (Nat.le_refl _) (List.Forall_nil _)) as Hloop.
    simpl app in Hloop. change (bufOf false []) with (@nil ascii) in Hloop.
    change (@length ascii []) with 0 in Hloop.
    change (@length string []) with 0 in Hloop.
    rewrite Hloop.
    destruct (cleanOut_bounds (String c rest)) as (Hp & _).
    unfold Filepath.cleanOut in Hp. rewrite Hroot in Hp.
    destruct (fst (fold_left (Filepath.cleanElem false)
                     (Filepath.pathElems (String c rest)) ([], 0)))
      as [|e stack]; [reflexivity |].
    destruct (bufOf false (e :: stack)) eqn:Hbuf.
    + exfalso. inversion Hp as [|? ? He _]; subst.
      simpl in Hbuf. apply app_eq_nil in Hbuf as [Hbuf _].
      apply revBytes_nonempty in Hbuf; [exact Hbuf |].
      intros ->. discriminate.
    + rewrite <- Hbuf, rev_bufOf.
      change ("" +:+ ?x) with x.
      apply string_of_list_ascii_of_string.
Qed.

(** The elements of a cleaned path. *)
Lemma pathElems_Clean (path : string) :
  path <> "" ->
  Filepath.pathElems (Filepath.Clean path) =
  match Filepath.cleanOut path, Filepath.isRooted path with
  | [], true => [""; ""]
  | [], false => ["."]
  | out, true => "" :: rev out
  | out, false => rev out
  end.
Proof.
  intros Hne. rewrite (Clean_unfold _ Hne).
  destruct (cleanOut_bounds path) as (_ & Hn & _).
  destruct (Filepath.cleanOut path) as [|e out] eqn:Hout.
  - now destruct (Filepath.isRooted path).
  - assert (Hrev : rev (e :: out) <> []) by (apply rev_nonempty; discriminate).
    assert (Hsep : Forall noSep (rev (e :: out))) by now apply Forall_rev.
    destruct (Filepath.isRooted path).
    + change ("/" +:+ ?x) with (String "/" x). simpl Filepath.pathElems.
      change (Filepath.IsPathSeparator "/") with true. cbv iota.
      f_equal. now apply pathElems_concat.
    + now apply pathElems_concat.
Qed.

Lemma filter_allProper (l : list string) :
  allProper l -> List.filter properElem l = l.
Proof.
  induction 1 as [|e l He _ IH]; simpl; [reflexivity |].
  now rewrite He, IH.
Qed.

Lemma allProper_rev (l : list string) : allProper l -> allProper (rev l).
Proof. apply Forall_rev. Qed.

Lemma isRooted_elems (path : string) :
  Filepath.isRooted path = true ->
  exists rest, path = String "/" rest /\
               Filepath.pathElems path = "" :: Filepath.pathElems rest.
Proof.
  destruct path as [|c rest]; simpl; [discriminate |].
  intros Hc. exists rest. rewrite Hc.
  apply IsPathSeparator_true in Hc. now subst c.
Qed.

(** Cleaning a non-empty path never makes it longer. *)
Lemma length_Clean (path : string) :
  path <> "" ->
  String.length (Filepath.Clean path) <= String.length path.
Proof.
  intros Hne. rewrite (Clean_unfold _ Hne).
  destruct (cleanOut_bounds path) as (_ & _ & _ & Hsize).
  assert (Hlen : 1 <= String.length path).
  { destruct path; [congruence | simpl; lia]. }
  destruct (Filepath.isRooted path) eqn:Hroot.
  - destruct (isRooted_elems _ Hroot) as (rest & -> & Helems).
    rewrite Helems in Hsize. simpl List.filter in Hsize.
    pose proof (elemsSize_filter properElem (Filepath.pathElems rest)) as Hf.
    rewrite elemsSize_pathElems in Hf.
    change ("/" +:+ ?x) with (String "/" x).
    destruct (Filepath.cleanOut (String "/" rest)) as [|e out] eqn:Hout.
    + simpl. lia.
    + assert (Hrev : rev (e :: out) <> []) by (apply rev_nonempty; discriminate).
      pose proof (length_concat _ Hrev) as Hc.
      rewrite elemsSize_rev in Hc.
      change (String.length (String "/" ?x)) with (S (String.length x)).
      change (String.length (String "/" rest)) with (S (String.length rest)).
      lia.
  - pose proof (elemsSize_filter properElem (Filepath.pathElems path)) as Hf.
    rewrite elemsSize_pathElems in Hf.
    destruct (Filepath.cleanOut path) as [|e out] eqn:Hout.
    + simpl. lia.
    + assert (Hrev : rev (e :: out) <> []) by (apply rev_nonempty; discriminate).
      pose proof (length_concat _ Hrev) as Hc.
      rewrite elemsSize_rev in Hc. lia.
Qed.

(** The depth of a cleaned path is the number of elements kept. *)
Lemma pathDepth_Clean_out (path : string) :
  path <> "" ->
  pathDepth (Filepath.Clean path) = length (Filepath.cleanOut path).
Proof.
  intros Hne. unfold pathDepth at 1. rewrite (pathElems_Clean _ Hne).
  destruct (cleanOut_bounds path) as (Hp & _).
  destruct (Filepath.cleanOut path) as [|e out] eqn:Hout.
  - now destruct (Filepath.isRooted path).
  - apply allProper_rev in Hp. cbv zeta.
    destruct (Filepath.isRooted path).
    + change (List.filter properElem ("" :: ?l)) with (List.filter properElem l).
      now rewrite (filter_allProper _ Hp), length_rev.
    + now rewrite (filter_allProper _ Hp), length_rev.
Qed.

(** Cleaning never adds depth. *)
Lemma pathDepth_Clean (path : string) :
  pathDepth (Filepath.Clean path) <= pathDepth path.
Proof.
  destruct (String.eqb_spec path "") as [-> | Hne]; [vm_compute; lia |].
  rewrite (pathDepth_Clean_out _ Hne).
  now destruct (cleanOut_bounds path) as (_ & _ & Hd & _).
Qed.

Lemma last_rev_cons {A : Type} (x : A) (l : list A) (d : A) :
  List.last (rev (x :: l)) d = x.
Proof. simpl. apply last_last. Qed.

(** A cleaned path is [/], or [.], or ends with a proper element. *)
Lemma Clean_lastElem (path : string) :
  Filepath.Clean path = "/" \/ Filepath.Clean path = "." \/
  properElem (lastElem (Filepath.Clean path)) = true.
Proof.
  destruct (String.eqb_spec path "") as [-> | Hne]; [now right; left |].
  unfold lastElem. rewrite (pathElems_Clean _ Hne).
  rewrite (Clean_unfold _ Hne).
  destruct (cleanOut_bounds path) as (Hp & _).
  destruct (Filepath.cleanOut path) as [|e out] eqn:Hout.
  - destruct (Filepath.isRooted path); [now left | now right; left].
  - right; right. inversion Hp; subst. cbv zeta.
    destruct (Filepath.isRooted path).
    + change (List.last ("" :: rev (e :: out)) "")
        with (match rev (e :: out) with
              | [] => ""
              | _ => List.last (rev (e :: out)) ""
              end).
      destruct (rev (e :: out)) eqn:Hrev.
      * exfalso. revert Hrev. apply rev_nonempty. discriminate.
      * rewrite <- Hrev. now rewrite last_rev_cons.
    + now rewrite last_rev_cons.
Qed.

Lemma isRooted_append (q s : string) :
  q <> "" -> Filepath.isRooted (q +:+ s) = Filepath.isRooted q.
Proof. destruct q; [congruence | reflexivity]. Qed.

Lemma append_nonempty (q s : string) : q <> "" -> q +:+ s <> "".
Proof. destruct q; [congruence | discriminate]. Qed.

(** A trailing separator does not change the cleaned path. *)
Lemma Clean_trailing_sep (q : string) :
  q <> "" -> Filepath.Clean (q +:+ "/") = Filepath.Clean q.
Proof.
  intros Hq.
  assert (Hout : Filepath.cleanOut (q +:+ "/") = Filepath.cleanOut q).
  { unfold Filepath.cleanOut.
    rewrite pathElems_trailing_sep, fold_left_app, isRooted_append by assumption.
    simpl. now rewrite cleanElem_empty. }
  rewrite (Clean_unfold (q +:+ "/")) by now apply append_nonempty.
  rewrite (Clean_unfold q Hq), Hout.
  now rewrite isRooted_append.
Qed.

(** ** [filepath.Dir] *)

Lemma dirPrefix_cases (path : string) :
  (Filepath.dirPrefix path = "" /\ noSep path) \/
  (exists q r, Filepath.dirPrefix path = q +:+ "/"
               /\ path = q +:+ "/" +:+ r /\ noSep r).
Proof.
  induction path as [|c rest IH]; [now left |].
  simpl Filepath.dirPrefix.
  destruct IH as [[Hpre Hrest] | (q & r & Hpre & Hrest & Hr)].
  - rewrite Hpre. destruct (Filepath.IsPathSeparator c) eqn:Hc.
    + right. exists "", rest. apply IsPathSeparator_true in Hc. now subst c.
    + left. split; [reflexivity |]. unfold noSep in *. simpl. now rewrite Hc.
  - right. exists (String c q), r. rewrite Hpre.
    destruct (q +:+ "/") as [|d kept] eqn:Hq.
    + destruct q; discriminate.
    + rewrite append_cons, Hq. split; [reflexivity |].
      split; [| exact Hr]. rewrite append_cons. now f_equal.
Qed.

Lemma pathMeasure_le (path : string) :
  pathMeasure path <= S (String.length path).
Proof. unfold pathMeasure. destruct (String.eqb path "."); lia. Qed.

Lemma pathMeasure_long (path : string) :
  2 <= String.length path -> pathMeasure path = S (String.length path).
Proof.
  intros Hlen. unfold pathMeasure.
  destruct (String.eqb_spec path ".") as [-> | _]; [simpl in Hlen; lia | reflexivity].
Qed.

(** Away from its fixed points, [Dir] strictly decreases the measure: this
    is why the loop of [IterateThroughPath] ends. *)
Lemma Dir_measure (path : string) :
  path <> Filepath.Dir path ->
  pathMeasure (Filepath.Dir path) < pathMeasure path.
Proof.
  intros Hne. unfold Filepath.Dir in *.
  destruct (dirPrefix_cases path) as [[Hpre _] | (q & r & Hpre & Hpath & _)];
    rewrite Hpre in *.
  - change (Filepath.Clean "") with "." in *.
    unfold pathMeasure. apply String.eqb_neq in Hne. rewrite Hne.
    simpl. lia.
  - destruct (String.eqb_spec q "") as [-> | Hq].
    + change (Filepath.Clean ("" +:+ "/")) with "/" in *.
      rewrite append_empty_l in Hpath.
      destruct r as [|d r]; [now subst path |].
      change (pathMeasure "/") with 2.
      rewrite (pathMeasure_long path);
        subst path; rewrite ?length_append; simpl; lia.
    + rewrite Clean_trailing_sep in * by assumption.
      pose proof (length_Clean q Hq) as Hlen.
      pose proof (pathMeasure_le (Filepath.Clean q)) as Hm.
      assert (Hq1 : 1 <= String.length q).
      { destruct q; [congruence | simpl; lia]. }
      assert (Hp : String.length path
                   = String.length q + 1 + String.length r).
      { rewrite Hpath, !length_append. simpl. lia. }
      rewrite (pathMeasure_long path) by lia. lia.
Qed.

Lemma lastElem_noSep (path : string) : noSep path -> lastElem path = path.
Proof. intros H. unfold lastElem. now rewrite pathElems_noSep. Qed.

Lemma filter_properElem_app (l l' : list string) :
  List.filter properElem (l ++ l')
  = List.filter properElem l ++ List.filter properElem l'.
Proof. apply List.filter_app. Qed.

(** The depth of a path counts the depth of its directory prefix and its
    last element, when that one is proper. *)
Lemma pathDepth_dirPrefix (path : string) :
  pathDepth path
  = pathDepth (Filepath.dirPrefix path)
    + (if properElem (lastElem path) then 1 else 0).
Proof.
  destruct (dirPrefix_cases path) as [[Hpre Hsep] | (q & r & Hpre & Hpath & Hr)].
  - rewrite Hpre, (lastElem_noSep _ Hsep). unfold pathDepth.
    rewrite (pathElems_noSep _ Hsep). simpl.
    now destruct (properElem path).
  - rewrite Hpre. unfold pathDepth, lastElem.
    rewrite pathElems_trailing_sep.
    rewrite Hpath, pathElems_app_sep, (pathElems_noSep _ Hr).
    rewrite last_last, !filter_properElem_app, !length_app. simpl.
    destruct (properElem r); simpl; lia.
Qed.

Lemma pathDepth_Dir_le (path : string) :
  pathDepth (Filepath.Dir path) <= pathDepth path.
Proof.
  unfold Filepath.Dir.
  pose proof (pathDepth_Clean (Filepath.dirPrefix path)).
  rewrite (pathDepth_dirPrefix path). lia.
Qed.

Lemma pathDepth_Dir_lt (path : string) :
  properElem (lastElem path) = true ->
  pathDepth (Filepath.Dir path) < pathDepth path.
Proof.
  intros Hlast. unfold Filepath.Dir.
  pose proof (pathDepth_Clean (Filepath.dirPrefix path)).
  rewrite (pathDepth_dirPrefix path), Hlast. lia.
Qed.

(** A directory returned by [Dir] is its own parent or ends with a proper
    element. *)
Lemma Dir_fixed_or_proper (path : string) :
  Filepath.Dir path = Filepath.Dir (Filepath.Dir path) \/
  properElem (lastElem (Filepath.Dir path)) = true.
Proof.
  unfold Filepath.Dir at 1 3 4.
  destruct (Clean_lastElem (Filepath.dirPrefix path)) as [-> | [-> | H]];
    [now left | now left | now right].
Qed.

(** ** [IterateThroughPath] *)

Lemma iteratePaths_walk (fuel : nat) :
  forall path, pathMeasure path <= fuel ->
  ancestorWalk path (iteratePaths fuel path).
Proof.
  induction fuel as [|fuel IH]; intros path Hfuel.
  - assert (path = ".") as ->.
    { unfold pathMeasure in Hfuel.
      destruct (String.eqb_spec path "."); [assumption | lia]. }
    now apply walk_stop.
  - simpl. destruct (String.eqb_spec path (Filepath.Dir path)) as [Heq | Hne].
    + now apply walk_stop.
    + apply walk_up; [assumption |].
      apply IH. pose proof (Dir_measure _ Hne). lia.
Qed.

Lemma IterateThroughPath_walk (path : string) :
  ancestorWalk (ensureCleanPath path) (IterateThroughPath path).
Proof. apply iteratePaths_walk, pathMeasure_le. Qed.

Lemma ancestorWalk_head (path : string) (paths : list string) :
  ancestorWalk path paths -> exists rest, paths = path :: rest.
Proof. destruct 1; eauto. Qed.

Lemma ancestorWalk_parents (path : string) (paths : list string) :
  ancestorWalk path paths ->
  chain (fun a b => b = Filepath.Dir a /\ a <> b) paths.
Proof.
  induction 1 as [path Hfix | path paths Hne Hwalk IH]; [exact I |].
  destruct (ancestorWalk_head _ _ Hwalk) as [rest ->].
  simpl. split; [| exact IH]. now split.
Qed.

Lemma ancestorWalk_last (path : string) (paths : list string) :
  ancestorWalk path paths ->
  Filepath.Dir (List.last paths "") = List.last paths "".
Proof.
  induction 1 as [path Hfix | path paths Hne Hwalk IH]; [now simpl |].
  destruct (ancestorWalk_head _ _ Hwalk) as [rest ->]. exact IH.
Qed.

Lemma ancestorWalk_depth_le (path : string) (paths : list string) :
  ancestorWalk path paths ->
  chain (fun a b => pathDepth b <= pathDepth a) paths.
Proof.
  induction 1 as [path Hfix | path paths Hne Hwalk IH]; [exact I |].
  destruct (ancestorWalk_head _ _ Hwalk) as [rest ->].
  simpl. split; [apply pathDepth_Dir_le | exact IH].
Qed.

Lemma ancestorWalk_depth_lt (path : string) (paths : list string) :
  ancestorWalk path paths ->
  path = Filepath.Dir path \/ properElem (lastElem path) = true ->
  chain (fun a b => pathDepth b < pathDepth a) paths.
Proof.
  induction 1 as [path Hfix | path paths Hne Hwalk IH]; intros Hshape;
    [exact I |].
  destruct (ancestorWalk_head _ _ Hwalk) as [rest ->].
  destruct Hshape as [Hfix | Hlast]; [contradiction |].
  simpl. split; [now apply pathDepth_Dir_lt |].
  apply IH, Dir_fixed_or_proper.
Qed.

Lemma ancestorWalk_tail_depth_lt (path : string) (paths : list string) :
  ancestorWalk path paths ->
  chain (fun a b => pathDepth b < pathDepth a) (tl paths).
Proof.
  destruct 1 as [path Hfix | path paths Hne Hwalk]; [exact I |].
  simpl. apply (ancestorWalk_depth_lt _ _ Hwalk), Dir_fixed_or_proper.
Qed.

(** ** [cleanFilenames] *)

Lemma addFilename_bareName (uniqueFilenames : gset string) (filename : string) :
  addFilename uniqueFilenames filename =
  match bareName filename with
  | Some name => {[ name ]} ∪ uniqueFilenames
  | None => uniqueFilenames
  end.
Proof.
  unfold addFilename, bareName.
  now destruct (String.eqb _ "" || GoStrings.Contains _ "/").
Qed.

Lemma elem_of_fold_addFilename (filenames : list string) :
  forall (acc : gset string) (x : string),
  x ∈ fold_left addFilename filenames acc <->
  x ∈ acc \/ exists filename, In filename filenames /\ bareName filename = Some x.
Proof.
  induction filenames as [|f l IH]; intros acc x; simpl.
  - split; [now left | intros [H | (? & [] & _)]; exact H].
  - rewrite IH, addFilename_bareName. split.
    + intros [Hacc | (g & Hg & Hx)].
      * destruct (bareName f) as [name|] eqn:Hf; [| now left].
        apply elem_of_union in Hacc as [Hname | Hacc]; [| now left].
        apply elem_of_singleton in Hname. subst name.
        right. exists f. split; [now left | assumption].
      * right. exists g. split; [now right | assumption].
    + intros [Hacc | (g & [-> | Hg] & Hx)].
      * left. destruct (bareName f); [| assumption].
        apply elem_of_union. now right.
      * left. rewrite Hx. apply elem_of_union. left. now apply elem_of_singleton.
      * right. now exists g.
Qed.

Lemma In_mapRange (h : Host) (keys : gset string) (x : string) :
  In x (mapRange h keys) <-> x ∈ keys.
Proof.
  rewrite <- elem_of_elements, list_elem_of_In.
  split; apply Permutation_in;
    [apply mapRange_perm | apply Permutation_sym, mapRange_perm].
Qed.

(** The filenames that survive the filter are the bare names of the
    inputs. *)
Lemma In_cleanFilenames (h : Host) (filenames : list string) (x : string) :
  In x (cleanFilenames h filenames) <->
  exists filename, In filename filenames /\ bareName filename = Some x.
Proof.
  unfold cleanFilenames. rewrite In_mapRange, elem_of_fold_addFilename.
  split; [intros [Hempty | H]; [| exact H] | now right].
  now apply not_elem_of_empty in Hempty.
Qed.

(** No filename survives twice. *)
Lemma NoDup_cleanFilenames (h : Host) (filenames : list string) :
  List.NoDup (cleanFilenames h filenames).
Proof.
  unfold cleanFilenames.
  eapply Permutation_NoDup; [apply Permutation_sym, mapRange_perm |].
  apply NoDup_ListNoDup, NoDup_elements.
Qed.

(** No filename survives exactly when every input is rejected. *)
Lemma cleanFilenames_nil (h : Host) (filenames : list string) :
  cleanFilenames h filenames = [] <->
  Forall (fun filename => bareName filename = None) filenames.
Proof.
  split.
  - intros Hnil. apply List.Forall_forall. intros f Hf.
    destruct (bareName f) as [name|] eqn:Hname; [| reflexivity].
    assert (Hin : In name (cleanFilenames h filenames)).
    { apply In_cleanFilenames. now exists f. }
    rewrite Hnil in Hin. destruct Hin.
  - intros Hall.
    destruct (cleanFilenames h filenames) as [|x l] eqn:Hclean; [reflexivity |].
    assert (Hin : In x (cleanFilenames h filenames)) by (rewrite Hclean; now left).
    apply In_cleanFilenames in Hin as (f & Hf & Hname).
    rewrite List.Forall_forall in Hall. rewrite (Hall f Hf) in Hname. discriminate.
Qed.

(** ** [SetRoot] *)

Lemma elem_of_baseNames_from (foundEnvPaths : list string) :
  forall (acc : gset string) (x : string),
  x ∈ fold_left
        (fun foundFilenames path => {[ Filepath.Base path ]} ∪ foundFilenames)
        foundEnvPaths acc
  <-> x ∈ acc \/ In x (map Filepath.Base foundEnvPaths).
Proof.
  induction foundEnvPaths as [|p l IH]; intros acc x; simpl.
  - split; [now left | now intros [H | []]].
  - rewrite IH, elem_of_union, elem_of_singleton. intuition auto.
Qed.

Lemma elem_of_baseNames (foundEnvPaths : list string) (x : string) :
  x ∈ baseNames foundEnvPaths <-> In x (map Filepath.Base foundEnvPaths).
Proof.
  unfold baseNames. rewrite elem_of_baseNames_from.
  split; [intros [Hempty | H]; [| exact H] | now right].
  now apply not_elem_of_empty in Hempty.
Qed.

Lemma anyMissing_true (foundFilenames : gset string) (required : list string) :
  anyMissing foundFilenames required = true <->
  exists requiredFile, In requiredFile required /\ requiredFile ∉ foundFilenames.
Proof.
  induction required as [|r l IH]; simpl.
  - split; [discriminate | now intros (? & [] & _)].
  - destruct (bool_decide_reflect (r ∈ foundFilenames)) as [Hin | Hout].
    + rewrite IH. split.
      * intros (x & Hx & Hmiss). exists x. split; [now right | assumption].
      * intros (x & [-> | Hx] & Hmiss); [contradiction | now exists x].
    + split; [| reflexivity]. intros _. exists r. split; [now left | assumption].
Qed.

Lemma definedEnvs_nonempty (envFiles : list string) :
  definedEnvs envFiles = true -> (length envFiles =? 0) = false.
Proof. now destruct envFiles. Qed.

(** The search for the root only ever stores the root: the key and the
    trace of loader calls stay as they were. *)
Lemma searchAncestors_frame (h : Host) (entryFile : string)
  (cleanEnvFilenames paths : list string) :
  forall (foundEnvPaths : list string) (st : State),
  let r := searchAncestors h entryFile cleanEnvFilenames paths foundEnvPaths st in
  grootEnv (snd r) = grootEnv st /\ loads (snd r) = loads st.
Proof.
  induction paths as [|path rest IH]; intros found st; simpl; [now split |].
  destruct (findFiles h path cleanEnvFilenames); [| now split].
  destruct (hasEntryFile h path entryFile); [| apply IH].
  cbn [snd]. split; apply Setenv_frame.
Qed.

Lemma SetRoot_search_frame (h : Host) (entryFile : string)
  (envFiles : list string) (st : State) :
  let r := SetRoot_search h entryFile envFiles st in
  grootEnv (snd r) = grootEnv st /\ loads (snd r) = loads st.
Proof.
  unfold SetRoot_search.
  destruct (String.eqb (GoStrings.TrimSpace entryFile) ""); [now split |].
  destruct (definedEnvs envFiles && _); [now split |].
  destruct (GetProjectDir h) as [projectDir|]; [| now split].
  pose proof (searchAncestors_frame h (GoStrings.TrimSpace entryFile)
                (cleanFilenames h envFiles) (IterateThroughPath projectDir)
                [] st) as Hframe.
  destruct (searchAncestors _ _ _ _ _ _) as [[found|err] st1]; simpl in *;
    [| exact Hframe].
  destruct (String.eqb (os.Getenv (grootEnv st1) st1) ""); [exact Hframe |].
  now destruct (GoStrings.HasSuffix _ _).
Qed.

(** ** The env-file loader *)

Lemma loadFiles_frame (h : Host) (filenames : list string) :
  forall st : State,
  let r := godotenv.loadFiles h filenames st in
  grootEnv (snd r) = grootEnv st /\ loads (snd r) = loads st
  /\ (forall key value, environ st !! key = Some value ->
                        environ (snd r) !! key = Some value)
  /\ (forall e, fst r = Some e -> isExternal e).
Proof.
  induction filenames as [|f l IH]; intros st; simpl.
  - repeat split; auto. discriminate.
  - destruct (ReadEnvFile h f) as [envMap|]; simpl.
    + destruct (IH {| grootEnv := grootEnv st;
                      environ :=
                 environ st
                 ∪ filter (fun kv => os.envAccepts kv.1 kv.2 = true) envMap;
                      loads := loads st |}) as (Hk & Hl & He & Herr).
      simpl in *. repeat split; auto.
      intros key value Hkey. apply He. now apply lookup_union_Some_l.
    + repeat split; auto. now intros e [= <-].
Qed.

(** The loader appends one entry to the trace, keeps the key, never
    changes a variable that is already set, and fails only with its own
    errors. *)
Lemma Load_frame (h : Host) (filenames : list string) (st : State) :
  filenames <> [] ->
  let r := godotenv.Load h filenames st in
  grootEnv (snd r) = grootEnv st
  /\ loads (snd r) = loads st ++ [filenames]
  /\ (forall key value, environ st !! key = Some value ->
                        environ (snd r) !! key = Some value)
  /\ (forall e, fst r = Some e -> isExternal e).
Proof.
  intros Hne. unfold godotenv.Load.
  destruct filenames as [|f l]; [congruence |].
  apply (loadFiles_frame h (f :: l)
           {| grootEnv := grootEnv st; environ := environ st;
              loads := loads st ++ [f :: l] |}).
Qed.

Lemma Getenv_set (key : string) (st : State) :
  os.Getenv key st <> "" ->
  environ st !! key = Some (os.Getenv key st).
Proof.
  unfold os.Getenv. destruct (os.keyAccepted key); [|congruence].
  now destruct (environ st !! key).
Qed.

Lemma Getenv_kept (key : string) (st st' : State) :
  (forall value, environ st !! key = Some value ->
                 environ st' !! key = Some value) ->
  os.Getenv key st <> "" -> os.Getenv key st' = os.Getenv key st.
Proof.
  intros Hkeep Hset. pose proof (Getenv_set key st Hset) as Hval.
  apply Hkeep in Hval. unfold os.Getenv in *.
  destruct (os.keyAccepted key); [|reflexivity]. now rewrite Hval.
Qed.


(** ** Where the errors of [SetRoot] come from *)

Lemma findFilesFrom_error (h : Host) (dirPath : string)
  (fileNames : list string) :
  forall foundFiles e,
  findFilesFrom h dirPath fileNames foundFiles = Err e -> isExternal e.
Proof.
  induction fileNames as [|f l IH]; intros found e; simpl; [discriminate |].
  destruct (Glob h _); [apply IH | now intros [= <-]].
Qed.

Lemma searchAncestors_error (h : Host) (entryFile : string)
  (cleanEnvFilenames paths : list string) :
  forall foundEnvPaths st e,
  fst (searchAncestors h entryFile cleanEnvFilenames paths foundEnvPaths st)
  = Err e -> isExternal e.
Proof.
  induction paths as [|path rest IH]; intros found st e; simpl;
    [discriminate |].
  destruct (findFiles h path cleanEnvFilenames) as [files|err] eqn:Hfind.
  - destruct (hasEntryFile h path entryFile); [discriminate | apply IH].
  - simpl. intros [= <-]. now apply findFilesFrom_error in Hfind.
Qed.

Lemma GetProjectDir_error (h : Host) (e : error) :
  GetProjectDir h = Err e -> e <> ErrBadEnvsDefined.
Proof.
  unfold GetProjectDir, GetMainFile.
  destruct (Executable h); [| now intros [= <-]].
  destruct (negb (GoStrings.HasSuffix (CallerFile h) ".go"));
    [now intros [= <-] |].
  destruct (GoStrings.Contains _ _); [discriminate |].
  destruct (Stat h _) as [fi|]; [| now intros [= <-]].
  destruct (IsDir fi); [discriminate | now intros [= <-]].
Qed.

Lemma SetRoot_load_error (h : Host) (envFiles foundEnvPaths : list string)
  (st : State) :
  fst (SetRoot_load h envFiles foundEnvPaths st) <> Some ErrBadEnvsDefined.
Proof.
  assert (Hload : forall l, l <> [] ->
            fst (let '(err, st') := godotenv.Load h l st in
                 (option_map ers.Wrap err, st'))
            <> Some ErrBadEnvsDefined).
  { intros l Hl. destruct (Load_frame h l st Hl) as (_ & _ & _ & Herr).
    destruct (godotenv.Load h l st) as [[e|] st']; simpl in *; [| discriminate].
    specialize (Herr e eq_refl). intros [= He].
    unfold ers.Wrap in He. subst e. exact Herr. }
  unfold SetRoot_load.
  destruct (_ || _).
  - destruct foundEnvPaths as [|p l]; simpl; [discriminate |].
    now apply Hload.
  - destruct (_ && _); [discriminate |].
    destruct foundEnvPaths as [|p l]; simpl; [discriminate |].
    now apply Hload.
Qed.

(** * The claims *)

(** ** Claims about [SetRoot] *)

(** Once the argument checks are passed, [SetRoot] never reports bad env
    files. *)
Lemma SetRoot_past_checks (h : Host) (entryFile : string)
  (envFiles : list string) (st : State) :
  String.eqb (GoStrings.TrimSpace entryFile) "" = false ->
  definedEnvs envFiles && (length (cleanFilenames h envFiles) =? 0) = false ->
  fst (SetRoot h entryFile envFiles st) <> Some ErrBadEnvsDefined.
Proof.
  intros Hentry Hguard. unfold SetRoot, SetRoot_search.
  rewrite Hentry, Hguard.
  destruct (GetProjectDir h) as [projectDir | e] eqn:Hdir.
  - destruct (searchAncestors _ _ _ _ _ _) as [[found | e] st1] eqn:Hsearch.
    + destruct (String.eqb (os.Getenv (grootEnv st1) st1) "");
        [discriminate |].
      destruct (GoStrings.HasSuffix _ _); apply SetRoot_load_error.
    + simpl. intros [= He]. subst e.
      apply (f_equal fst) in Hsearch. simpl in Hsearch.
      now apply searchAncestors_error in Hsearch.
  - simpl. intros [= He]. unfold ers.Wrap in He. subst e.
    now apply GetProjectDir_error in Hdir.
Qed.

(** C6, as stated, fails: with a blank entry file the supplied names can
    all be rejected and yet the error is the one about the entry file. *)
Lemma SetRoot_bad_envs_blank_entry :
  ~ (fst (SetRoot projHost "" ["a/b"] freshState) = Some ErrBadEnvsDefined
     <-> definedEnvs ["a/b"] = true
         /\ Forall (fun filename => bareName filename = None) ["a/b"]).
Proof.
  intros [_ Hback].
  assert (H : fst (SetRoot projHost "" ["a/b"] freshState)
              = Some ErrBadEnvsDefined).
  { apply Hback. split; [reflexivity |]. now repeat constructor. }
  vm_compute in H. discriminate.
Qed.

(** C6, amended.  When the entry file is not blank, [SetRoot] fails with
    [ErrBadEnvsDefined] exactly when the supplied filenames, joined, are not
    blank and every one of them is rejected by the filter (empty after
    trimming, or with a separator).  The filter keeps the bare names of the
    inputs, each one once. *)
Theorem SetRoot_bad_envs (h : Host) (entryFile : string)
  (envFiles : list string) (st : State) :
  String.eqb (GoStrings.TrimSpace entryFile) "" = false ->
  (fst (SetRoot h entryFile envFiles st) = Some ErrBadEnvsDefined
   <-> definedEnvs envFiles = true
       /\ Forall (fun filename => bareName filename = None) envFiles)
  /\ List.NoDup (cleanFilenames h envFiles)
  /\ (forall name, In name (cleanFilenames h envFiles)
                   <-> exists filename,
                         In filename envFiles /\ bareName filename = Some name).
Proof.
  intros Hentry.
  split; [| split; [apply NoDup_cleanFilenames | apply In_cleanFilenames]].
  rewrite <- (cleanFilenames_nil h).
  destruct (definedEnvs envFiles && (length (cleanFilenames h envFiles) =? 0))
    eqn:Hguard.
  - apply andb_true_iff in Hguard as [Hdef Hlen].
    apply Nat.eqb_eq, length_zero_iff_nil in Hlen.
    split; [now intros _ |]. intros _.
    unfold SetRoot, SetRoot_search.
    now rewrite Hentry, Hdef, Hlen.
  - split.
    + intros Herr. now apply SetRoot_past_checks in Herr.
    + intros [Hdef Hnil]. rewrite Hdef, Hnil in Hguard. discriminate.
Qed.

Lemma SetRoot_bad_envs_witness :
  (fst (SetRoot projHost "app.id" ["a/b"; " "] freshState)
   = Some ErrBadEnvsDefined
   <-> definedEnvs ["a/b"; " "] = true
       /\ Forall (fun filename => bareName filename = None) ["a/b"; " "])
  /\ List.NoDup (cleanFilenames projHost ["a/b"; " "])
  /\ (forall name, In name (cleanFilenames projHost ["a/b"; " "])
                   <-> exists filename,
                         In filename ["a/b"; " "]
                         /\ bareName filename = Some name).
Proof.
  apply (SetRoot_bad_envs projHost "app.id" ["a/b"; " "] freshState).
  reflexivity.
Defined.

(** C5, as stated, fails when the search ends without a root.  No
    directory of the chain holds [app.id] and no root is set: the requested
    [prod.env] is among the cleaned names and the walk collects no file, so
    the name is the base name of no collected file, and [SetRoot] fails
    with "no root found" before it compares the names. *)
Lemma SetRoot_missing_envs_no_root :
  definedEnvs ["prod.env"] = true
  /\ In "prod.env" (cleanFilenames bareHost ["prod.env"])
  /\ GetProjectDir bareHost = Ok "/home/u/proj/src"
  /\ searchAncestors bareHost "app.id" (cleanFilenames bareHost ["prod.env"])
       (IterateThroughPath "/home/u/proj/src") [] freshState
     = (Ok [], freshState)
  /\ SetRoot bareHost "app.id" ["prod.env"] freshState
     = (Some (ErrNew "no root found"), freshState)
  /\ fst (SetRoot bareHost "app.id" ["prod.env"] freshState)
     <> Some ErrMissingEnvs.
Proof. vm_compute. repeat split; try tauto. discriminate. Qed.





(** C4, as stated, fails for a key of the root variable that the
    environment refuses.  [SetGrootKey] takes [A=B]; in the scenario of the
    claim [SetRoot] then finds the marker, the system refuses to store the
    root, and the call ends with "no root found" and without a root. *)
Lemma SetRoot_stops_at_marker_refused_key :
  let st := snd (SetGrootKey "A=B" freshState) in
  fst (SetGrootKey "A=B" freshState) = None
  /\ hasEntryFile projHost "/home/u/proj" "app.id" = true
  /\ SetRoot projHost "app.id" ["dev.env"] st
     = (Some (ErrNew "no root found"), st)
  /\ GetRoot (snd (SetRoot projHost "app.id" ["dev.env"] st))
     <> "/home/u/proj".
Proof. vm_compute. repeat split. discriminate. Qed.



(** Without a marker the search leaves the state as it was. *)
Lemma searchAncestors_no_marker (h : Host) (entryFile : string)
  (cleanEnvFilenames paths : list string) :
  Forall (fun dir => hasEntryFile h dir entryFile = false) paths ->
  forall foundEnvPaths st,
  snd (searchAncestors h entryFile cleanEnvFilenames paths foundEnvPaths st)
  = st.
Proof.
  induction 1 as [|dir rest Hdir _ IH]; intros found st; simpl;
    [reflexivity |].
  destruct (findFiles h dir cleanEnvFilenames); [| reflexivity].
  rewrite Hdir. apply IH.
Qed.

(** Without a marker and without a root set before, [SetRoot] fails and
    changes nothing; once its checks and the globbing have passed, the
    failure is "no root found". *)
Lemma SetRoot_no_marker_unset (h : Host) (entryFile : string)
  (envFiles : list string) (st : State) :
  GetRoot st = "" ->
  (forall dir, hasEntryFile h dir (GoStrings.TrimSpace entryFile) = false) ->
  exists e, SetRoot h entryFile envFiles st = (Some e, st)
            /\ (isExternal e \/ e = ErrBadEnvsDefined
                \/ exists msg, e = ErrNew msg).
Proof.
  intros Hunset Hnone. unfold SetRoot, SetRoot_search.
  destruct (String.eqb (GoStrings.TrimSpace entryFile) "");
    [eexists; split; [reflexivity | right; right; eauto] |].
  destruct (definedEnvs envFiles && _);
    [eexists; split; [reflexivity | right; left; reflexivity] |].
  destruct (GetProjectDir h) as [projectDir | e] eqn:Hdir.
  - pose proof (searchAncestors_no_marker h (GoStrings.TrimSpace entryFile)
                  (cleanFilenames h envFiles) (IterateThroughPath projectDir)
                  ltac:(apply List.Forall_forall; intros; apply Hnone) [] st)
      as Hsame.
    destruct (searchAncestors _ _ _ _ _ _) as [[found | e] st1] eqn:Hsearch;
      simpl in Hsame; subst st1.
    + unfold GetRoot in Hunset. rewrite Hunset. simpl.
      eexists; split; [reflexivity | right; right; eauto].
    + eexists; split; [reflexivity | left].
      apply (f_equal fst) in Hsearch. simpl in Hsearch.
      now apply searchAncestors_error in Hsearch.
  - exists e. split; [reflexivity |].
    unfold GetProjectDir, GetMainFile in Hdir.
    destruct (Executable h); [| injection Hdir as <-; now left].
    destruct (negb _); [injection Hdir as <-; right; right; eauto |].
    destruct (GoStrings.Contains _ _); [discriminate |].
    destruct (Stat h _) as [fi|]; [| injection Hdir as <-; now left].
    destruct (IsDir fi); [discriminate |].
    injection Hdir as <-; right; right; eauto.
Qed.

(** C1, at the failing input.  The tree has no [app.id] in any directory of
    the chain, and a root was set by an earlier call.  [SetRoot] does not
    report that no root was found: it goes on with the old root and ends
    with the error about env files. *)
Theorem SetRoot_no_marker_stale_root :
  GetProjectDir bareHost = Ok "/home/u/proj/src" /\
  forallb (fun dir => negb (hasEntryFile bareHost dir "app.id"))
    (IterateThroughPath "/home/u/proj/src") = true /\
  SetRoot bareHost "app.id" [] (rootedState "/srv/old")
  = (Some ErrNoEnvDefined, rootedState "/srv/old") /\
  SetRoot bareHost "app.id" [] freshState
  = (Some (ErrNew "no root found"), freshState).
Proof. vm_compute. repeat split. Qed.

(** The sibling [SetRootFromGit] reports the failed search whatever the
    root was before. *)
Lemma SetRootFromGit_no_git (h : Host) (projectDir : string) (st : State) :
  GetProjectDir h = Ok projectDir ->
  FindGitRootFrom h projectDir = "" ->
  SetRootFromGit h st = (Some (ErrNew "no git root found"), st).
Proof.
  intros Hdir Hgit. unfold SetRootFromGit. now rewrite Hdir, Hgit.
Qed.

(** ** Claims about [IterateThroughPath] *)

(** C8, as stated, fails: after a trailing separator the second path is as
    deep as the first (the two name the same directory). *)
Lemma IterateThroughPath_trailing_separator :
  IterateThroughPath "/a/" = ["/a/"; "/a"; "/"] /\
  Filepath.Clean "/a/" = Filepath.Clean "/a" /\
  ~ chain (fun a b => pathDepth b < pathDepth a) (IterateThroughPath "/a/").
Proof.
  split; [vm_compute; reflexivity |].
  split; [vm_compute; reflexivity |].
  vm_compute. intros [H _]. lia.
Qed.

(** C8, amended.  The loop of [IterateThroughPath] ends for every input.
    Its result starts with the normalized input; every later element is
    [filepath.Dir] of the one before and differs from it; the last element
    is its own parent.  Depth never increases along the result and
    decreases strictly from the second element on. *)
Theorem IterateThroughPath_ancestors (path : string) :
  let paths := IterateThroughPath path in
  ancestorWalk (ensureCleanPath path) paths
  /\ (exists rest, paths = ensureCleanPath path :: rest)
  /\ chain (fun a b => b = Filepath.Dir a /\ a <> b) paths
  /\ Filepath.Dir (List.last paths "") = List.last paths ""
  /\ chain (fun a b => pathDepth b <= pathDepth a) paths
  /\ chain (fun a b => pathDepth b < pathDepth a) (tl paths).
Proof.
  pose proof (IterateThroughPath_walk path) as Hwalk. cbv zeta.
  split; [exact Hwalk |].
  split; [exact (ancestorWalk_head _ _ Hwalk) |].
  split; [exact (ancestorWalk_parents _ _ Hwalk) |].
  split; [exact (ancestorWalk_last _ _ Hwalk) |].
  split; [exact (ancestorWalk_depth_le _ _ Hwalk) |].
  exact (ancestorWalk_tail_depth_lt _ _ Hwalk).
Qed.

(** ** Claims about the root accessors *)

(** C7, as stated, fails for a key of the root variable that the
    environment refuses.  [SetGrootKey] takes [A=B]; [SetRootFromPath] of
    the existing absolute directory [/srv/old] then returns no error, the
    system has refused the root, and neither [IsRoot] nor
    [GetRelativeToRoot] sees one. *)
Lemma SetRootFromPath_round_trip_refused_key :
  let st := snd (SetGrootKey "A=B" freshState) in
  fst (SetGrootKey "A=B" freshState) = None
  /\ Filepath.IsAbs "/srv/old" = true
  /\ Stat bareHost "/srv/old" = Some {| IsDir := true |}
  /\ SetRootFromPath bareHost "/srv/old" st = (None, st)
  /\ IsRoot "/srv/old" st = false
  /\ GetRelativeToRoot "/srv/old" st = Err (ErrNew "root not set").
Proof. vm_compute. repeat split. Qed.



(** C9.  With at least one segment, [FromRoot] returns the plain join of
    the segments when the root is unset or the first segment is absolute,
    and the root joined with the joined segments otherwise. *)
Theorem FromRoot_segments (first : string) (rest : list string) (st : State) :
  FromRoot (first :: rest) st =
  Returns
    (if String.eqb (GetRoot st) "" || Filepath.IsAbs first
     then Filepath.Join (first :: rest)
     else Filepath.Join [GetRoot st; Filepath.Join (first :: rest)]).
Proof.
  unfold FromRoot.
  destruct (String.eqb (GetRoot st) ""); [reflexivity |].
  now destruct (Filepath.IsAbs first).
Qed.

(** C10, as stated, fails: with the root unset, [FromRoot] without segments
    does not panic. *)
Lemma FromRoot_no_segments_unset :
  ~ (forall st : State, exists msg, FromRoot [] st = Panics msg).
Proof.
  intros Hall. destruct (Hall freshState) as [msg Hmsg].
  vm_compute in Hmsg. discriminate.
Qed.

(** C10, amended.  [FromRoot] without segments panics on the index when the
    root is set; when the root is unset the first segment is never read and
    the call returns the empty join. *)
Theorem FromRoot_no_segments (st : State) :
  FromRoot [] st =
  if String.eqb (GetRoot st) "" then Returns ""
  else Panics "index out of range [0] with length 0".
Proof. unfold FromRoot. now destruct (String.eqb (GetRoot st) ""). Qed.

(** The root itself is always inside the root. *)
Lemma IsInRoot_root (st : State) :
  GetRoot st <> "" -> IsInRoot (GetRoot st) st = true.
Proof.
  intros Hset. unfold IsInRoot.
  apply String.eqb_neq in Hset. rewrite Hset.
  now rewrite Rel_same.
Qed.

(** C2, at the failing input.  With root [/a], the directory [/a/..foo]
    lies below the root, its relative path is [..foo], and [IsInRoot]
    answers false because that name starts with two dots. *)
Theorem IsInRoot_dotted_child :
  Filepath.Dir "/a/..foo" = "/a" /\
  Filepath.Rel "/a" "/a/..foo" = Some "..foo" /\
  IsInRoot "/a/..foo" (rootedState "/a") = false.
Proof. vm_compute. repeat split. Qed.

(** C3, at the failing input.  A run of three separators is halved, not
    collapsed, so a second pass still changes the path. *)
Theorem ensureCleanPath_triple_separator :
  ensureCleanPath "a///b" = "a//b" /\
  ensureCleanPath (ensureCleanPath "a///b") = "a/b".
Proof. vm_compute. split; reflexivity. Qed.

(** * Further properties of the package *)

(** ** Byte replacement *)

Lemma IndexByte_ge (s : string) (c : ascii) : (-1 <= GoStrings.IndexByte s c)%Z.
Proof.
  induction s as [|b s IH]; simpl; [lia|].
  destruct (Ascii.eqb b c); [lia|].
  destruct (GoStrings.IndexByte s c =? -1)%Z; lia.
Qed.

Lemma IndexByte_none_cons (b : ascii) (s : string) (c : ascii) :
  GoStrings.IndexByte (String b s) c = (-1)%Z <->
  b <> c /\ GoStrings.IndexByte s c = (-1)%Z.
Proof.
  simpl. pose proof (IndexByte_ge s c) as Hge.
  destruct (Ascii.eqb b c) eqn:Hb.
  - apply Ascii.eqb_eq in Hb. split; [lia | intros [Hne _]; contradiction].
  - apply Ascii.eqb_neq in Hb.
    destruct (GoStrings.IndexByte s c =? -1)%Z eqn:Hi.
    + apply Z.eqb_eq in Hi. tauto.
    + apply Z.eqb_neq in Hi. split; [lia | intros [_ H]; contradiction].
Qed.

Lemma length_mapBytes (f : ascii -> ascii) (s : string) :
  String.length (mapBytes f s) = String.length s.
Proof. induction s as [|c s IH]; simpl; [reflexivity | now rewrite IH]. Qed.

Lemma IndexByte_mapBytes (s : string) (old new : ascii) :
  old <> new ->
  GoStrings.IndexByte
    (mapBytes (fun b => if Ascii.eqb b old then new else b) s) old = (-1)%Z.
Proof.
  intros Hne. induction s as [|c s IH]; [reflexivity|].
  change (mapBytes (fun b => if Ascii.eqb b old then new else b) (String c s))
    with (String (if Ascii.eqb c old then new else c)
            (mapBytes (fun b => if Ascii.eqb b old then new else b) s)).
  apply IndexByte_none_cons. split; [|exact IH].
  destruct (Ascii.eqb c old) eqn:Hc.
  - congruence.
  - now apply Ascii.eqb_neq.
Qed.

Lemma mapBytes_back (s : string) (old new : ascii) :
  GoStrings.IndexByte s new = (-1)%Z ->
  mapBytes (fun b => if Ascii.eqb b new then old else b)
    (mapBytes (fun b => if Ascii.eqb b old then new else b) s) = s.
Proof.
  induction s as [|c s IH]; [reflexivity|].
  intros [Hc Hs]%IndexByte_none_cons. simpl. rewrite (IH Hs). f_equal.
  destruct (Ascii.eqb c old) eqn:Hco.
  - rewrite Ascii.eqb_refl. apply Ascii.eqb_eq in Hco. congruence.
  - apply Ascii.eqb_neq in Hc. now rewrite Hc.
Qed.

Lemma mapBytes_unchanged (s : string) (old new : ascii) :
  GoStrings.IndexByte
    (mapBytes (fun b => if Ascii.eqb b old then new else b) s) new = (-1)%Z ->
  mapBytes (fun b => if Ascii.eqb b old then new else b) s = s.
Proof.
  induction s as [|c s IH]; [reflexivity|].
  change (mapBytes (fun b => if Ascii.eqb b old then new else b) (String c s))
    with (String (if Ascii.eqb c old then new else c)
            (mapBytes (fun b => if Ascii.eqb b old then new else b) s)).
  intros [Hc Hs]%IndexByte_none_cons. rewrite (IH Hs). f_equal.
  destruct (Ascii.eqb c old); [congruence | reflexivity].
Qed.

Lemma replaceStringByte_same (s : string) (c : ascii) :
  replaceStringByte s c c = s.
Proof.
  unfold replaceStringByte.
  destruct (GoStrings.IndexByte s c =? -1)%Z; [reflexivity|].
  induction s as [|b s IH]; [reflexivity|]. simpl. rewrite IH. f_equal.
  destruct (Ascii.eqb b c) eqn:Hb; [|reflexivity].
  apply Ascii.eqb_eq in Hb. congruence.
Qed.

(** X1.  After [replaceStringByte s old new] with two different bytes, the
    byte [old] does not occur in the result any more, and the result has
    the length of [s]. *)
Theorem replaceStringByte_no_old (s : string) (old new : ascii) :
  old <> new ->
  GoStrings.IndexByte (replaceStringByte s old new) old = (-1)%Z
  /\ String.length (replaceStringByte s old new) = String.length s.
Proof.
  intros Hne. unfold replaceStringByte.
  destruct (GoStrings.IndexByte s old =? -1)%Z eqn:Hi.
  - apply Z.eqb_eq in Hi. split; [exact Hi | reflexivity].
  - split; [now apply IndexByte_mapBytes | apply length_mapBytes].
Qed.

Lemma replaceStringByte_no_old_witness :
  GoStrings.IndexByte (replaceStringByte "a\b\c" "\" "/") "\" = (-1)%Z
  /\ String.length (replaceStringByte "a\b\c" "\" "/") = String.length "a\b\c".
Proof. apply replaceStringByte_no_old. discriminate. Defined.

(** X2.  Replacing [old] by [new] and then [new] by [old] gives the
    string back when [new] does not occur in it (the two passes of
    [ensureCleanPath] and the slash conversion of [cleanFilenames] are of
    this kind). *)
Theorem replaceStringByte_round_trip (s : string) (old new : ascii) :
  GoStrings.IndexByte s new = (-1)%Z ->
  replaceStringByte (replaceStringByte s old new) new old = s.
Proof.
  intros Hnew. unfold replaceStringByte at 2.
  destruct (GoStrings.IndexByte s old =? -1)%Z eqn:Hi.
  - unfold replaceStringByte. now rewrite Hnew.
  - unfold replaceStringByte.
    destruct (GoStrings.IndexByte
                (mapBytes (fun b => if Ascii.eqb b old then new else b) s) new
              =? -1)%Z eqn:Hj.
    + apply Z.eqb_eq in Hj. now apply mapBytes_unchanged.
    + now apply mapBytes_back.
Qed.

Lemma replaceStringByte_round_trip_witness :
  replaceStringByte (replaceStringByte "a\b\c" "\" "/") "/" "\" = "a\b\c".
Proof. apply replaceStringByte_round_trip. reflexivity. Defined.

(** ** Normal form of [ensureCleanPath] *)

Lemma TrimSpace_fixed_iff (s : string) :
  GoStrings.TrimSpace s = s <-> noLeadingSpace s /\ noTrailingSpace s.
Proof.
  split.
  - intros H.
    assert (Hl : noLeadingSpace s).
    { rewrite <- H. apply TrimRightSpace_noLeadingSpace,
        TrimLeftSpace_noLeadingSpace. }
    split; [exact Hl|]. apply TrimRightSpace_fixed_iff.
    unfold GoStrings.TrimSpace in H. now rewrite (TrimLeftSpace_fixed s Hl) in H.
  - intros [Hl Hr]. unfold GoStrings.TrimSpace.
    rewrite (TrimLeftSpace_fixed s Hl). now apply TrimRightSpace_fixed_iff.
Qed.

Lemma ensureCleanPath_squeeze (path : string) :
  ensureCleanPath path = squeeze (GoStrings.TrimSpace path).
Proof.
  unfold ensureCleanPath, os.PathSeparator.
  now rewrite !replaceStringByte_same, TrimSpace_idempotent.
Qed.

Lemma squeeze_double (s : string) :
  squeeze (String "/" (String "/" s)) = String "/" (squeeze s).
Proof. reflexivity. Qed.

Lemma squeeze_single (c : ascii) (s : string) :
  GoStrings.HasPrefix (String c s) "//" = false ->
  squeeze (String c s) = String c (squeeze s).
Proof.
  intros H. unfold squeeze, GoStrings.ReplaceAll.
  change (GoStrings.replaceScan "//" "/" 0 (String c s))
    with (if GoStrings.HasPrefix (String c s) "//"
          then "/" +:+ GoStrings.replaceScan "//" "/" 1 s
          else String c (GoStrings.replaceScan "//" "/" 0 s)).
  now rewrite H.
Qed.

Lemma HasPrefix_double (s : string) :
  GoStrings.HasPrefix s "//" = true ->
  exists rest, s = String "/" (String "/" rest).
Proof.
  destruct s as [|c [|d rest]]; simpl; try discriminate.
  - rewrite andb_false_r. discriminate.
  - rewrite andb_true_r. intros [Hc Hd]%andb_prop.
    apply Ascii.eqb_eq in Hc, Hd. subst. now exists rest.
Qed.

Lemma HasPrefix_sep_cons (c : ascii) (s pre : string) :
  GoStrings.HasPrefix (String c s) (String "/" pre)
  = Ascii.eqb c "/" && GoStrings.HasPrefix s pre.
Proof. reflexivity. Qed.

Lemma HasPrefix_double_single (s : string) :
  GoStrings.HasPrefix s "//" = true -> GoStrings.HasPrefix s "/" = true.
Proof. intros [rest ->]%HasPrefix_double. reflexivity. Qed.

Lemma squeeze_head (s : string) :
  GoStrings.HasPrefix (squeeze s) "/" = GoStrings.HasPrefix s "/".
Proof.
  destruct s as [|c s]; [reflexivity|].
  destruct (GoStrings.HasPrefix (String c s) "//") eqn:H.
  - apply HasPrefix_double in H as [rest [= -> ->]]. reflexivity.
  - now rewrite (squeeze_single c s H).
Qed.

Lemma squeeze_empty (s : string) : squeeze s = "" -> s = "".
Proof.
  destruct s as [|c s]; [reflexivity|].
  destruct (GoStrings.HasPrefix (String c s) "//") eqn:H.
  - apply HasPrefix_double in H as [rest [= -> ->]]. discriminate.
  - rewrite (squeeze_single c s H). discriminate.
Qed.

(** A white-space rune at the start of the bytes has no separator among
    its bytes. *)
Lemma startsRune_rune (back : bool) (l : list ascii) :
  startsRune back l = true ->
  exists rune rest, l = rune ++ rest /\ startsRune back rune = true
                    /\ Forall (fun c => c <> "/"%char) rune.
Proof.
  destruct l as [|x l1]; [discriminate|]. cbn [startsRune].
  destruct (GoStrings.asciiSpace x) eqn:Hx.
  { intros _. exists [x], l1. split; [reflexivity|].
    split; [cbn [startsRune]; now rewrite Hx|].
    constructor; [|constructor]. intros ->. discriminate. }
  destruct l1 as [|y l2]; [discriminate|].
  destruct (GoStrings.rune2 back x y) eqn:Hxy.
  { intros _. exists [x; y], l2. split; [reflexivity|].
    split; [cbn [startsRune]; now rewrite Hx, Hxy|].
    repeat constructor; intros ->.
    - now rewrite (proj2 (rune2_sep back y)) in Hxy.
    - now rewrite (proj1 (rune2_sep back x)) in Hxy. }
  destruct l2 as [|z l3]; [discriminate|]. cbn [orb].
  intros Hxyz. exists [x; y; z], l3. split; [reflexivity|].
  split; [cbn [startsRune]; now rewrite Hx, Hxy, Hxyz|].
  repeat constructor; intros ->.
  - now rewrite (proj2 (proj2 (rune3_sep back y z))) in Hxyz.
  - now rewrite (proj1 (proj2 (rune3_sep back x z))) in Hxyz.
  - now rewrite (proj1 (rune3_sep back x y)) in Hxyz.
Qed.

Lemma squeeze_cons_inv (s : string) (x : ascii) (t : list ascii) :
  x <> "/"%char ->
  list_ascii_of_string (squeeze s) = x :: t ->
  exists s', list_ascii_of_string s = x :: list_ascii_of_string s'
             /\ list_ascii_of_string (squeeze s') = t.
Proof.
  intros Hx. destruct s as [|c s]; [discriminate|].
  destruct (GoStrings.HasPrefix (String c s) "//") eqn:H.
  - apply HasPrefix_double in H as [rest [= -> ->]].
    rewrite squeeze_double. intros [= <- _]. congruence.
  - rewrite (squeeze_single c s H). cbn [list_ascii_of_string].
    intros [= -> <-]. now exists s.
Qed.

Lemma squeeze_prefix_inv (rune : list ascii) :
  Forall (fun c => c <> "/"%char) rune ->
  forall s t, list_ascii_of_string (squeeze s) = rune ++ t ->
  exists rest, list_ascii_of_string s = rune ++ rest.
Proof.
  induction 1 as [|x rune Hx _ IH]; intros s t Hs.
  - now exists (list_ascii_of_string s).
  - destruct (squeeze_cons_inv s x (rune ++ t) Hx Hs) as (s' & -> & Hs').
    destruct (IH s' t Hs') as [rest ->]. now exists rest.
Qed.

Lemma squeeze_noLeadingSpace (s : string) :
  noLeadingSpace s -> noLeadingSpace (squeeze s).
Proof.
  unfold noLeadingSpace. intros Hs.
  destruct (startsRune false (list_ascii_of_string (squeeze s))) eqn:Hq;
    [|reflexivity].
  destruct (startsRune_rune _ _ Hq) as (rune & t & Ht & Hrune & Hsep).
  destruct (squeeze_prefix_inv rune Hsep s t Ht) as [rest Hrest].
  rewrite Hrest, (startsRune_app false rune rest Hrune) in Hs. discriminate.
Qed.

Lemma HasPrefix_double_head (x : ascii) (s : string) :
  x <> "/"%char -> GoStrings.HasPrefix (String x s) "//" = false.
Proof.
  intros Hx%Ascii.eqb_neq. rewrite HasPrefix_sep_cons. now rewrite Hx.
Qed.

Lemma HasPrefix_double_snoc (c : ascii) (s : string) (x : ascii) :
  x <> "/"%char ->
  GoStrings.HasPrefix (String c s) "//" = false ->
  GoStrings.HasPrefix (String c (s +:+ String x "")) "//" = false.
Proof.
  intros Hx. rewrite !HasPrefix_sep_cons.
  intros [H | H]%andb_false_iff; [now rewrite H|].
  apply andb_false_iff. right.
  destruct s as [|d s]; [|exact H].
  rewrite append_empty_l, HasPrefix_sep_cons.
  apply Ascii.eqb_neq in Hx. now rewrite Hx.
Qed.

Lemma squeeze_snoc (x : ascii) (n : nat) :
  x <> "/"%char ->
  forall s, String.length s <= n ->
  squeeze (s +:+ String x "") = squeeze s +:+ String x "".
Proof.
  intros Hx. induction n as [|n IH]; intros s Hn.
  - destruct s; [|simpl in Hn; lia].
    rewrite append_empty_l. now apply squeeze_single, HasPrefix_double_head.
  - destruct s as [|c s].
    { rewrite append_empty_l.
      now apply squeeze_single, HasPrefix_double_head. }
    destruct (GoStrings.HasPrefix (String c s) "//") eqn:H.
    + apply HasPrefix_double in H as [rest [= -> ->]].
      rewrite !append_cons, !squeeze_double, append_cons.
      rewrite (IH rest) by (simpl in Hn; lia). reflexivity.
    + rewrite append_cons.
      rewrite (squeeze_single c _ (HasPrefix_double_snoc c s x Hx H)).
      rewrite (squeeze_single c s H), append_cons.
      rewrite (IH s) by (simpl in Hn; lia). reflexivity.
Qed.

Lemma squeeze_snoc_sep (n : nat) :
  forall s, String.length s <= n ->
  exists t, squeeze (s +:+ "/") = t +:+ "/".
Proof.
  induction n as [|n IH]; intros s Hn.
  - destruct s; [|simpl in Hn; lia]. now exists "".
  - destruct s as [|c s]; [now exists ""|]. simpl in Hn.
    rewrite append_cons.
    destruct (GoStrings.HasPrefix (String c (s +:+ "/")) "//") eqn:H.
    + destruct s as [|d s].
      * apply HasPrefix_double in H as [rest [= -> <-]]. now exists "".
      * rewrite append_cons in H |- *.
        apply HasPrefix_double in H as [rest [= -> -> <-]].
        rewrite squeeze_double.
        destruct (IH s ltac:(simpl in Hn; lia)) as [t ->].
        now exists (String "/" t).
    + rewrite (squeeze_single c _ H).
      destruct (IH s ltac:(lia)) as [t ->]. now exists (String c t).
Qed.

Lemma string_snoc (s : string) (x : ascii) (t : list ascii) :
  rev (list_ascii_of_string s) = x :: t ->
  s = string_of_list_ascii (rev t) +:+ String x "".
Proof.
  intros H. apply (f_equal (@rev ascii)) in H.
  rewrite rev_involutive in H. cbn [rev] in H.
  rewrite <- (string_of_list_ascii_of_string s), H.
  rewrite <- (string_of_list_ascii_of_string
                (string_of_list_ascii (rev t) +:+ String x "")).
  now rewrite list_ascii_of_append, list_ascii_of_string_of_list_ascii.
Qed.

Lemma rev_bytes_snoc (s : string) (x : ascii) :
  rev (list_ascii_of_string (s +:+ String x ""))
  = x :: rev (list_ascii_of_string s).
Proof. now rewrite list_ascii_of_append, rev_app_distr. Qed.

Lemma squeeze_snoc_inv (s : string) (x : ascii) (t : list ascii) :
  x <> "/"%char ->
  rev (list_ascii_of_string (squeeze s)) = x :: t ->
  exists s', rev (list_ascii_of_string s) = x :: rev (list_ascii_of_string s')
             /\ rev (list_ascii_of_string (squeeze s')) = t.
Proof.
  intros Hx Hs.
  destruct (rev (list_ascii_of_string s)) as [|c u] eqn:Hrev.
  { apply (f_equal (@rev ascii)) in Hrev. rewrite rev_involutive in Hrev.
    apply (f_equal string_of_list_ascii) in Hrev.
    rewrite string_of_list_ascii_of_string in Hrev. subst s. discriminate. }
  apply string_snoc in Hrev. subst s.
  set (s' := string_of_list_ascii (rev u)) in *.
  destruct (Ascii.eqb c "/") eqn:Hc.
  - apply Ascii.eqb_eq in Hc. subst c.
    destruct (squeeze_snoc_sep _ s' (Nat.le_refl _)) as [q Hq].
    rewrite Hq, rev_bytes_snoc in Hs. injection Hs as Hs _. congruence.
  - apply Ascii.eqb_neq in Hc.
    rewrite (squeeze_snoc c _ Hc s' (Nat.le_refl _)), rev_bytes_snoc in Hs.
    injection Hs as -> Hs. exists s'. split; [|exact Hs].
    unfold s'. now rewrite list_ascii_of_string_of_list_ascii, rev_involutive.
Qed.

Lemma squeeze_suffix_inv (rune : list ascii) :
  Forall (fun c => c <> "/"%char) rune ->
  forall s t, rev (list_ascii_of_string (squeeze s)) = rune ++ t ->
  exists rest, rev (list_ascii_of_string s) = rune ++ rest.
Proof.
  induction 1 as [|x rune Hx _ IH]; intros s t Hs.
  - now exists (rev (list_ascii_of_string s)).
  - destruct (squeeze_snoc_inv s x (rune ++ t) Hx Hs) as (s' & -> & Hs').
    destruct (IH s' t Hs') as [rest ->]. now exists rest.
Qed.

Lemma squeeze_noTrailingSpace (s : string) :
  noTrailingSpace s -> noTrailingSpace (squeeze s).
Proof.
  unfold noTrailingSpace. intros Hs.
  destruct (startsRune true (rev (list_ascii_of_string (squeeze s)))) eqn:Hq;
    [|reflexivity].
  destruct (startsRune_rune _ _ Hq) as (rune & t & Ht & Hrune & Hsep).
  destruct (squeeze_suffix_inv rune Hsep s t Ht) as [rest Hrest].
  rewrite Hrest, (startsRune_app true rune rest Hrune) in Hs. discriminate.
Qed.

Lemma squeeze_trimmed (s : string) :
  GoStrings.TrimSpace s = s ->
  GoStrings.TrimSpace (squeeze s) = squeeze s.
Proof.
  intros [Hl Hr]%TrimSpace_fixed_iff. apply TrimSpace_fixed_iff. split.
  - now apply squeeze_noLeadingSpace.
  - now apply squeeze_noTrailingSpace.
Qed.

Lemma Contains_cons (c : ascii) (s substr : string) :
  GoStrings.Contains (String c s) substr
  = GoStrings.HasPrefix (String c s) substr || GoStrings.Contains s substr.
Proof. reflexivity. Qed.

Lemma squeeze_length_le (n : nat) :
  forall s, String.length s <= n ->
  String.length (squeeze s) <= String.length s
  /\ (GoStrings.Contains s "//" = true ->
      String.length (squeeze s) < String.length s).
Proof.
  induction n as [|n IH]; intros s Hle.
  - destruct s; [|simpl in Hle; lia]. simpl. split; [lia | discriminate].
  - destruct s as [|c s]; [simpl; split; [lia | discriminate]|].
    destruct (GoStrings.HasPrefix (String c s) "//") eqn:H.
    + apply HasPrefix_double in H as [rest [= -> ->]].
      rewrite squeeze_double. simpl in Hle.
      destruct (IH rest ltac:(lia)) as [H1 _]. simpl. split; intros; lia.
    + rewrite (squeeze_single c s H), Contains_cons, H. simpl in Hle.
      destruct (IH s ltac:(lia)) as [H1 H2]. simpl. split; [lia|].
      intros Hc. specialize (H2 Hc). lia.
Qed.

Lemma squeeze_length (s : string) :
  String.length (squeeze s) <= String.length s
  /\ (GoStrings.Contains s "//" = true ->
      String.length (squeeze s) < String.length s).
Proof. now apply (squeeze_length_le (String.length s)). Qed.

Lemma squeeze_fixed_iff (s : string) :
  squeeze s = s <-> GoStrings.Contains s "//" = false.
Proof.
  split.
  - intros H. destruct (GoStrings.Contains s "//") eqn:Hc; [|reflexivity].
    apply squeeze_length in Hc. rewrite H in Hc. lia.
  - induction s as [|c s IH]; [reflexivity|].
    rewrite Contains_cons. intros [H1 H2]%orb_false_elim.
    now rewrite (squeeze_single c s H1), (IH H2).
Qed.

Lemma HasPrefix_single_false (s : string) :
  GoStrings.HasPrefix s "/" = false -> GoStrings.HasPrefix s "//" = false.
Proof.
  intros H. destruct (GoStrings.HasPrefix s "//") eqn:H2; [|reflexivity].
  apply HasPrefix_double_single in H2. congruence.
Qed.

Lemma squeeze_doubled (n : nat) :
  forall s, String.length s <= n ->
  GoStrings.Contains (squeeze s) "//" = GoStrings.Contains s "///".
Proof.
  induction n as [|n IH]; intros s Hn.
  - destruct s; [reflexivity | simpl in Hn; lia].
  - destruct s as [|c s]; [reflexivity|].
    destruct (GoStrings.HasPrefix (String c s) "//") eqn:H.
    + apply HasPrefix_double in H as [rest [= -> ->]].
      rewrite squeeze_double.
      change (GoStrings.Contains (String "/" (squeeze rest)) "//")
        with (GoStrings.HasPrefix (squeeze rest) "/"
              || GoStrings.Contains (squeeze rest) "//").
      change (GoStrings.Contains (String "/" (String "/" rest)) "///")
        with (GoStrings.HasPrefix rest "/"
              || (GoStrings.HasPrefix rest "//"
                  || GoStrings.Contains rest "///")).
      rewrite squeeze_head, (IH rest) by (simpl in Hn; lia).
      destruct (GoStrings.HasPrefix rest "/") eqn:H1; [reflexivity|].
      now rewrite (HasPrefix_single_false rest H1).
    + rewrite (squeeze_single c s H), !Contains_cons.
      rewrite (IH s) by (simpl in Hn; lia).
      rewrite !HasPrefix_sep_cons, squeeze_head.
      rewrite HasPrefix_sep_cons in H. rewrite H.
      apply andb_false_iff in H as [H | H]; [now rewrite H|].
      now rewrite (HasPrefix_single_false s H), andb_false_r.
Qed.

(** X3.  The paths that [ensureCleanPath] leaves as they are, are exactly
    those without white space around them and without a doubled
    separator. *)
Theorem ensureCleanPath_fixed_iff (path : string) :
  ensureCleanPath path = path <->
  GoStrings.TrimSpace path = path /\ GoStrings.Contains path "//" = false.
Proof.
  rewrite ensureCleanPath_squeeze. split.
  - intros H.
    assert (Ht : GoStrings.TrimSpace path = path).
    { rewrite <- H at 1. rewrite squeeze_trimmed by apply TrimSpace_idempotent.
      exact H. }
    split; [exact Ht|]. apply squeeze_fixed_iff. now rewrite Ht in H.
  - intros [Ht Hc]. rewrite Ht. now apply squeeze_fixed_iff.
Qed.

(** X4.  [ensureCleanPath] leaves no doubled separator, and a second pass
    changes nothing, exactly when the trimmed input has no run of three
    separators. *)
Theorem ensureCleanPath_idempotent_iff (path : string) :
  (GoStrings.Contains (ensureCleanPath path) "//" = false
   <-> GoStrings.Contains (GoStrings.TrimSpace path) "///" = false)
  /\ (ensureCleanPath (ensureCleanPath path) = ensureCleanPath path
      <-> GoStrings.Contains (GoStrings.TrimSpace path) "///" = false).
Proof.
  assert (Hd : GoStrings.Contains (ensureCleanPath path) "//"
               = GoStrings.Contains (GoStrings.TrimSpace path) "///").
  { rewrite ensureCleanPath_squeeze.
    now apply (squeeze_doubled (String.length (GoStrings.TrimSpace path))). }
  split; [now rewrite Hd|].
  rewrite <- Hd. rewrite (ensureCleanPath_squeeze (ensureCleanPath path)).
  rewrite (ensureCleanPath_squeeze path) at 1.
  rewrite squeeze_trimmed by apply TrimSpace_idempotent.
  rewrite <- ensureCleanPath_squeeze. apply squeeze_fixed_iff.
Qed.

(** ** Filenames kept by [cleanFilenames] *)

Lemma bareName_spec (filename name : string) :
  bareName filename = Some name <->
  name = GoStrings.TrimSpace filename /\ name <> ""
  /\ GoStrings.Contains name "/" = false.
Proof.
  unfold bareName, os.PathSeparator. rewrite replaceStringByte_same.
  destruct (String.eqb (GoStrings.TrimSpace filename) "") eqn:He; simpl.
  - apply String.eqb_eq in He. split; [discriminate|].
    intros (-> & Hne & _). contradiction.
  - apply String.eqb_neq in He.
    destruct (GoStrings.Contains (GoStrings.TrimSpace filename) "/") eqn:Hc.
    + split; [discriminate | intros (-> & _ & H); congruence].
    + split; [intros [= <-]; auto | intros (-> & _ & _); reflexivity].
Qed.

Lemma bareName_fixed (filename name : string) :
  bareName filename = Some name -> bareName name = Some name.
Proof.
  intros (-> & Hne & Hc)%bareName_spec. apply bareName_spec.
  now rewrite TrimSpace_idempotent.
Qed.

(** X5.  The names that [cleanFilenames] returns are trimmed, not empty
    and free of separators, and cleaning them again returns the same names
    (in the order that the map iteration happens to take). *)
Theorem cleanFilenames_idempotent (h : Host) (filenames : list string) :
  Permutation (cleanFilenames h (cleanFilenames h filenames))
    (cleanFilenames h filenames)
  /\ (forall name, In name (cleanFilenames h filenames) ->
      GoStrings.TrimSpace name = name /\ name <> ""
      /\ GoStrings.Contains name "/" = false).
Proof.
  split.
  - apply Permutation.NoDup_Permutation; try apply NoDup_cleanFilenames.
    intros name. rewrite (In_cleanFilenames h (cleanFilenames h filenames)).
    split.
    + intros (mid & Hmid & Hname).
      destruct (proj1 (In_cleanFilenames h filenames mid) Hmid)
        as (filename & Hin & Hb).
      apply bareName_fixed in Hb. congruence.
    + intros Hin. exists name. split; [exact Hin|].
      apply In_cleanFilenames in Hin as (filename & _ & Hb).
      now apply bareName_fixed in Hb.
  - intros name (filename & _ & Hb)%In_cleanFilenames.
    apply bareName_spec in Hb as (-> & Hne & Hc).
    now rewrite TrimSpace_idempotent.
Qed.

(** ** Where the ancestor chain ends *)

Lemma string_of_list_ascii_empty (l : list ascii) :
  string_of_list_ascii l = "" -> l = [].
Proof. destruct l; [reflexivity | discriminate]. Qed.

Lemma Clean_nonempty (path : string) : Filepath.Clean path <> "".
Proof.
  unfold Filepath.Clean. destruct (String.eqb path ""); [discriminate|].
  cbv zeta.
  destruct (match path with
            | EmptyString => []
            | String _ rest =>
                if Filepath.isRooted path
                then Filepath.cleanLoop (String.length rest)
                       (Filepath.isRooted path) rest [Filepath.Separator] 1
                else Filepath.cleanLoop (String.length path)
                       (Filepath.isRooted path) path [] 0
            end) as [|c out]; [discriminate|].
  intros H%string_of_list_ascii_empty. revert H. apply rev_nonempty.
  discriminate.
Qed.

Lemma Dir_nonempty (path : string) : Filepath.Dir path <> "".
Proof. apply Clean_nonempty. Qed.

Lemma Dir_fixed (path : string) :
  path = Filepath.Dir path <-> path = "/" \/ path = ".".
Proof.
  split.
  - intros H. unfold Filepath.Dir in H.
    destruct (Clean_lastElem (Filepath.dirPrefix path)) as [Hc | [Hc | Hc]].
    + left. congruence.
    + right. congruence.
    + rewrite <- H in Hc. apply pathDepth_Dir_lt in Hc.
      unfold Filepath.Dir in Hc. rewrite <- H in Hc. lia.
  - intros [-> | ->]; reflexivity.
Qed.

Lemma noSep_not_rooted (e : string) : noSep e -> Filepath.isRooted e = false.
Proof.
  destruct e as [|c e]; [reflexivity|]. unfold noSep. simpl.
  destruct (Filepath.IsPathSeparator c); [discriminate | reflexivity].
Qed.

Lemma isRooted_concat (e : string) (l : list string) :
  e <> "" ->
  Filepath.isRooted (String.concat "/" (e :: l)) = Filepath.isRooted e.
Proof.
  intros He. destruct l as [|e' l]; [reflexivity|].
  rewrite concat_cons2. now apply isRooted_append.
Qed.

Lemma isRooted_Clean (path : string) :
  path <> "" ->
  Filepath.isRooted (Filepath.Clean path) = Filepath.isRooted path.
Proof.
  intros Hne. rewrite (Clean_unfold path Hne).
  destruct (Filepath.isRooted path) eqn:Hr; [reflexivity|].
  destruct (cleanOut_bounds path) as (Hp & Hs & _).
  destruct (Filepath.cleanOut path) as [|e out] eqn:Hout; [reflexivity|].
  apply allProper_rev in Hp. apply Forall_rev in Hs.
  destruct (rev (e :: out)) as [|e' l] eqn:Hrev.
  { apply (f_equal (@length string)) in Hrev.
    rewrite length_rev in Hrev. discriminate. }
  apply Forall_inv in Hp, Hs. rewrite isRooted_concat.
  - now apply noSep_not_rooted.
  - intros ->. discriminate.
Qed.

Lemma isRooted_Dir (path : string) :
  Filepath.isRooted (Filepath.Dir path) = Filepath.isRooted path.
Proof.
  unfold Filepath.Dir.
  destruct (dirPrefix_cases path) as [[Hd Hs] | (q & r & Hd & Hp & Hs)].
  - rewrite Hd. symmetry. now apply noSep_not_rooted.
  - rewrite Hd. destruct (String.eqb q "") eqn:Hq.
    + apply String.eqb_eq in Hq. subst q. rewrite Hp. reflexivity.
    + apply String.eqb_neq in Hq.
      rewrite isRooted_Clean by now apply append_nonempty.
      rewrite Hp. now rewrite !isRooted_append.
Qed.

Lemma ancestorWalk_rooted (path : string) (paths : list string) :
  ancestorWalk path paths ->
  Forall (fun p => Filepath.isRooted p = Filepath.isRooted path) paths.
Proof.
  induction 1 as [path H | path paths Hne Hw IH].
  - now constructor.
  - constructor; [reflexivity|].
    eapply List.Forall_impl; [|exact IH]. intros p Hp. simpl in Hp.
    now rewrite Hp, isRooted_Dir.
Qed.

Lemma In_last {A : Type} (l : list A) (d : A) :
  l <> [] -> In (List.last l d) l.
Proof.
  induction l as [|a l IH]; [congruence|]. intros _.
  destruct l as [|b l]; [now left|]. right. apply IH. discriminate.
Qed.

Lemma ancestorWalk_nonempty (path : string) (paths : list string) :
  ancestorWalk path paths -> paths <> [].
Proof. intros [rest ->]%ancestorWalk_head. discriminate. Qed.

(** X6.  The chain of [IterateThroughPath] ends at [/] when the
    normalised path starts with a separator and at [.] otherwise, and all
    its elements are of the same kind (rooted, or relative) as the
    normalised path: the walk from a relative path never leaves the
    relative paths. *)
Theorem IterateThroughPath_end (path : string) :
  let paths := IterateThroughPath path in
  List.last paths ""
  = (if Filepath.isRooted (ensureCleanPath path) then "/" else ".")
  /\ Forall (fun p => Filepath.isRooted p
                      = Filepath.isRooted (ensureCleanPath path)) paths.
Proof.
  intros paths. pose proof (IterateThroughPath_walk path) as Hw.
  fold paths in Hw. pose proof (ancestorWalk_rooted _ _ Hw) as Hr.
  split; [|exact Hr].
  pose proof (ancestorWalk_last _ _ Hw) as Hl. symmetry in Hl.
  apply Dir_fixed in Hl.
  assert (Hin : In (List.last paths "") paths)
    by (apply In_last; eapply ancestorWalk_nonempty; exact Hw).
  rewrite List.Forall_forall in Hr. specialize (Hr _ Hin).
  rewrite <- Hr. destruct Hl as [-> | ->]; reflexivity.
Qed.

Lemma ancestorWalk_measure (path : string) (paths : list string) :
  ancestorWalk path paths ->
  chain (fun a b => pathMeasure b < pathMeasure a) paths.
Proof.
  induction 1 as [path H | path paths Hne Hw IH]; [exact I|].
  destruct (ancestorWalk_head _ _ Hw) as [rest ->].
  split; [now apply Dir_measure | exact IH].
Qed.

Lemma chain_measure (paths : list string) :
  chain (fun a b => pathMeasure b < pathMeasure a) paths ->
  match paths with
  | [] => True
  | a :: rest =>
      Forall (fun b => pathMeasure b < pathMeasure a) rest
      /\ List.NoDup paths /\ length paths <= S (pathMeasure a)
  end.
Proof.
  induction paths as [|a paths IH]; [trivial|]. intros Hc.
  destruct paths as [|b rest].
  - repeat split; [constructor | | simpl; lia].
    constructor; [intros [] | constructor].
  - destruct Hc as [Hab Hc]. destruct (IH Hc) as (Hlt & Hnd & Hlen).
    assert (Hall : Forall (fun c => pathMeasure c < pathMeasure a) (b :: rest)).
    { constructor; [exact Hab|]. eapply List.Forall_impl; [|exact Hlt].
      simpl. intros c Hcb. lia. }
    repeat split; [exact Hall | | simpl in Hlen |- *; lia].
    constructor; [|exact Hnd]. intros Hin.
    rewrite List.Forall_forall in Hall. specialize (Hall _ Hin). lia.
Qed.

(** X7.  [IterateThroughPath] never lists a directory twice, and the chain
    is not empty and has at most two elements more than the normalised
    path has bytes. *)
Theorem IterateThroughPath_NoDup (path : string) :
  List.NoDup (IterateThroughPath path)
  /\ 1 <= length (IterateThroughPath path)
     <= String.length (ensureCleanPath path) + 2.
Proof.
  pose proof (IterateThroughPath_walk path) as Hw.
  pose proof (chain_measure _ (ancestorWalk_measure _ _ Hw)) as Hc.
  destruct (ancestorWalk_head _ _ Hw) as [rest Hp]. rewrite Hp in Hc |- *.
  destruct Hc as (_ & Hnd & Hlen). split; [exact Hnd|].
  pose proof (pathMeasure_le (ensureCleanPath path)).
  simpl in Hlen |- *. lia.
Qed.

(** X8.  [GetRootParent] is empty exactly when the root is unset, [/] or
    [.]; otherwise it is [filepath.Dir] of the root, differs from the root,
    is of the same kind (rooted or relative) and is not deeper. *)
Theorem GetRootParent_cases (st : State) :
  (GetRootParent st = "" <->
   GetRoot st = "" \/ GetRoot st = "/" \/ GetRoot st = ".")
  /\ (GetRootParent st <> "" ->
      GetRootParent st = Filepath.Dir (GetRoot st)
      /\ GetRootParent st <> GetRoot st
      /\ Filepath.isRooted (GetRootParent st) = Filepath.isRooted (GetRoot st)
      /\ pathDepth (GetRootParent st) <= pathDepth (GetRoot st)).
Proof.
  unfold GetRootParent.
  destruct (String.eqb (GetRoot st) "") eqn:He.
  { apply String.eqb_eq in He. split; [tauto | congruence]. }
  apply String.eqb_neq in He.
  destruct (String.eqb (Filepath.Dir (GetRoot st)) (GetRoot st)) eqn:Hd.
  - apply String.eqb_eq in Hd. split; [|congruence].
    split; [intros _ | reflexivity]. right. now apply Dir_fixed.
  - apply String.eqb_neq in Hd. split.
    + split; [intros H; now apply Dir_nonempty in H|].
      intros [H | H]; [contradiction|].
      apply Dir_fixed in H. congruence.
    + intros _. repeat split; [exact Hd | apply isRooted_Dir
                               | apply pathDepth_Dir_le].
Qed.

(** ** The two halves of [SetRoot] *)

Lemma searchAncestors_state (h : Host) (entryFile : string)
  (cleanEnvFilenames paths : list string) :
  forall (foundEnvPaths : list string) (st : State),
  let r := searchAncestors h entryFile cleanEnvFilenames paths foundEnvPaths st in
  snd r = st \/
  exists dir, In dir paths /\ hasEntryFile h dir entryFile = true
              /\ snd r = os.Setenv (grootEnv st) dir st.
Proof.
  induction paths as [|path rest IH]; intros found st; simpl; [now left|].
  destruct (findFiles h path cleanEnvFilenames) as [files|err]; [|now left].
  destruct (hasEntryFile h path entryFile) eqn:Hm.
  - right. exists path. auto.
  - destruct (IH (found ++ files) st) as [H | (dir & Hin & Hd & H)];
      [now left|].
    right. exists dir. auto.
Qed.

Lemma SetRoot_search_state (h : Host) (entryFile : string)
  (envFiles : list string) (st : State) :
  let r := SetRoot_search h entryFile envFiles st in
  (snd r = st \/
   exists projectDir dir,
     GetProjectDir h = Ok projectDir
     /\ In dir (IterateThroughPath projectDir)
     /\ hasEntryFile h dir (GoStrings.TrimSpace entryFile) = true
     /\ snd r = os.Setenv (grootEnv st) dir st)
  /\ (forall found, fst r = Ok found ->
      GetRoot (snd r) <> ""
      /\ String.eqb (GoStrings.TrimSpace entryFile) "" = false
      /\ definedEnvs envFiles && (length (cleanFilenames h envFiles) =? 0)
         = false).
Proof.
  unfold SetRoot_search.
  destruct (String.eqb (GoStrings.TrimSpace entryFile) "") eqn:He;
    [split; [now left | discriminate]|].
  destruct (definedEnvs envFiles && _) eqn:Hg;
    [split; [now left | discriminate]|].
  destruct (GetProjectDir h) as [projectDir|] eqn:Hdir;
    [|split; [now left | discriminate]].
  pose proof (searchAncestors_state h (GoStrings.TrimSpace entryFile)
                (cleanFilenames h envFiles) (IterateThroughPath projectDir)
                [] st) as Hst.
  destruct (searchAncestors _ _ _ _ _ _) as [[found|err] st1]; simpl in Hst.
  - assert (Hor : st1 = st \/
             exists projectDir0 dir,
               Ok projectDir = Ok projectDir0
               /\ In dir (IterateThroughPath projectDir0)
               /\ hasEntryFile h dir (GoStrings.TrimSpace entryFile) = true
               /\ st1 = os.Setenv (grootEnv st) dir st).
    { destruct Hst as [H | (dir & H)]; [now left|].
      right. exists projectDir, dir. tauto. }
    destruct (String.eqb (os.Getenv (grootEnv st1) st1) "") eqn:Hroot.
    + split; [exact Hor | discriminate].
    + apply String.eqb_neq in Hroot.
      destruct (GoStrings.HasSuffix _ _); simpl;
        (split; [exact Hor | intros ? _; auto]).
  - split; [|discriminate]. simpl.
    destruct Hst as [H | (dir & H)]; [now left|].
    right. exists projectDir, dir. tauto.
Qed.

Lemma Load_pair (h : Host) (filenames : list string) (st : State) :
  (let '(err, st') := godotenv.Load h filenames st in
   (option_map ers.Wrap err, st'))
  = godotenv.Load h filenames st.
Proof. now destruct (godotenv.Load h filenames st) as [[e|] st']. Qed.

(** The tests of the second half, without the ones that repeat an earlier
    test. *)
Lemma SetRoot_load_cases (h : Host) (envFiles foundEnvPaths : list string)
  (st : State) :
  SetRoot_load h envFiles foundEnvPaths st =
  if definedEnvs envFiles then
    if anyMissing (baseNames foundEnvPaths) (cleanFilenames h envFiles)
    then (Some ErrMissingEnvs, st)
    else match foundEnvPaths with
         | [] => (None, st)
         | _ => godotenv.Load h foundEnvPaths st
         end
  else
    match foundEnvPaths with
    | [] => (Some ErrNoEnvDefined, st)
    | _ => godotenv.Load h foundEnvPaths st
    end.
Proof.
  unfold SetRoot_load. destruct (definedEnvs envFiles) eqn:Hd.
  - rewrite (definedEnvs_nonempty _ Hd). simpl.
    destruct (anyMissing _ _); [reflexivity|].
    destruct foundEnvPaths; [reflexivity | apply Load_pair].
  - rewrite orb_true_r.
    destruct foundEnvPaths; [reflexivity | apply Load_pair].
Qed.

Lemma Load_error (h : Host) (filenames : list string) (st : State) (e : error) :
  filenames <> [] -> fst (godotenv.Load h filenames st) = Some e ->
  isExternal e.
Proof. intros Hne. now apply (Load_frame h filenames st Hne). Qed.

Lemma anyMissing_false (foundEnvPaths required : list string) (name : string) :
  anyMissing (baseNames foundEnvPaths) required = false ->
  In name required -> In name (map Filepath.Base foundEnvPaths).
Proof.
  intros Hany Hin. rewrite <- elem_of_baseNames.
  destruct (decide (name ∈ baseNames foundEnvPaths)) as [H | H]; [exact H|].
  assert (Ht : anyMissing (baseNames foundEnvPaths) required = true)
    by (apply anyMissing_true; eauto).
  congruence.
Qed.

Lemma SetRoot_load_frame (h : Host) (envFiles foundEnvPaths : list string)
  (st : State) :
  let r := SetRoot_load h envFiles foundEnvPaths st in
  grootEnv (snd r) = grootEnv st
  /\ (forall key value, environ st !! key = Some value ->
                        environ (snd r) !! key = Some value)
  /\ (loads (snd r) = loads st
      \/ foundEnvPaths <> [] /\ loads (snd r) = loads st ++ [foundEnvPaths]).
Proof.
  assert (Hload : foundEnvPaths <> [] ->
            let r := godotenv.Load h foundEnvPaths st in
            grootEnv (snd r) = grootEnv st
            /\ (forall key value, environ st !! key = Some value ->
                                  environ (snd r) !! key = Some value)
            /\ (loads (snd r) = loads st
                \/ foundEnvPaths <> []
                   /\ loads (snd r) = loads st ++ [foundEnvPaths])).
  { intros Hne. destruct (Load_frame h foundEnvPaths st Hne)
      as (Hk & Hl & He & _). auto. }
  rewrite SetRoot_load_cases.
  destruct (definedEnvs envFiles).
  - destruct (anyMissing _ _); [simpl; auto|].
    destruct foundEnvPaths as [|p l]; [simpl; auto|]. now apply Hload.
  - destruct foundEnvPaths as [|p l]; [simpl; auto|]. now apply Hload.
Qed.

Lemma SetRoot_load_GetRoot (h : Host) (envFiles foundEnvPaths : list string)
  (st : State) :
  GetRoot st <> "" ->
  GetRoot (snd (SetRoot_load h envFiles foundEnvPaths st)) = GetRoot st.
Proof.
  intros Hroot.
  destruct (SetRoot_load_frame h envFiles foundEnvPaths st) as (Hk & He & _).
  unfold GetRoot in *. rewrite Hk. apply Getenv_kept; [|exact Hroot].
  intros value. apply He.
Qed.

Lemma SetRoot_unfold (h : Host) (entryFile : string) (envFiles : list string)
  (st : State) :
  SetRoot h entryFile envFiles st =
  match fst (SetRoot_search h entryFile envFiles st) with
  | Err err => (Some err, snd (SetRoot_search h entryFile envFiles st))
  | Ok foundEnvPaths =>
      SetRoot_load h envFiles foundEnvPaths
        (snd (SetRoot_search h entryFile envFiles st))
  end.
Proof.
  unfold SetRoot.
  now destruct (SetRoot_search h entryFile envFiles st) as [[found|err] st1].
Qed.

Lemma SetRoot_search_error (h : Host) (entryFile : string)
  (envFiles : list string) (st : State) (e : error) :
  fst (SetRoot_search h entryFile envFiles st) = Err e ->
  isExternal e \/ e = ErrBadEnvsDefined \/ exists msg, e = ErrNew msg.
Proof.
  unfold SetRoot_search.
  destruct (String.eqb (GoStrings.TrimSpace entryFile) "");
    [intros [= <-]; right; right; eauto|].
  destruct (definedEnvs envFiles && _); [intros [= <-]; now right; left|].
  destruct (GetProjectDir h) as [projectDir | e0] eqn:Hdir.
  - destruct (searchAncestors _ _ _ _ _ _) as [[found | e1] st1] eqn:Hsearch.
    + destruct (String.eqb (os.Getenv (grootEnv st1) st1) "");
        [intros [= <-]; right; right; eauto|].
      now destruct (GoStrings.HasSuffix _ _).
    + simpl. intros [= <-]. left.
      apply (f_equal fst) in Hsearch. simpl in Hsearch.
      now apply searchAncestors_error in Hsearch.
  - simpl. intros [= <-].
    unfold GetProjectDir, GetMainFile in Hdir.
    destruct (Executable h); [| injection Hdir as <-; now left].
    destruct (negb _); [injection Hdir as <-; right; right; eauto |].
    destruct (GoStrings.Contains _ _); [discriminate |].
    destruct (Stat h _) as [fi|]; [| injection Hdir as <-; now left].
    destruct (IsDir fi); [discriminate |].
    injection Hdir as <-; right; right; eauto.
Qed.

(** ** What [SetRoot] does to the process state *)

(** X9.  After [SetRoot], whatever it returns, the root is either what it
    was before or a directory of the ancestor chain of the project
    directory in which the entry file exists as a file. *)
Theorem SetRoot_root_origin (h : Host) (entryFile : string)
  (envFiles : list string) (st : State) :
  let st' := snd (SetRoot h entryFile envFiles st) in
  GetRoot st' = GetRoot st \/
  exists projectDir dir,
    GetProjectDir h = Ok projectDir
    /\ In dir (IterateThroughPath projectDir)
    /\ hasEntryFile h dir (GoStrings.TrimSpace entryFile) = true
    /\ GetRoot st' = dir.
Proof.
  cbv zeta. rewrite SetRoot_unfold.
  destruct (SetRoot_search_state h entryFile envFiles st) as [Hst Hroot].
  assert (Hsearch :
    GetRoot (snd (SetRoot_search h entryFile envFiles st)) = GetRoot st \/
    exists projectDir dir,
      GetProjectDir h = Ok projectDir
      /\ In dir (IterateThroughPath projectDir)
      /\ hasEntryFile h dir (GoStrings.TrimSpace entryFile) = true
      /\ GetRoot (snd (SetRoot_search h entryFile envFiles st)) = dir).
  { destruct Hst as [-> | (projectDir & dir & Hd & Hin & Hm & ->)];
      [now left|].
    destruct (GetRoot_Setenv_cases dir st) as [[_ Hset] | [_ Hsame]].
    - right. exists projectDir, dir. repeat split; assumption.
    - left. now rewrite Hsame. }
  destruct (fst (SetRoot_search h entryFile envFiles st)) as [found|err];
    [|exact Hsearch].
  destruct (Hroot found eq_refl) as (Hne & _).
  now rewrite (SetRoot_load_GetRoot h envFiles found _ Hne).
Qed.

(** X10.  [SetRoot] keeps the key of the root variable, and every other
    variable of the environment keeps its value: the env files it loads
    never override a variable that is already set. *)
Theorem SetRoot_keeps_variables (h : Host) (entryFile : string)
  (envFiles : list string) (st : State) (key value : string) :
  key <> grootEnv st ->
  environ st !! key = Some value ->
  environ (snd (SetRoot h entryFile envFiles st)) !! key = Some value
  /\ grootEnv (snd (SetRoot h entryFile envFiles st)) = grootEnv st.
Proof.
  intros Hkey Hval. rewrite SetRoot_unfold.
  destruct (SetRoot_search_state h entryFile envFiles st) as [Hst _].
  pose proof (SetRoot_search_frame h entryFile envFiles st) as [Hk _].
  assert (Hsearch : environ (snd (SetRoot_search h entryFile envFiles st))
                    !! key = Some value).
  { destruct Hst as [-> | (projectDir & dir & _ & _ & _ & ->)];
      [exact Hval|].
    now rewrite (proj2 (proj2 (Setenv_frame _ _ _)) key Hkey). }
  destruct (fst (SetRoot_search h entryFile envFiles st)) as [found|err];
    [|now split].
  destruct (SetRoot_load_frame h envFiles found
              (snd (SetRoot_search h entryFile envFiles st)))
    as (Hk' & He & _).
  split; [now apply He | congruence].
Qed.

Lemma SetRoot_keeps_variables_witness :
  environ
    (snd (SetRoot projHost "app.id" ["dev.env"]
            (os.Setenv "MODE" "prod" freshState))) !! "MODE" = Some "prod"
  /\ grootEnv
       (snd (SetRoot projHost "app.id" ["dev.env"]
               (os.Setenv "MODE" "prod" freshState)))
     = grootEnv (os.Setenv "MODE" "prod" freshState).
Proof.
  apply SetRoot_keeps_variables; [discriminate | vm_compute; reflexivity].
Defined.

(** X11.  [SetRoot] calls the env-file loader at most once, never without
    a file (so the loader never falls back to its default [.env]), and only
    with a root in place; the loaded files cannot move that root. *)
Theorem SetRoot_loader_calls (h : Host) (entryFile : string)
  (envFiles : list string) (st : State) :
  let r := SetRoot h entryFile envFiles st in
  loads (snd r) = loads st \/
  exists found st1,
    SetRoot_search h entryFile envFiles st = (Ok found, st1)
    /\ found <> [] /\ GetRoot st1 <> ""
    /\ loads (snd r) = loads st ++ [found]
    /\ GetRoot (snd r) = GetRoot st1.
Proof.
  cbv zeta. rewrite SetRoot_unfold.
  destruct (SetRoot_search_state h entryFile envFiles st) as [_ Hroot].
  pose proof (SetRoot_search_frame h entryFile envFiles st) as [_ Hl].
  destruct (SetRoot_search h entryFile envFiles st) as [[found|err] st1];
    simpl in *; [|now left].
  destruct (Hroot found eq_refl) as (Hne & _).
  destruct (SetRoot_load_frame h envFiles found st1)
    as (_ & _ & [Hsame | [Hf Hmore]]); [left; congruence|].
  right. exists found, st1. repeat split; try assumption.
  - congruence.
  - now apply SetRoot_load_GetRoot.
Qed.

(** X12.  When [SetRoot] returns nil, a root is set, the loader has read
    files (at least one) without error, and every requested name is the
    base name of a loaded file. *)
Theorem SetRoot_success (h : Host) (entryFile : string)
  (envFiles : list string) (st : State) :
  fst (SetRoot h entryFile envFiles st) = None ->
  exists found st1,
    SetRoot_search h entryFile envFiles st = (Ok found, st1)
    /\ found <> []
    /\ godotenv.Load h found st1 = (None, snd (SetRoot h entryFile envFiles st))
    /\ GetRoot (snd (SetRoot h entryFile envFiles st)) <> ""
    /\ (definedEnvs envFiles = true ->
        forall name, In name (cleanFilenames h envFiles) ->
                     In name (map Filepath.Base found)).
Proof.
  rewrite SetRoot_unfold.
  destruct (SetRoot_search_state h entryFile envFiles st) as [_ Hroot].
  destruct (SetRoot_search h entryFile envFiles st) as [[found|err] st1];
    simpl in *; [|discriminate].
  destruct (Hroot found eq_refl) as (Hne & _ & Hguard).
  pose proof (SetRoot_load_GetRoot h envFiles found st1 Hne) as Hkeep.
  revert Hkeep. rewrite SetRoot_load_cases. intros Hkeep Hnil.
  exists found, st1. split; [reflexivity|].
  destruct (definedEnvs envFiles) eqn:Hd.
  - destruct (anyMissing _ _) eqn:Hany; [discriminate|].
    assert (Hall : forall name, In name (cleanFilenames h envFiles) ->
                                In name (map Filepath.Base found))
      by (intros name; now apply anyMissing_false).
    simpl in Hguard.
    destruct (cleanFilenames h envFiles) as [|name names]; [discriminate|].
    specialize (Hall name (or_introl eq_refl)) as Hin.
    destruct found as [|p l]; [destruct Hin|].
    repeat split; [discriminate | | congruence | auto].
    destruct (godotenv.Load h (p :: l) st1) as [err st2]. simpl in *.
    now subst err.
  - destruct found as [|p l]; [discriminate|].
    repeat split; [discriminate | | congruence | discriminate].
    destruct (godotenv.Load h (p :: l) st1) as [err st2]. simpl in *.
    now subst err.
Qed.

Lemma SetRoot_success_witness :
  exists found st1,
    SetRoot_search projHost "app.id" ["dev.env"] freshState = (Ok found, st1)
    /\ found <> []
    /\ godotenv.Load projHost found st1
       = (None, snd (SetRoot projHost "app.id" ["dev.env"] freshState))
    /\ GetRoot (snd (SetRoot projHost "app.id" ["dev.env"] freshState)) <> ""
    /\ (definedEnvs ["dev.env"] = true ->
        forall name, In name (cleanFilenames projHost ["dev.env"]) ->
                     In name (map Filepath.Base found)).
Proof. apply SetRoot_success. vm_compute. reflexivity. Defined.

(** X13.  [SetRoot] returns [ErrMissingEnvs] only when env files were
    requested and one of the requested names is the base name of no file
    found; the root is then in place and nothing has been loaded. *)
Theorem SetRoot_reports_missing_only (h : Host) (entryFile : string)
  (envFiles : list string) (st : State) :
  fst (SetRoot h entryFile envFiles st) = Some ErrMissingEnvs ->
  exists found name,
    SetRoot_search h entryFile envFiles st
    = (Ok found, snd (SetRoot h entryFile envFiles st))
    /\ definedEnvs envFiles = true
    /\ In name (cleanFilenames h envFiles)
    /\ ~ In name (map Filepath.Base found)
    /\ GetRoot (snd (SetRoot h entryFile envFiles st)) <> ""
    /\ loads (snd (SetRoot h entryFile envFiles st)) = loads st.
Proof.
  rewrite SetRoot_unfold.
  destruct (SetRoot_search_state h entryFile envFiles st) as [_ Hroot].
  pose proof (SetRoot_search_frame h entryFile envFiles st) as [_ Hl].
  pose proof (SetRoot_search_error h entryFile envFiles st) as Herr.
  destruct (SetRoot_search h entryFile envFiles st) as [[found|err] st1];
    simpl in *.
  - destruct (Hroot found eq_refl) as (Hne & _).
    rewrite SetRoot_load_cases.
    assert (Hload : found <> [] ->
              fst (godotenv.Load h found st1) <> Some ErrMissingEnvs).
    { intros Hf He. now apply Load_error in He. }
    destruct (definedEnvs envFiles) eqn:Hd.
    + destruct (anyMissing _ _) eqn:Hany.
      * intros _. apply anyMissing_true in Hany as (name & Hin & Hmiss).
        exists found, name. rewrite elem_of_baseNames in Hmiss.
        repeat split; assumption.
      * destruct found as [|p l]; [discriminate|].
        intros He. now apply Hload in He.
    + destruct found as [|p l]; [discriminate|].
      intros He. now apply Hload in He.
  - intros [= ->].
    destruct (Herr _ eq_refl) as [H | [H | [msg H]]];
      [destruct H | discriminate | discriminate].
Qed.

Lemma SetRoot_reports_missing_only_witness :
  exists found name,
    SetRoot_search projHost "app.id" ["dev.env"; "prod.env"] freshState
    = (Ok found,
       snd (SetRoot projHost "app.id" ["dev.env"; "prod.env"] freshState))
    /\ definedEnvs ["dev.env"; "prod.env"] = true
    /\ In name (cleanFilenames projHost ["dev.env"; "prod.env"])
    /\ ~ In name (map Filepath.Base found)
    /\ GetRoot
         (snd (SetRoot projHost "app.id" ["dev.env"; "prod.env"] freshState))
       <> ""
    /\ loads
         (snd (SetRoot projHost "app.id" ["dev.env"; "prod.env"] freshState))
       = loads freshState.
Proof. apply SetRoot_reports_missing_only. vm_compute. reflexivity. Defined.

(** X14.  [SetRoot] returns [ErrNoEnvDefined] exactly when no env file is
    requested and the search ends with a root but without any file to load;
    the root is then in place and the loader has not been called. *)
Theorem SetRoot_no_env_defined_iff (h : Host) (entryFile : string)
  (envFiles : list string) (st : State) :
  (fst (SetRoot h entryFile envFiles st) = Some ErrNoEnvDefined
   <-> definedEnvs envFiles = false
       /\ SetRoot_search h entryFile envFiles st
          = (Ok [], snd (SetRoot h entryFile envFiles st)))
  /\ (fst (SetRoot h entryFile envFiles st) = Some ErrNoEnvDefined ->
      GetRoot (snd (SetRoot h entryFile envFiles st)) <> ""
      /\ loads (snd (SetRoot h entryFile envFiles st)) = loads st).
Proof.
  rewrite SetRoot_unfold.
  destruct (SetRoot_search_state h entryFile envFiles st) as [_ Hroot].
  pose proof (SetRoot_search_frame h entryFile envFiles st) as [_ Hl].
  pose proof (SetRoot_search_error h entryFile envFiles st) as Herr.
  destruct (SetRoot_search h entryFile envFiles st) as [[found|err] st1];
    simpl in *.
  - destruct (Hroot found eq_refl) as (Hne & _).
    rewrite SetRoot_load_cases.
    assert (Hload : found <> [] ->
              fst (godotenv.Load h found st1) <> Some ErrNoEnvDefined).
    { intros Hf He. now apply Load_error in He. }
    destruct (definedEnvs envFiles) eqn:Hd.
    + destruct (anyMissing _ _) eqn:Hany.
      * split; [split; [discriminate | intros [? _]; discriminate]
               | discriminate].
      * destruct found as [|p l].
        -- split; [split; [discriminate | intros [? _]; discriminate]
                  | discriminate].
        -- split; [split; [|intros [? _]; discriminate]|];
             intros He; now apply Hload in He.
    + destruct found as [|p l].
      * simpl. split; [split; auto | auto].
      * split; [split; [|intros [_ [=]]]|];
          intros He; now apply Hload in He.
  - split; [split; [|intros [_ [=]]]|]; intros [= ->];
      (destruct (Herr _ eq_refl) as [H | [H | [msg H]]];
       [destruct H | discriminate | discriminate]).
Qed.

(** ** The nearest marker wins *)










(** X17.  [SetRootFromEnv] passes the entry file on as the env file to
    look for, and env files must be bare names: an entry file given with a
    directory part is refused with [ErrBadEnvsDefined] before any search,
    and the state is unchanged. *)
Theorem SetRootFromEnv_rejects_paths (h : Host) (entryFile : string)
  (st : State) :
  GoStrings.Contains (GoStrings.TrimSpace entryFile) "/" = true ->
  SetRootFromEnv h entryFile st = (Some ErrBadEnvsDefined, st).
Proof.
  intros Hc. unfold SetRootFromEnv, SetRoot, SetRoot_search.
  assert (Hne : String.eqb (GoStrings.TrimSpace entryFile) "" = false).
  { destruct (GoStrings.TrimSpace entryFile); [discriminate | reflexivity]. }
  rewrite Hne.
  assert (Hclean : cleanFilenames h [entryFile] = []).
  { apply cleanFilenames_nil. constructor; [|constructor].
    unfold bareName, os.PathSeparator.
    now rewrite replaceStringByte_same, Hc, orb_true_r. }
  rewrite Hclean.
  assert (Hdef : definedEnvs [entryFile] = true).
  { unfold definedEnvs, GoStrings.Join. simpl String.concat. now rewrite Hne. }
  now rewrite Hdef.
Qed.

Lemma SetRootFromEnv_rejects_paths_witness :
  SetRootFromEnv projHost "conf/.env" freshState
  = (Some ErrBadEnvsDefined, freshState).
Proof. apply SetRootFromEnv_rejects_paths. reflexivity. Defined.

(** ** Sequences of calls *)

Lemma SetRoot_frame (h : Host) (entryFile : string) (envFiles : list string)
  (st : State) :
  let r := SetRoot h entryFile envFiles st in
  grootEnv (snd r) = grootEnv st
  /\ (loads (snd r) = loads st
      \/ exists found, found <> [] /\ loads (snd r) = loads st ++ [found])
  /\ (match fst r with
      | None | Some ErrNoEnvDefined => GetRoot (snd r) <> ""
      | _ => True
      end).
Proof.
  cbv zeta. rewrite SetRoot_unfold.
  destruct (SetRoot_search_state h entryFile envFiles st) as [_ Hroot].
  pose proof (SetRoot_search_frame h entryFile envFiles st) as [Hk Hl].
  pose proof (SetRoot_search_error h entryFile envFiles st) as Herr.
  destruct (SetRoot_search h entryFile envFiles st) as [[found|err] st1];
    simpl in *.
  - destruct (Hroot found eq_refl) as (Hne & _).
    pose proof (SetRoot_load_GetRoot h envFiles found st1 Hne) as Hkeep.
    destruct (SetRoot_load_frame h envFiles found st1)
      as (Hk' & _ & [Hsame | [Hf Hmore]]).
    + repeat split; [congruence | left; congruence|].
      destruct (fst (SetRoot_load h envFiles found st1)) as [[]|];
        trivial; congruence.
    + repeat split; [congruence | right; exists found; split; congruence|].
      destruct (fst (SetRoot_load h envFiles found st1)) as [[]|];
        trivial; congruence.
  - repeat split; [exact Hk | now left|].
    destruct (Herr _ eq_refl) as [H | [-> | [msg ->]]]; trivial.
    now destruct err.
Qed.

Lemma SetRootNoEnv_state (h : Host) (entryFile : string) (st : State) :
  snd (SetRootNoEnv h entryFile st) = snd (SetRoot h entryFile [] st)
  /\ (fst (SetRootNoEnv h entryFile st) = None ->
      fst (SetRoot h entryFile [] st) = None
      \/ fst (SetRoot h entryFile [] st) = Some ErrNoEnvDefined).
Proof.
  unfold SetRootNoEnv.
  destruct (SetRoot h entryFile [] st) as [[[]|] st1]; simpl; split;
    auto; discriminate.
Qed.

Lemma SetRootFromGit_cases (h : Host) (st : State) :
  (exists e, SetRootFromGit h st = (Some e, st))
  \/ (exists root, root <> ""
                   /\ SetRootFromGit h st
                      = (None, os.Setenv (grootEnv st) root st)).
Proof.
  unfold SetRootFromGit.
  destruct (GetProjectDir h) as [projectDir|]; [|left; eauto].
  destruct (String.eqb (FindGitRootFrom h projectDir) "") eqn:He;
    [left; eauto|].
  apply String.eqb_neq in He. right. eauto.
Qed.



Lemma Join_pair_nonempty (a b : string) :
  b <> "" -> Filepath.Join [a; b] <> "".
Proof.
  intros Hb. cbn [Filepath.Join].
  destruct (String.eqb a ""); [|apply Clean_nonempty].
  apply String.eqb_neq in Hb. rewrite Hb. apply Clean_nonempty.
Qed.

Lemma SetRootFromPath_cases (h : Host) (path : string) (st : State) :
  (exists e, SetRootFromPath h path st = (Some e, st))
  \/ (exists root,
        root <> ""
        /\ root = (if Filepath.IsAbs (GoStrings.TrimSpace path)
                   then GoStrings.TrimSpace path
                   else match GetProjectDir h with
                        | Ok projectDir =>
                            Filepath.Join
                              [projectDir; GoStrings.TrimSpace path]
                        | Err _ => ""
                        end)
        /\ Stat h root = Some {| IsDir := true |}
        /\ SetRootFromPath h path st
           = (None, os.Setenv (grootEnv st) root st)).
Proof.
  unfold SetRootFromPath.
  destruct (String.eqb (GoStrings.TrimSpace path) "") eqn:He; [left; eauto|].
  apply String.eqb_neq in He.
  destruct (Filepath.IsAbs (GoStrings.TrimSpace path)); cbn [negb].
  - destruct (Stat h (GoStrings.TrimSpace path)) as [[[]]|] eqn:Hs;
      cbn [negb IsDir]; [|left; eauto|left; eauto].
    right. exists (GoStrings.TrimSpace path). auto.
  - destruct (GetProjectDir h) as [projectDir|]; [|left; eauto].
    destruct (Stat h (Filepath.Join [projectDir; GoStrings.TrimSpace path]))
      as [[[]]|] eqn:Hs; cbn [negb IsDir]; [|left; eauto|left; eauto].
    right. exists (Filepath.Join [projectDir; GoStrings.TrimSpace path]).
    repeat split; auto. now apply Join_pair_nonempty.
Qed.

Lemma runCall_frame (h : Host) (c : call) (st : State) :
  (grootEnv (snd (runCall h c st)) = grootEnv st
   \/ exists key, GoStrings.TrimSpace key <> ""
                  /\ grootEnv (snd (runCall h c st)) = GoStrings.TrimSpace key)
  /\ (loads (snd (runCall h c st)) = loads st
      \/ exists found, found <> []
                       /\ loads (snd (runCall h c st)) = loads st ++ [found]).
Proof.
  destruct c as [key | entryFile envFiles | entryFile | entryFile | | path |];
    cbn [runCall].
  - unfold SetGrootKey.
    destruct (String.eqb (GoStrings.TrimSpace key) "") eqn:He;
      [split; now left|].
    apply String.eqb_neq in He. split; [right; exists key; auto | now left].
  - destruct (SetRoot_frame h entryFile envFiles st) as (Hk & Hl & _).
    split; [now left | exact Hl].
  - destruct (SetRootNoEnv_state h entryFile st) as [-> _].
    destruct (SetRoot_frame h entryFile [] st) as (Hk & Hl & _).
    split; [now left | exact Hl].
  - destruct (SetRoot_frame h entryFile [entryFile] st) as (Hk & Hl & _).
    split; [now left | exact Hl].
  - destruct (SetRootFromGit_cases h st) as [[e ->] | (root & _ & ->)];
      cbn [snd]; [split; now left|].
    destruct (Setenv_frame (grootEnv st) root st) as (Hk & Hl & _).
    split; now left.
  - destruct (SetRootFromPath_cases h path st)
      as [[e ->] | (root & _ & _ & _ & ->)];
      cbn [snd]; [split; now left|].
    destruct (Setenv_frame (grootEnv st) root st) as (Hk & Hl & _).
    split; now left.
  - split; now left.
Qed.

(** X18.  Whatever calls are made, the key of the root variable stays a
    valid one (not empty, no white space around it) once it is valid, as is
    the initial key: only [SetGrootKey] changes it, and only to a trimmed,
    non-empty key. *)
Theorem runCalls_key_valid (h : Host) (calls : list call) (st : State) :
  validKey (grootEnv st) -> validKey (grootEnv (runCalls h calls st)).
Proof.
  revert st. induction calls as [|c calls IH]; intros st Hv; [exact Hv|].
  cbn [runCalls fold_left]. apply IH.
  destruct (runCall_frame h c st) as [[-> | (key & Hne & ->)] _];
    [exact Hv|].
  split; [exact Hne | apply TrimSpace_idempotent].
Qed.

Lemma runCalls_key_valid_witness :
  validKey (grootEnv freshState)
  /\ validKey
       (grootEnv
          (runCalls bareHost
             [CallSetGrootKey " APP_ROOT "; CallSetRootFromGit;
              CallSetGrootKey "  "; CallClearRoot]
             freshState)).
Proof.
  assert (Hv : validKey (grootEnv freshState))
    by (split; [discriminate | reflexivity]).
  split; [exact Hv | now apply runCalls_key_valid].
Defined.

(** X19.  Whatever calls are made, the trace of the loader only grows, by
    at most one call of the loader for each call of the package, and the
    loader is never called without a file. *)
Theorem runCalls_loads (h : Host) (calls : list call) (st : State) :
  exists added,
    loads (runCalls h calls st) = loads st ++ added
    /\ Forall (fun files => files <> []) added
    /\ length added <= length calls.
Proof.
  revert st. induction calls as [|c calls IH]; intros st.
  - exists []. cbn. rewrite app_nil_r. repeat split; [constructor | lia].
  - cbn [runCalls fold_left].
    destruct (IH (snd (runCall h c st))) as (added & Hl & Hall & Hlen).
    fold (runCalls h calls (snd (runCall h c st))).
    destruct (runCall_frame h c st) as [_ [Hs | (found & Hne & Hs)]].
    + exists added. rewrite Hl, Hs. repeat split; [exact Hall|]. simpl. lia.
    + exists (found :: added). rewrite Hl, Hs, <- app_assoc.
      repeat split; [now constructor|]. simpl. lia.
Qed.



(** X21.  [SetGrootKey], [SetRootFromGit] and [SetRootFromPath] are all or
    nothing: when they return an error, the process state is what it was
    ([SetRoot] can fail with the root already stored). *)
Theorem failed_call_keeps_state (h : Host) (c : call) (st : State) :
  allOrNothing c = true ->
  fst (runCall h c st) <> None ->
  snd (runCall h c st) = st.
Proof.
  destruct c as [key | entryFile envFiles | entryFile | entryFile | | path |];
    intros Hc Herr; try discriminate Hc; cbn [runCall] in *.
  - unfold SetGrootKey in *.
    destruct (String.eqb (GoStrings.TrimSpace key) ""); [reflexivity|].
    now elim Herr.
  - destruct (SetRootFromGit_cases h st) as [[e He] | (root & _ & He)];
      rewrite He in Herr |- *; [reflexivity | now elim Herr].
  - destruct (SetRootFromPath_cases h path st)
      as [[e He] | (root & _ & _ & _ & He)];
      rewrite He in Herr |- *; [reflexivity | now elim Herr].
Qed.

Lemma failed_call_keeps_state_witness :
  snd (runCall bareHost (CallSetRootFromPath "/srv/none") (rootedState "/srv/old"))
  = rootedState "/srv/old".
Proof.
  apply failed_call_keeps_state; [reflexivity | vm_compute; discriminate].
Defined.

(** ** Clearing the root and switching the key *)

(** X22.  After [ClearRoot] the package is in the state that every
    accessor treats as "no root": [GetRoot] is empty, [MustGetRoot] panics,
    no path is the root or inside it, [FromRoot] joins its arguments alone,
    and the functions that read the root directory fail with "root not
    set".  The key and the other variables are untouched. *)
Theorem ClearRoot_resets (st : State) :
  let st' := ClearRoot st in
  GetRoot st' = ""
  /\ MustGetRoot st' = Panics "root not set"
  /\ GetRootParent st' = ""
  /\ (forall path, IsRoot path st' = false /\ IsInRoot path st' = false
                   /\ GetRelativeToRoot path st' = Err (ErrNew "root not set"))
  /\ (forall path, FromRoot path st' = Returns (Filepath.Join path))
  /\ (forall h pattern,
        ValidateRoot h st' = Some (ErrNew "root not set")
        /\ GetRootInfo h st' = Err (ErrNew "root not set")
        /\ ListFilesFromRoot h pattern st' = Err (ErrNew "root not set"))
  /\ grootEnv st' = grootEnv st
  /\ loads st' = loads st
  /\ (forall key, key <> grootEnv st ->
                  environ st' !! key = environ st !! key).
Proof.
  cbv zeta.
  assert (Hroot : GetRoot (ClearRoot st) = "").
  { unfold GetRoot, ClearRoot, os.Getenv, os.Unsetenv. cbn [grootEnv environ].
    destruct (os.keyAccepted (grootEnv st)); [|reflexivity].
    now rewrite lookup_delete_eq. }
  unfold MustGetRoot, GetRootParent, IsRoot, IsInRoot, GetRelativeToRoot,
    FromRoot, ValidateRoot, GetRootInfo, ListFilesFromRoot.
  rewrite Hroot. cbn [String.eqb].
  repeat split.
  intros key Hkey. unfold ClearRoot, os.Unsetenv. cbn [environ].
  now rewrite lookup_delete_ne by congruence.
Qed.

(** X23.  [SetGrootKey] with a key that is not blank changes nothing but
    the key: the root is then whatever the environment holds under the
    trimmed new key, so a root stored under the old key is out of sight
    until the old key is set again, which restores the state. *)
Theorem SetGrootKey_switch (key : string) (st : State) :
  GoStrings.TrimSpace key <> "" ->
  validKey (grootEnv st) ->
  let st1 := snd (SetGrootKey key st) in
  fst (SetGrootKey key st) = None
  /\ grootEnv st1 = GoStrings.TrimSpace key
  /\ environ st1 = environ st
  /\ GetRoot st1 = os.Getenv (GoStrings.TrimSpace key) st
  /\ SetGrootKey (grootEnv st) st1 = (None, st).
Proof.
  intros Hkey [Hne Htrim]. cbv zeta. unfold SetGrootKey.
  apply String.eqb_neq in Hkey, Hne. rewrite Hkey. cbn [fst snd].
  rewrite Htrim, Hne. cbn [grootEnv environ loads].
  repeat split. now destruct st.
Qed.

Lemma SetGrootKey_switch_witness :
  fst (SetGrootKey " APP_ROOT " (rootedState "/srv/old")) = None
  /\ grootEnv (snd (SetGrootKey " APP_ROOT " (rootedState "/srv/old")))
     = GoStrings.TrimSpace " APP_ROOT "
  /\ environ (snd (SetGrootKey " APP_ROOT " (rootedState "/srv/old")))
     = environ (rootedState "/srv/old")
  /\ GetRoot (snd (SetGrootKey " APP_ROOT " (rootedState "/srv/old")))
     = os.Getenv (GoStrings.TrimSpace " APP_ROOT ") (rootedState "/srv/old")
  /\ SetGrootKey (grootEnv (rootedState "/srv/old"))
       (snd (SetGrootKey " APP_ROOT " (rootedState "/srv/old")))
     = (None, rootedState "/srv/old").
Proof.
  apply SetGrootKey_switch; [discriminate | split; [discriminate | reflexivity]].
Defined.

(** ** The root and the paths below it *)

(** X24.  A path that [IsRoot] accepts is inside the root for [IsInRoot],
    and its path relative to the root is [.]. *)
Theorem IsRoot_IsInRoot (path : string) (st : State) :
  IsRoot path st = true ->
  IsInRoot path st = true /\ GetRelativeToRoot path st = Ok ".".
Proof.
  unfold IsRoot, IsInRoot, GetRelativeToRoot.
  destruct (String.eqb (GetRoot st) ""); [discriminate|].
  intros ->%String.eqb_eq. now rewrite Rel_same.
Qed.

Lemma IsRoot_IsInRoot_witness :
  IsInRoot " /srv//old " (rootedState "/srv/old") = true
  /\ GetRelativeToRoot " /srv//old " (rootedState "/srv/old") = Ok ".".
Proof. apply IsRoot_IsInRoot. vm_compute. reflexivity. Defined.

(** ** The root from the git directory *)






(** ** The root from a path *)



(** ** The project directory *)

(** X27.  When [GetProjectDir] succeeds, the executable and a [.go] main
    file are both known; the result is the directory of the main file when
    the directory of the executable contains the temporary directory (a
    run with [go run]), and otherwise the directory of the executable,
    which then exists as a directory.  It is never empty.  A main file
    with an absolute name is taken as reported. *)
Theorem GetProjectDir_cases (h : Host) (projectDir : string) :
  GetProjectDir h = Ok projectDir ->
  projectDir <> ""
  /\ exists execPath goFile,
       Executable h = Some execPath
       /\ GetMainFile h = Ok goFile
       /\ GoStrings.HasSuffix (CallerFile h) ".go" = true
       /\ (Filepath.IsAbs (CallerFile h) = true -> goFile = CallerFile h)
       /\ (if GoStrings.Contains (Filepath.Dir execPath) (TempDir h)
           then projectDir = Filepath.Dir goFile
           else projectDir = Filepath.Dir execPath
                /\ Stat h projectDir = Some {| IsDir := true |}).
Proof.
  unfold GetProjectDir.
  destruct (Executable h) as [execPath|]; [|discriminate].
  destruct (GetMainFile h) as [goFile|] eqn:Hmain; [|discriminate].
  intros Hdir.
  assert (Hne : projectDir <> "").
  { destruct (GoStrings.Contains _ _); [injection Hdir as <-; apply Dir_nonempty|].
    destruct (Stat h _) as [[[]]|]; try discriminate.
    injection Hdir as <-. apply Dir_nonempty. }
  split; [exact Hne|]. exists execPath, goFile.
  split; [reflexivity|]. split; [reflexivity|].
  unfold GetMainFile in Hmain.
  destruct (GoStrings.HasSuffix (CallerFile h) ".go") eqn:Hsuf;
    [|discriminate].
  cbn [negb] in Hmain. injection Hmain as Hgo.
  split; [reflexivity|]. split.
  - intros Habs. rewrite <- Hgo.
    destruct (CallerFile h) as [|c rest]; [discriminate|].
    unfold Filepath.IsAbs in Habs. cbn [GoStrings.HasPrefix] in Habs.
    rewrite andb_true_r in Habs. apply Ascii.eqb_eq in Habs. subst c.
    now destruct (1 <? String.length (String "/" rest)).
  - destruct (GoStrings.Contains _ _); [now injection Hdir as <-|].
    destruct (Stat h (Filepath.Dir execPath)) as [[[]]|] eqn:Hstat;
      try discriminate.
    injection Hdir as <-. now split.
Qed.

Lemma GetProjectDir_cases_witness :
  "/home/u/proj/src" <> ""
  /\ exists execPath goFile,
       Executable projHost = Some execPath
       /\ GetMainFile projHost = Ok goFile
       /\ GoStrings.HasSuffix (CallerFile projHost) ".go" = true
       /\ (Filepath.IsAbs (CallerFile projHost) = true ->
           goFile = CallerFile projHost)
       /\ (if GoStrings.Contains (Filepath.Dir execPath) (TempDir projHost)
           then "/home/u/proj/src" = Filepath.Dir goFile
           else "/home/u/proj/src" = Filepath.Dir execPath
                /\ Stat projHost "/home/u/proj/src" = Some {| IsDir := true |}).
Proof. apply GetProjectDir_cases. vm_compute. reflexivity. Defined.

(** ** A root left by an earlier call *)

Lemma ancestorWalk_In (path : string) (paths : list string) (x : string) :
  ancestorWalk path paths -> In x paths ->
  x = path \/ exists parentOf, x = Filepath.Dir parentOf.
Proof.
  induction 1 as [path H | path paths Hne Hw IH]; intros Hin.
  - destruct Hin as [<- | []]. now left.
  - destruct Hin as [<- | Hin]; [now left|].
    destruct (IH Hin) as [-> | H]; [right; eauto | now right].
Qed.

Lemma IterateThroughPath_empty (path : string) :
  In "" (IterateThroughPath path) -> ensureCleanPath path = "".
Proof.
  intros Hin.
  destruct (ancestorWalk_In _ _ _ (IterateThroughPath_walk path) Hin)
    as [H | [parentOf H]]; [now symmetry|].
  symmetry in H. now apply Dir_nonempty in H.
Qed.

Lemma GetProjectDir_error_kind (h : Host) (e : error) :
  GetProjectDir h = Err e ->
  isExternal e \/ e = ErrNew "main *.go file not found"
  \/ e = ErrNew "unable to get project dir".
Proof.
  unfold GetProjectDir, GetMainFile.
  destruct (Executable h); [| intros [= <-]; now left].
  destruct (negb _); [intros [= <-]; now right; left |].
  destruct (GoStrings.Contains _ _); [discriminate |].
  destruct (Stat h _) as [fi|]; [| intros [= <-]; now left].
  destruct (IsDir fi); [discriminate | intros [= <-]; now right; right].
Qed.

Lemma SetRoot_search_no_root (h : Host) (entryFile : string)
  (envFiles : list string) (st : State) :
  fst (SetRoot_search h entryFile envFiles st) = Err (ErrNew "no root found") ->
  GetRoot (snd (SetRoot_search h entryFile envFiles st)) = "".
Proof.
  unfold SetRoot_search.
  destruct (String.eqb (GoStrings.TrimSpace entryFile) ""); [discriminate|].
  destruct (definedEnvs envFiles && _); [discriminate|].
  destruct (GetProjectDir h) as [projectDir | e0] eqn:Hdir.
  - destruct (searchAncestors _ _ _ _ _ _) as [[found | e1] st1] eqn:Hsearch.
    + destruct (String.eqb (os.Getenv (grootEnv st1) st1) "") eqn:Hroot.
      * intros _. now apply String.eqb_eq in Hroot.
      * now destruct (GoStrings.HasSuffix _ _).
    + cbn [fst snd]. intros [= ->].
      apply (f_equal fst) in Hsearch. cbn [fst] in Hsearch.
      now apply searchAncestors_error in Hsearch.
  - cbn [fst]. unfold ers.Wrap. intros [= ->].
    destruct (GetProjectDir_error_kind h _ Hdir) as [H | [H | H]];
      [destruct H | discriminate | discriminate].
Qed.

(** X28.  Once a root is set, [SetRoot] does not report "no root found"
    any more, whether or not the entry file exists: when no directory of
    the chain holds the entry file, it goes on with the root of the earlier
    call, which it leaves in place.  (The project directory is taken not to
    normalise to the empty path.) *)
Theorem SetRoot_stale_root (h : Host) (entryFile : string)
  (envFiles : list string) (st : State) :
  GetRoot st <> "" ->
  (forall projectDir, GetProjectDir h = Ok projectDir ->
                      ensureCleanPath projectDir <> "") ->
  fst (SetRoot h entryFile envFiles st) <> Some (ErrNew "no root found")
  /\ ((forall projectDir,
         GetProjectDir h = Ok projectDir ->
         Forall (fun dir =>
                   hasEntryFile h dir (GoStrings.TrimSpace entryFile) = false)
           (IterateThroughPath projectDir))
      -> GetRoot (snd (SetRoot h entryFile envFiles st)) = GetRoot st).
Proof.
  intros Hset Hproj.
  destruct (SetRoot_search_state h entryFile envFiles st) as [Hst Hroot].
  pose proof (SetRoot_search_no_root h entryFile envFiles st) as Hno.
  split.
  - rewrite SetRoot_unfold.
    destruct (fst (SetRoot_search h entryFile envFiles st))
      as [found|err] eqn:Hfst.
    + rewrite SetRoot_load_cases.
      assert (Hload : found <> [] ->
                fst (godotenv.Load h found
                       (snd (SetRoot_search h entryFile envFiles st)))
                <> Some (ErrNew "no root found")).
      { intros Hf He. now apply Load_error in He. }
      destruct (definedEnvs envFiles).
      * destruct (anyMissing _ _); [discriminate|].
        destruct found as [|p l]; [discriminate | now apply Hload].
      * destruct found as [|p l]; [discriminate | now apply Hload].
    + cbn [fst]. intros [= ->]. specialize (Hno eq_refl).
      destruct Hst as [Hsame | (projectDir & dir & Hd & Hin & _ & Hsame)];
        rewrite Hsame in Hno.
      * contradiction.
      * destruct (GetRoot_Setenv_cases dir st) as [[_ Hdir] | [_ Hkept]].
        -- rewrite Hdir in Hno. subst dir.
           apply IterateThroughPath_empty in Hin.
           now apply (Hproj projectDir).
        -- rewrite Hkept in Hno. contradiction.
  - intros Hnone. rewrite SetRoot_unfold.
    assert (Hsame : snd (SetRoot_search h entryFile envFiles st) = st).
    { destruct Hst as [H | (projectDir & dir & Hd & Hin & Hm & _)]; [exact H|].
      specialize (Hnone projectDir Hd). rewrite List.Forall_forall in Hnone.
      rewrite (Hnone dir Hin) in Hm. discriminate. }
    destruct (fst (SetRoot_search h entryFile envFiles st)) as [found|err];
      rewrite Hsame; [|reflexivity].
    now apply SetRoot_load_GetRoot.
Qed.

Lemma SetRoot_stale_root_witness :
  fst (SetRoot bareHost "app.id" ["dev.env"] (rootedState "/srv/old"))
  <> Some (ErrNew "no root found")
  /\ GetRoot (snd (SetRoot bareHost "app.id" ["dev.env"]
                     (rootedState "/srv/old")))
     = GetRoot (rootedState "/srv/old").
Proof.
  destruct (SetRoot_stale_root bareHost "app.id" ["dev.env"]
              (rootedState "/srv/old")) as [Hcode Hroot].
  - discriminate.
  - intros projectDir [= <-]. vm_compute. discriminate.
  - split; [exact Hcode|]. apply Hroot.
    intros projectDir [= <-]. vm_compute. repeat constructor.
Defined.

(** ** Files found by globbing *)

Lemma findFilesFrom_spec (h : Host) (dirPath : string) (fileNames : list string) :
  forall foundFiles found,
  findFilesFrom h dirPath fileNames foundFiles = Ok found <->
  exists matches,
    Forall2 (fun name files =>
               Glob h (Filepath.Join [dirPath; name]) = Some files)
      fileNames matches
    /\ found = foundFiles ++ concat matches.
Proof.
  induction fileNames as [|name rest IH]; intros acc found;
    cbn [findFilesFrom].
  - split.
    + intros [= <-]. exists []. split; [constructor|].
      now rewrite app_nil_r.
    + intros (matches & H2 & ->). inversion H2; subst.
      now rewrite app_nil_r.
  - destruct (Glob h (Filepath.Join [dirPath; name])) as [files|] eqn:Hg.
    + rewrite IH. split.
      * intros (matches & H2 & ->). exists (files :: matches).
        split; [now constructor|]. cbn [concat]. now rewrite app_assoc.
      * intros (matches & H2 & ->). inversion H2 as [|? files' ? matches' Hf H2']; subst.
        exists matches'. split; [exact H2'|].
        assert (files' = files) by congruence. subst files'.
        cbn [concat]. now rewrite app_assoc.
    + split; [discriminate|].
      intros (matches & H2 & _). inversion H2; subst. congruence.
Qed.

(** X29.  [findFiles] returns the matches of the patterns [dirPath/name]
    in the order of the names, those of one name after those of the name
    before it, and nothing else; it succeeds exactly when every glob does.
    [ListFilesFromRoot] is [findFiles] on the root with the one pattern. *)
Theorem findFiles_spec (h : Host) (dirPath : string) (fileNames : list string)
  (found : list string) (pattern : string) (st : State) :
  (findFiles h dirPath fileNames = Ok found <->
   exists matches,
     Forall2 (fun name files =>
                Glob h (Filepath.Join [dirPath; name]) = Some files)
       fileNames matches
     /\ found = concat matches)
  /\ (GetRoot st <> "" ->
      ListFilesFromRoot h pattern st = findFiles h (GetRoot st) [pattern]).
Proof.
  split.
  - unfold findFiles. now rewrite findFilesFrom_spec.
  - intros Hroot. unfold ListFilesFromRoot, findFiles.
    apply String.eqb_neq in Hroot. rewrite Hroot. cbn [findFilesFrom].
    now destruct (Glob h _).
Qed.

(** ** Paths below the root *)

Lemma substring_zero (n : nat) (s : string) : substring n 0 s = "".
Proof.
  revert n. induction s as [|c s IH]; intros [|n]; try reflexivity.
  simpl. apply IH.
Qed.

Lemma substring_all (s : string) : substring 0 (String.length s) s = s.
Proof. induction s as [|c s IH]; simpl; [reflexivity | now rewrite IH]. Qed.

Lemma substring_prefix (e t : string) :
  substring 0 (String.length e) (e +:+ t) = e.
Proof.
  induction e as [|c e IH]; [apply substring_zero|].
  rewrite append_cons. simpl. now rewrite IH.
Qed.

Lemma substring_append_r (pre s : string) (i n : nat) :
  substring (String.length pre + i) n (pre +:+ s) = substring i n s.
Proof.
  induction pre as [|c pre IH]; [reflexivity|].
  rewrite append_cons. simpl. exact IH.
Qed.

Lemma sepAt_append_r (pre s : string) (i : nat) :
  Filepath.sepAt (pre +:+ s) (String.length pre + i) = Filepath.sepAt s i.
Proof.
  unfold Filepath.sepAt.
  induction pre as [|c pre IH]; [reflexivity|].
  rewrite append_cons. simpl. exact IH.
Qed.

Lemma skipElem_append_r (pre s : string) (fuel : nat) :
  forall i,
  Filepath.skipElem fuel (pre +:+ s) (String.length pre + i)
  = String.length pre + Filepath.skipElem fuel s i.
Proof.
  induction fuel as [|fuel IH]; intros i; [reflexivity|].
  cbn [Filepath.skipElem].
  rewrite sepAt_append_r, length_append.
  replace (String.length pre + i <? String.length pre + String.length s)
    with (i <? String.length s).
  - destruct ((i <? String.length s) && negb (Filepath.sepAt s i));
      [|reflexivity].
    rewrite <- IH. f_equal. lia.
  - destruct (Nat.ltb_spec i (String.length s));
      destruct (Nat.ltb_spec (String.length pre + i)
                  (String.length pre + String.length s)); try reflexivity; lia.
Qed.

Lemma skipElem_elem (e tail : string) :
  noSep e -> Filepath.elemEnds tail = true ->
  forall fuel, String.length e <= fuel ->
  Filepath.skipElem fuel (e +:+ tail) 0 = String.length e.
Proof.
  intros He Htail. induction e as [|c e IH]; intros fuel Hfuel.
  - rewrite append_empty_l. destruct fuel as [|fuel]; [reflexivity|].
    cbn [Filepath.skipElem]. unfold Filepath.sepAt.
    destruct tail as [|d tail]; [reflexivity|].
    simpl in Htail. simpl. now rewrite Htail.
  - destruct fuel as [|fuel]; [simpl in Hfuel; lia|].
    unfold noSep in He. simpl in He.
    destruct (Filepath.IsPathSeparator c) eqn:Hc; [discriminate|].
    cbn [Filepath.skipElem]. rewrite append_cons.
    unfold Filepath.sepAt at 1. cbn [String.get String.length].
    rewrite Hc. cbn [Nat.ltb Nat.leb negb andb].
    change (String c (e +:+ tail)) with (String c "" +:+ (e +:+ tail)).
    change 1 with (String.length (String c "") + 0).
    rewrite skipElem_append_r, IH; [reflexivity | exact He|].
    simpl in Hfuel. lia.
Qed.

Lemma append_empty_r (s : string) : s +:+ "" = s.
Proof. induction s as [|c s IH]; [reflexivity|]. now rewrite append_cons, IH. Qed.

Lemma skipElem_at_pre (pre e tail : string) (fuel : nat) :
  noSep e -> Filepath.elemEnds tail = true -> String.length e <= fuel ->
  Filepath.skipElem fuel (pre +:+ e +:+ tail) (String.length pre)
  = String.length pre + String.length e.
Proof.
  intros He Htail Hfuel.
  rewrite <- (Nat.add_0_r (String.length pre)) at 1.
  now rewrite skipElem_append_r, skipElem_elem.
Qed.

Lemma slice_at_pre (pre e tail : string) :
  Filepath.slice (pre +:+ e +:+ tail) (String.length pre)
    (String.length pre + String.length e) = e.
Proof.
  unfold Filepath.slice.
  replace (String.length pre + String.length e - String.length pre)
    with (String.length e) by lia.
  rewrite <- (Nat.add_0_r (String.length pre)) at 1.
  now rewrite substring_append_r, substring_prefix.
Qed.

Lemma relScan_step (fuel : nat) (base targ : string) (b0 bi t0 ti : nat) :
  Filepath.relScan (S fuel) base targ b0 bi t0 ti =
  if (bi <? String.length base) && (ti <? String.length targ) then
    if negb (String.eqb
               (Filepath.slice targ t0
                  (Filepath.skipElem (String.length targ) targ ti))
               (Filepath.slice base b0
                  (Filepath.skipElem (String.length base) base bi)))
    then (b0, Filepath.skipElem (String.length base) base bi,
          t0, Filepath.skipElem (String.length targ) targ ti)
    else
      Filepath.relScan fuel base targ
        (if Filepath.skipElem (String.length base) base bi
            <? String.length base
         then S (Filepath.skipElem (String.length base) base bi)
         else Filepath.skipElem (String.length base) base bi)
        (if Filepath.skipElem (String.length base) base bi
            <? String.length base
         then S (Filepath.skipElem (String.length base) base bi)
         else Filepath.skipElem (String.length base) base bi)
        (if Filepath.skipElem (String.length targ) targ ti
            <? String.length targ
         then S (Filepath.skipElem (String.length targ) targ ti)
         else Filepath.skipElem (String.length targ) targ ti)
        (if Filepath.skipElem (String.length targ) targ ti
            <? String.length targ
         then S (Filepath.skipElem (String.length targ) targ ti)
         else Filepath.skipElem (String.length targ) targ ti)
  else (b0, bi, t0, ti).
Proof. reflexivity. Qed.

Lemma relScan_stop (fuel : nat) (base targ : string) (b0 t0 ti : nat) :
  Filepath.relScan fuel base targ b0 (String.length base) t0 ti
  = (b0, String.length base, t0, ti).
Proof.
  destruct fuel as [|fuel]; [reflexivity|].
  rewrite relScan_step. now rewrite Nat.ltb_irrefl.
Qed.

(** One turn of the loop of [Rel] over an element that the two paths
    share. *)
Lemma relScan_match (pre e tb tt : string) (fuel : nat) :
  goodElem e -> Filepath.elemEnds tb = true -> Filepath.elemEnds tt = true ->
  tt <> "" ->
  Filepath.relScan (S fuel) (pre +:+ e +:+ tb) (pre +:+ e +:+ tt)
    (String.length pre) (String.length pre)
    (String.length pre) (String.length pre)
  = Filepath.relScan fuel (pre +:+ e +:+ tb) (pre +:+ e +:+ tt)
      (String.length pre + String.length e
       + (if String.eqb tb "" then 0 else 1))
      (String.length pre + String.length e
       + (if String.eqb tb "" then 0 else 1))
      (S (String.length pre + String.length e))
      (S (String.length pre + String.length e)).
Proof.
  intros [Hne Hsep] Htb Htt Hmore. rewrite relScan_step.
  assert (Hlen : 1 <= String.length e) by (destruct e; [congruence | simpl; lia]).
  assert (Hlt : 1 <= String.length tt) by (destruct tt; [congruence | simpl; lia]).
  rewrite !skipElem_at_pre by
    (try assumption; rewrite !length_append; lia).
  rewrite !slice_at_pre, String.eqb_refl. cbn [negb].
  rewrite !length_append.
  replace (String.length pre <? String.length pre
                                + (String.length e + String.length tb))
    with true by (symmetry; apply Nat.ltb_lt; lia).
  replace (String.length pre <? String.length pre
                                + (String.length e + String.length tt))
    with true by (symmetry; apply Nat.ltb_lt; lia).
  replace (String.length pre + String.length e
           <? String.length pre + (String.length e + String.length tt))
    with true by (symmetry; apply Nat.ltb_lt; lia).
  cbn [andb]. destruct tb as [|c tb].
  - replace (String.length pre + String.length e
             <? String.length pre + (String.length e + String.length ""))
      with false by (symmetry; apply Nat.ltb_ge; simpl; lia).
    cbn [String.eqb]. now rewrite Nat.add_0_r.
  - replace (String.length pre + String.length e
             <? String.length pre
                + (String.length e + String.length (String c tb)))
      with true by (symmetry; apply Nat.ltb_lt; simpl; lia).
    cbn [String.eqb]. now rewrite Nat.add_1_r.
Qed.

Lemma relScan_match_eq (base targ pre e tb tt : string) (fuel : nat) :
  base = pre +:+ e +:+ tb -> targ = pre +:+ e +:+ tt ->
  goodElem e -> Filepath.elemEnds tb = true -> Filepath.elemEnds tt = true ->
  tt <> "" ->
  Filepath.relScan (S fuel) base targ
    (String.length pre) (String.length pre)
    (String.length pre) (String.length pre)
  = Filepath.relScan fuel base targ
      (String.length pre + String.length e
       + (if String.eqb tb "" then 0 else 1))
      (String.length pre + String.length e
       + (if String.eqb tb "" then 0 else 1))
      (S (String.length pre + String.length e))
      (S (String.length pre + String.length e)).
Proof. intros -> ->. apply relScan_match. Qed.

Lemma relScan_stop_eq (fuel : nat) (base targ : string) (b0 bi t0 ti : nat) :
  bi = String.length base ->
  Filepath.relScan fuel base targ b0 bi t0 ti = (b0, bi, t0, ti).
Proof. intros ->. apply relScan_stop. Qed.

Lemma relScan_common (x : string) (els : list string) :
  Forall goodElem els -> els <> [] ->
  forall (pre : string) (fuel : nat), length els <= fuel ->
  Filepath.relScan fuel
    (pre +:+ String.concat "/" els)
    ((pre +:+ String.concat "/" els) +:+ "/" +:+ x)
    (String.length pre) (String.length pre)
    (String.length pre) (String.length pre)
  = (String.length (pre +:+ String.concat "/" els),
     String.length (pre +:+ String.concat "/" els),
     S (String.length (pre +:+ String.concat "/" els)),
     S (String.length (pre +:+ String.concat "/" els))).
Proof.
  induction 1 as [|e els He Hels IH]; [congruence|]. intros _ pre fuel Hfuel.
  destruct fuel as [|fuel]; [simpl in Hfuel; lia|].
  destruct els as [|e2 els].
  - cbn [String.concat].
    rewrite (relScan_match_eq _ _ pre e "" ("/" +:+ x));
      try assumption; try reflexivity; try discriminate.
    + cbn [String.eqb]. rewrite relScan_stop_eq
        by (rewrite !length_append; lia).
      now rewrite !length_append, !Nat.add_0_r.
    + now rewrite append_empty_r.
    + now rewrite !append_assoc.
  - rewrite concat_cons2.
    rewrite (relScan_match_eq _ _ pre e
               ("/" +:+ String.concat "/" (e2 :: els))
               ("/" +:+ String.concat "/" (e2 :: els) +:+ "/" +:+ x));
      try assumption; try reflexivity; try discriminate.
    + cbn [String.eqb].
      specialize (IH ltac:(discriminate) (pre +:+ e +:+ "/") fuel
                    ltac:(simpl in Hfuel |- *; lia)).
      replace ((pre +:+ e +:+ "/") +:+ String.concat "/" (e2 :: els))
        with (pre +:+ e +:+ "/" +:+ String.concat "/" (e2 :: els)) in IH
        by now rewrite !append_assoc.
      replace (String.length (pre +:+ e +:+ "/"))
        with (String.length pre + String.length e + 1) in IH
        by (rewrite !length_append; simpl; lia).
      replace (S (String.length pre + String.length e))
        with (String.length pre + String.length e + 1) by lia.
      exact IH.
    + now rewrite !append_assoc.
Qed.

Lemma relScan_rooted (fuel : nat) (s t : string) :
  Filepath.relScan (S fuel) (String "/" s) (String "/" t) 0 0 0 0
  = Filepath.relScan fuel (String "/" s) (String "/" t) 1 1 1 1.
Proof. reflexivity. Qed.

Lemma plainElem_good (l : list string) :
  Forall plainElem l -> Forall goodElem l.
Proof. apply List.Forall_impl. now intros e [H _]. Qed.

Lemma goodElem_noSep (l : list string) : Forall goodElem l -> Forall noSep l.
Proof. apply List.Forall_impl. now intros e [_ H]. Qed.

Lemma fold_plain (rooted : bool) (l : list string) :
  Forall plainElem l ->
  forall (out : list string) (dotdot : nat),
  fold_left (Filepath.cleanElem rooted) l (out, dotdot)
  = (rev l ++ out, dotdot).
Proof.
  induction 1 as [|e l He _ IH]; intros out dotdot; [reflexivity|].
  cbn [fold_left rev]. rewrite <- app_assoc. cbn [app]. rewrite <- IH.
  f_equal. destruct He as ([Hne _] & Hdot & Hdotdot & _).
  unfold Filepath.cleanElem.
  apply String.eqb_neq in Hne, Hdot, Hdotdot.
  now rewrite Hne, Hdot, Hdotdot.
Qed.

Lemma concat_nonempty (e : string) (l : list string) :
  e <> "" -> String.concat "/" (e :: l) <> "".
Proof.
  intros He. destruct l as [|e' l]; [exact He|].
  rewrite concat_cons2. now apply append_nonempty.
Qed.

Lemma concat_app (l l' : list string) :
  l <> [] -> l' <> [] ->
  String.concat "/" (l ++ l')
  = String.concat "/" l +:+ "/" +:+ String.concat "/" l'.
Proof.
  intros Hl Hl'. induction l as [|e l IH]; [congruence|].
  destruct l as [|e2 l].
  - destruct l' as [|e' l']; [congruence|]. cbn [app]. apply concat_cons2.
  - cbn [app] in IH |- *. rewrite !concat_cons2, IH by discriminate.
    now rewrite !append_assoc.
Qed.

Lemma absPath_app (l0 ns : list string) :
  ns <> [] ->
  absPath (l0 ++ ns)
  = match l0 with
    | [] => "/" +:+ String.concat "/" ns
    | _ => absPath l0 +:+ "/" +:+ String.concat "/" ns
    end.
Proof.
  intros Hns. unfold absPath. destruct l0 as [|e l0]; [reflexivity|].
  rewrite concat_app by (try discriminate; assumption).
  now rewrite !append_assoc.
Qed.

Lemma Clean_rooted_elems (path : string) (elems : list string) :
  Filepath.isRooted path = true ->
  Forall plainElem elems ->
  List.filter (fun e => negb (String.eqb e "")) (Filepath.pathElems path)
  = elems ->
  Filepath.Clean path = absPath elems.
Proof.
  intros Hrooted Hplain Helems.
  assert (Hne : path <> "") by (intros ->; discriminate).
  rewrite (Clean_unfold path Hne), Hrooted. unfold absPath. do 2 f_equal.
  unfold Filepath.cleanOut. rewrite Hrooted.
  assert (Hfold : forall l out,
            Forall plainElem (List.filter (fun e => negb (String.eqb e "")) l) ->
            fold_left (Filepath.cleanElem true) l (out, 0)
            = (rev (List.filter (fun e => negb (String.eqb e "")) l) ++ out, 0)).
  { induction l as [|e l IH]; intros out Hl; [reflexivity|].
    cbn [fold_left List.filter] in *.
    destruct (String.eqb e "") eqn:He; cbn [negb] in *.
    - apply String.eqb_eq in He. subst e. rewrite cleanElem_empty.
      now apply IH.
    - inversion Hl as [|? ? Hpe Hrest]; subst.
      assert (Hstep : Filepath.cleanElem true (out, 0) e = (e :: out, 0))
        by exact (fold_plain true [e] ltac:(now constructor) out 0).
      rewrite Hstep, IH by assumption.
      cbn [rev]. now rewrite <- app_assoc. }
  rewrite Hfold by now rewrite Helems.
  cbn [fst]. now rewrite app_nil_r, Helems, rev_involutive.
Qed.

Lemma filter_plain (l : list string) :
  Forall plainElem l ->
  List.filter (fun e => negb (String.eqb e "")) l = l.
Proof.
  induction 1 as [|e l He _ IH]; [reflexivity|]. cbn [List.filter].
  destruct He as ([Hne _] & _). apply String.eqb_neq in Hne.
  now rewrite Hne, IH.
Qed.

Lemma pathElems_absPath (l : list string) :
  Forall plainElem l ->
  Filepath.pathElems (absPath l)
  = "" :: match l with [] => [""] | _ => l end.
Proof.
  intros Hl. unfold absPath.
  change (Filepath.pathElems ("/" +:+ String.concat "/" l))
    with ("" :: Filepath.pathElems (String.concat "/" l)).
  f_equal. destruct l as [|e l]; [reflexivity|].
  apply pathElems_concat; [discriminate|].
  now apply goodElem_noSep, plainElem_good.
Qed.

Lemma Clean_absPath (l : list string) :
  Forall plainElem l -> Filepath.Clean (absPath l) = absPath l.
Proof.
  intros Hl. apply Clean_rooted_elems; [reflexivity | exact Hl|].
  rewrite (pathElems_absPath l Hl). cbn [List.filter String.eqb negb].
  destruct l as [|e l]; [reflexivity|]. now apply filter_plain.
Qed.

Lemma Clean_relative (e : string) (l : list string) :
  Forall plainElem (e :: l) ->
  Filepath.Clean (String.concat "/" (e :: l)) = String.concat "/" (e :: l).
Proof.
  intros Hl.
  assert (Hgood : Forall goodElem (e :: l)) by now apply plainElem_good.
  assert (Hne : String.concat "/" (e :: l) <> "").
  { apply concat_nonempty. apply Forall_inv in Hgood. apply Hgood. }
  assert (Hrel : Filepath.isRooted (String.concat "/" (e :: l)) = false).
  { apply Forall_inv in Hgood. destruct Hgood as [He Hs].
    rewrite isRooted_concat by exact He. now apply noSep_not_rooted. }
  rewrite (Clean_unfold _ Hne), Hrel.
  unfold Filepath.cleanOut. rewrite Hrel.
  rewrite pathElems_concat by
    (try discriminate; now apply goodElem_noSep).
  rewrite (fold_plain false (e :: l) Hl). cbn [fst]. rewrite app_nil_r.
  rewrite rev_involutive.
  destruct (rev (e :: l)) eqn:Hrev; [|reflexivity].
  apply (f_equal (@length string)) in Hrev. rewrite length_rev in Hrev.
  discriminate.
Qed.

Lemma Join_below (l0 : list string) (e : string) (l : list string) :
  Forall plainElem l0 -> Forall plainElem (e :: l) ->
  Filepath.Join [absPath l0; Filepath.Join (e :: l)] = absPath (l0 ++ e :: l).
Proof.
  intros Hl0 Hl.
  assert (He : String.eqb e "" = false).
  { apply String.eqb_neq. apply Forall_inv in Hl. apply Hl. }
  cbn [Filepath.Join]. rewrite He.
  change (String.eqb (absPath l0) "") with false. cbv iota.
  unfold GoStrings.Join. rewrite (Clean_relative e l Hl).
  change (String.concat "/" [absPath l0; String.concat "/" (e :: l)])
    with (absPath l0 +:+ "/" +:+ String.concat "/" (e :: l)).
  apply Clean_rooted_elems.
  - reflexivity.
  - apply Forall_app. now split.
  - rewrite pathElems_app_sep, (pathElems_absPath l0 Hl0).
    rewrite pathElems_concat by
      (try discriminate; now apply goodElem_noSep, plainElem_good).
    rewrite List.filter_app, (filter_plain (e :: l) Hl).
    destruct l0 as [|e0 l0]; [reflexivity|].
    change (List.filter (fun e => negb (String.eqb e "")) ("" :: e0 :: l0))
      with (List.filter (fun e => negb (String.eqb e "")) (e0 :: l0)).
    now rewrite (filter_plain (e0 :: l0) Hl0).
Qed.

Lemma length_le_elemsSize (l : list string) : length l <= elemsSize l.
Proof. induction l as [|e l IH]; simpl; lia. Qed.

Lemma relScan_below (x : string) (els : list string) (fuel : nat) :
  Forall goodElem els -> els <> [] -> length els <= fuel ->
  Filepath.relScan (S fuel)
    ("/" +:+ String.concat "/" els)
    (("/" +:+ String.concat "/" els) +:+ "/" +:+ x) 0 0 0 0
  = (String.length ("/" +:+ String.concat "/" els),
     String.length ("/" +:+ String.concat "/" els),
     S (String.length ("/" +:+ String.concat "/" els)),
     S (String.length ("/" +:+ String.concat "/" els))).
Proof.
  intros Hgood Hne Hfuel.
  rewrite <- (relScan_common x els Hgood Hne "/" fuel Hfuel).
  exact (relScan_rooted fuel (String.concat "/" els)
           (String.concat "/" els +:+ "/" +:+ x)).
Qed.

Lemma Rel_below (l0 : list string) (e : string) (l : list string) :
  Forall plainElem l0 -> Forall plainElem (e :: l) ->
  Filepath.Rel (absPath l0) (absPath (l0 ++ e :: l))
  = Some (String.concat "/" (e :: l)).
Proof.
  intros Hl0 Hl. unfold Filepath.Rel.
  rewrite (Clean_absPath l0 Hl0).
  rewrite (Clean_absPath (l0 ++ e :: l)) by (apply Forall_app; now split).
  assert (Hx : 1 <= String.length (String.concat "/" (e :: l))).
  { assert (Hne : String.concat "/" (e :: l) <> "").
    { apply concat_nonempty. apply Forall_inv in Hl. apply Hl. }
    destruct (String.concat "/" (e :: l)); [congruence | simpl; lia]. }
  rewrite (absPath_app l0 (e :: l)) by discriminate.
  set (x := String.concat "/" (e :: l)) in *.
  destruct l0 as [|e0 l0].
  - unfold absPath. cbn [String.concat].
    change ("/" +:+ x) with (String "/" x).
    change ("/" +:+ "") with (String "/" "").
    assert (Hneq : String.eqb (String "/" x) (String "/" "") = false).
    { apply String.eqb_neq. intros [= H]. rewrite H in Hx. simpl in Hx. lia. }
    rewrite Hneq.
    change (String.eqb (String "/" "") ".") with false. cbv iota.
    change (Filepath.sepAt (String "/" "") 0) with true.
    change (Filepath.sepAt (String "/" x) 0) with true.
    cbn [Bool.eqb negb].
    rewrite relScan_rooted, relScan_stop_eq by reflexivity.
    change (String.eqb (Filepath.slice (String "/" "") 1 1) "..") with false.
    cbv iota. cbn [String.length Nat.eqb negb].
    unfold Filepath.slice. cbn [substring].
    replace (S (String.length x) - 1) with (String.length x) by lia.
    now rewrite substring_all.
  - unfold absPath.
    assert (Hscan :
      Filepath.relScan
        (S (String.length ("/" +:+ String.concat "/" (e0 :: l0))
            + String.length
                (("/" +:+ String.concat "/" (e0 :: l0)) +:+ "/" +:+ x)))
        ("/" +:+ String.concat "/" (e0 :: l0))
        (("/" +:+ String.concat "/" (e0 :: l0)) +:+ "/" +:+ x) 0 0 0 0
      = (String.length ("/" +:+ String.concat "/" (e0 :: l0)),
         String.length ("/" +:+ String.concat "/" (e0 :: l0)),
         S (String.length ("/" +:+ String.concat "/" (e0 :: l0))),
         S (String.length ("/" +:+ String.concat "/" (e0 :: l0))))).
    { apply relScan_below; [now apply plainElem_good | discriminate |].
      pose proof (length_le_elemsSize (e0 :: l0)) as Hlen.
      rewrite <- (length_concat (e0 :: l0)) in Hlen by discriminate.
      rewrite !length_append. cbn [String.length]. lia. }
    assert (Hdot : String.eqb ("/" +:+ String.concat "/" (e0 :: l0)) "."
                   = false) by reflexivity.
    assert (Hsb : Filepath.sepAt ("/" +:+ String.concat "/" (e0 :: l0)) 0
                  = true) by reflexivity.
    assert (Hst : Filepath.sepAt
                    (("/" +:+ String.concat "/" (e0 :: l0)) +:+ "/" +:+ x) 0
                  = true) by reflexivity.
    remember ("/" +:+ String.concat "/" (e0 :: l0)) as base eqn:Hbase.
    assert (Hneq : String.eqb (base +:+ "/" +:+ x) base = false).
    { apply String.eqb_neq. intros H.
      apply (f_equal String.length) in H. rewrite !length_append in H.
      simpl in H. lia. }
    rewrite Hneq, Hdot, Hsb, Hst. cbn [Bool.eqb negb]. rewrite Hscan.
    unfold Filepath.slice at 1.
    rewrite Nat.sub_diag, substring_zero.
    change (String.eqb "" "..") with false. cbv iota.
    rewrite Nat.eqb_refl. cbn [negb].
    unfold Filepath.slice.
    replace (base +:+ "/" +:+ x) with ((base +:+ "/") +:+ x)
      by now rewrite append_assoc.
    replace (S (String.length base))
      with (String.length (base +:+ "/") + 0)
      by (rewrite length_append; simpl; lia).
    rewrite substring_append_r.
    replace (String.length ((base +:+ "/") +:+ x)
             - (String.length (base +:+ "/") + 0))
      with (String.length x) by (rewrite !length_append; lia).
    now rewrite substring_all.
Qed.

(** After a separator, the end of a string is the end of its last
    element: no white-space rune reaches across the separator. *)
Lemma startsRune_before_sep (back : bool) (l q : list ascii) :
  l <> [] -> startsRune back (l ++ "/"%char :: q) = startsRune back l.
Proof.
  intros Hl. destruct l as [|x [|y [|z l]]]; [congruence | | |];
    cbn [app startsRune].
  - rewrite (proj1 (rune2_sep back x)).
    destruct q as [|z q]; [reflexivity|].
    now rewrite (proj1 (proj2 (rune3_sep back x z))).
  - now rewrite (proj1 (rune3_sep back x y)).
  - reflexivity.
Qed.

Lemma noTrailingSpace_after_sep (s t : string) :
  t <> "" -> noTrailingSpace t -> noTrailingSpace (s +:+ "/" +:+ t).
Proof.
  unfold noTrailingSpace. intros Hne Ht.
  rewrite !list_ascii_of_append, !rev_app_distr. cbn [list_ascii_of_string rev app].
  rewrite <- app_assoc. cbn [app].
  rewrite startsRune_before_sep; [exact Ht|].
  intros Hnil. apply (f_equal (@rev ascii)) in Hnil.
  rewrite rev_involutive in Hnil. cbn [rev] in Hnil.
  apply Hne. rewrite <- (string_of_list_ascii_of_string t), Hnil. reflexivity.
Qed.

Lemma noTrailingSpace_concat (l : list string) :
  forall e pre,
  Forall plainElem (e :: l) ->
  noTrailingSpace (pre +:+ "/" +:+ String.concat "/" (e :: l)).
Proof.
  induction l as [|e2 l IH]; intros e pre Hl.
  - apply Forall_inv in Hl. destruct Hl as ([Hne _] & _ & _ & Hsp).
    now apply noTrailingSpace_after_sep.
  - rewrite concat_cons2. apply Forall_inv_tail in Hl.
    replace (pre +:+ "/" +:+ e +:+ "/" +:+ String.concat "/" (e2 :: l))
      with ((pre +:+ "/" +:+ e) +:+ "/" +:+ String.concat "/" (e2 :: l))
      by now rewrite !append_assoc.
    now apply IH.
Qed.

Lemma Contains_double_noSep (e t : string) :
  noSep e -> GoStrings.Contains (e +:+ t) "//" = GoStrings.Contains t "//".
Proof.
  intros He. induction e as [|c e IH]; [reflexivity|].
  unfold noSep in He. simpl in He.
  destruct (Filepath.IsPathSeparator c) eqn:Hc; [discriminate|].
  rewrite append_cons, Contains_cons, HasPrefix_sep_cons.
  unfold Filepath.IsPathSeparator, Filepath.Separator in Hc. rewrite Hc.
  now apply IH.
Qed.

Lemma concat_no_double (l : list string) :
  Forall goodElem l ->
  GoStrings.Contains (String.concat "/" l) "//" = false
  /\ GoStrings.HasPrefix (String.concat "/" l) "/" = false.
Proof.
  induction 1 as [|e l [Hne Hs] Hl [IHc IHp]]; [now split|]. split.
  - destruct l as [|e2 l].
    + cbn [String.concat]. rewrite <- (append_empty_r e).
      now rewrite Contains_double_noSep.
    + rewrite concat_cons2, Contains_double_noSep by exact Hs.
      change (GoStrings.Contains ("/" +:+ String.concat "/" (e2 :: l)) "//")
        with (GoStrings.HasPrefix (String.concat "/" (e2 :: l)) "/"
              || GoStrings.Contains (String.concat "/" (e2 :: l)) "//").
      now rewrite IHc, IHp.
  - assert (Hr : Filepath.isRooted (String.concat "/" (e :: l)) = false).
    { rewrite isRooted_concat by exact Hne. now apply noSep_not_rooted. }
    destruct (String.concat "/" (e :: l)) as [|c s]; [reflexivity|].
    cbn [GoStrings.HasPrefix]. simpl in Hr.
    unfold Filepath.IsPathSeparator, Filepath.Separator in Hr.
    now rewrite Hr.
Qed.

Lemma ensureCleanPath_absPath (l : list string) :
  Forall plainElem l -> ensureCleanPath (absPath l) = absPath l.
Proof.
  intros Hl. rewrite ensureCleanPath_squeeze.
  assert (Ht : GoStrings.TrimSpace (absPath l) = absPath l).
  { apply TrimSpace_fixed_iff. split; [apply (startsRune_sep false)|].
    destruct l as [|e l]; [reflexivity|].
    unfold absPath. rewrite <- (append_empty_l ("/" +:+ _)).
    now apply noTrailingSpace_concat. }
  rewrite Ht. apply squeeze_fixed_iff. unfold absPath.
  change (GoStrings.Contains ("/" +:+ String.concat "/" l) "//")
    with (GoStrings.HasPrefix (String.concat "/" l) "/"
          || GoStrings.Contains (String.concat "/" l) "//").
  destruct (concat_no_double l (plainElem_good l Hl)) as [Hc Hp].
  now rewrite Hc, Hp.
Qed.

Lemma HasPrefix_concat_dotdot (e : string) (l : list string) :
  e <> "" -> e <> "." ->
  GoStrings.HasPrefix (String.concat "/" (e :: l)) ".."
  = GoStrings.HasPrefix e "..".
Proof.
  intros Hne Hdot. destruct l as [|e2 l]; [reflexivity|].
  rewrite concat_cons2.
  destruct e as [|c [|d e]]; [congruence | |].
  - rewrite !append_cons. cbn [GoStrings.HasPrefix].
    destruct (Ascii.eqb c ".") eqn:Hc; [|reflexivity].
    apply Ascii.eqb_eq in Hc. congruence.
  - now rewrite !append_cons.
Qed.

(** X30.  With the root an absolute path of plain elements and some
    plain segments, [FromRoot] returns the root followed by the segments,
    [GetRelativeToRoot] of that path gives the segments back, and
    [IsInRoot] accepts it unless the first segment starts with two
    dots. *)
Theorem FromRoot_round_trip (st : State) (rootElems : list string)
  (first : string) (rest : list string) :
  GetRoot st = absPath rootElems ->
  Forall plainElem rootElems ->
  Forall plainElem (first :: rest) ->
  FromRoot (first :: rest) st
  = Returns (absPath (rootElems ++ first :: rest))
  /\ GetRelativeToRoot (absPath (rootElems ++ first :: rest)) st
     = Ok (String.concat "/" (first :: rest))
  /\ IsInRoot (absPath (rootElems ++ first :: rest)) st
     = negb (GoStrings.HasPrefix first "..").
Proof.
  intros Hroot Hl0 Hl.
  assert (Hall : Forall plainElem (rootElems ++ first :: rest))
    by (apply Forall_app; now split).
  pose proof (Forall_inv Hl) as ([Hne Hsep] & Hdot & _).
  unfold FromRoot, GetRelativeToRoot, IsInRoot. rewrite Hroot.
  change (String.eqb (absPath rootElems) "") with false. cbv iota.
  rewrite (ensureCleanPath_absPath _ Hl0), (ensureCleanPath_absPath _ Hall).
  rewrite (Rel_below rootElems first rest Hl0 Hl).
  rewrite (HasPrefix_concat_dotdot first rest Hne Hdot).
  repeat split.
  assert (Habs : Filepath.IsAbs first = false).
  { apply noSep_not_rooted in Hsep. unfold Filepath.IsAbs.
    destruct first as [|c s]; [reflexivity|]. cbn [GoStrings.HasPrefix].
    simpl in Hsep. unfold Filepath.IsPathSeparator, Filepath.Separator in Hsep.
    now rewrite Hsep. }
  rewrite Habs. f_equal. now apply Join_below.
Qed.

Lemma FromRoot_round_trip_witness :
  FromRoot ["conf"; "app.yaml"] (rootedState "/srv/old")
  = Returns (absPath (["srv"; "old"] ++ ["conf"; "app.yaml"]))
  /\ GetRelativeToRoot (absPath (["srv"; "old"] ++ ["conf"; "app.yaml"]))
       (rootedState "/srv/old")
     = Ok (String.concat "/" ["conf"; "app.yaml"])
  /\ IsInRoot (absPath (["srv"; "old"] ++ ["conf"; "app.yaml"]))
       (rootedState "/srv/old")
     = negb (GoStrings.HasPrefix "conf" "..").
Proof.
  apply FromRoot_round_trip.
  - reflexivity.
  - repeat constructor; try discriminate; reflexivity.
  - repeat constructor; try discriminate; reflexivity.
Defined.
